(** * AbstractCliManager: a shallow embedding of the CLI process manager

    The development follows
    [main/src/services/panels/cli/AbstractCliManager.ts].

    - JavaScript strings are sequences of 8-bit code units ([string]); the
      process registry [Map<string, CliProcess>] is a [gmap string]; the
      [global] object, which holds the sticky fallback flags, is a
      [gmap string bool].
    - Every collaborator the class calls into (the pseudo-terminal library,
      the operating system, the finder of the Node interpreter, the abstract
      per-tool methods, the clock, the session manager) is a field of an
      interface that reads and advances an abstract [World].  A call that can
      throw returns a [Res].
    - An operation of the manager is a function from the manager state to a
      result (a value or a thrown message), the state it leaves and the log
      of its effects; [try]/[catch] is a combinator.  [async] functions run
      to completion in program order: [await] is sequencing.
    - [emit] logs the event together with the registry its listeners see,
      since [EventEmitter.emit] runs them before it returns.  Listeners and
      the optional logger are taken not to throw, and the logger is left out.
      An ['error'] event is the exception [EventEmitter] makes: with no
      listener attached [emit] itself throws ([emit_error]).
    - The per-tool availability check and output parser always return, as
      their contracts say; the other per-tool hooks may throw. *)

From Stdlib Require Import ZArith String Ascii List Bool Lia DecimalString.
From stdpp Require Import gmap strings list fin_maps.

Import ListNotations.
Set Warnings "-register-all".
Local Open Scope string_scope.
Local Open Scope Z_scope.

(** ** JavaScript string primitives *)

Module Js.

Definition newline : ascii := "010"%char.

(** The one-character strings for a line feed and a double quote. *)
Definition nl : string := String newline EmptyString.
Definition quote : string := String "034"%char EmptyString.

(** [String.prototype.includes]. *)
Fixpoint includes (s needle : string) : bool :=
  if String.prefix needle s then true
  else match s with
       | EmptyString => false
       | String _ rest => includes rest needle
       end.

(** [String.prototype.split('\n')]: never returns the empty array. *)
Fixpoint split_newline (s : string) : list string :=
  match s with
  | EmptyString => [EmptyString]
  | String c rest =>
      if Ascii.eqb c newline then EmptyString :: split_newline rest
      else match split_newline rest with
           | seg :: segs => String c seg :: segs
           | [] => [String c EmptyString]
           end
  end.

(** [Array.prototype.pop]: the last element ([undefined] on an empty
    array) and the array that is left. *)
Definition pop {A} (l : list A) : option A * list A :=
  match rev l with
  | [] => (None, [])
  | x :: r => (Some x, rev r)
  end.

(** The complete lines of a text and its unterminated rest, in one pass;
    [cut_split] relates it to [split_newline] followed by [pop]. *)
Fixpoint cut (s : string) : list string * string :=
  match s with
  | EmptyString => ([], EmptyString)
  | String c rest =>
      let '(lines, last) := cut rest in
      if Ascii.eqb c newline then (EmptyString :: lines, last)
      else match lines with
           | [] => ([], String c last)
           | line :: lines' => (String c line :: lines', last)
           end
  end.

(** [x || ''] for an optional string: [undefined] and [''] are falsy. *)
Definition or_empty (o : option string) : string :=
  match o with
  | Some s => s
  | None => EmptyString
  end.

(** White space in the sense of [String.prototype.trim], restricted to
    code units below 256: TAB, LF, VT, FF, CR, space and NBSP. *)
Definition is_white (c : ascii) : bool :=
  let n := nat_of_ascii c in
  ((9 <=? n) && (n <=? 13) || (n =? 32) || (n =? 160))%nat.

Fixpoint trim_start (s : string) : string :=
  match s with
  | EmptyString => EmptyString
  | String c rest => if is_white c then trim_start rest else s
  end.

Fixpoint string_rev (s : string) : string :=
  match s with
  | EmptyString => EmptyString
  | String c rest => string_rev rest ++ String c EmptyString
  end.

Definition trim (s : string) : string :=
  string_rev (trim_start (string_rev (trim_start s))).

(** Truthiness of a string: only [''] is falsy. *)
Definition truthy (s : string) : bool :=
  match s with
  | EmptyString => false
  | String _ _ => true
  end.

(** [String.prototype.toLowerCase] on the ASCII letters. *)
Definition lower_char (c : ascii) : ascii :=
  let n := nat_of_ascii c in
  if ((65 <=? n) && (n <=? 90))%nat then ascii_of_nat (n + 32) else c.

Fixpoint toLowerCase (s : string) : string :=
  match s with
  | EmptyString => EmptyString
  | String c rest => String (lower_char c) (toLowerCase rest)
  end.

Fixpoint string_drop (n : nat) (s : string) : string :=
  match n, s with
  | O, _ => s
  | S n', EmptyString => EmptyString
  | S n', String _ rest => string_drop n' rest
  end.

(** [String.prototype.substring(start)] with one argument: a negative
    (or NaN) start counts as 0, a start beyond the end as the length, and
    the end is the length of the string. *)
Definition substring (start : Z) (s : string) : string :=
  let len := Z.of_nat (String.length s) in
  let from := Z.min (Z.max start 0) len in
  string_drop (Z.to_nat from) s.

(** [String.prototype.slice(start)] with one argument: a negative start
    counts from the end of the string. *)
Definition slice (start : Z) (s : string) : string :=
  let len := Z.of_nat (String.length s) in
  let from := if start <? 0 then Z.max (len + start) 0 else Z.min start len in
  string_drop (Z.to_nat from) s.

(** [Array.prototype.join]. *)
Definition join (sep : string) (l : list string) : string :=
  String.concat sep l.

(** Template rendering of an integer, [`${n}`]. *)
Definition show_int (n : Z) : string :=
  NilZero.string_of_int (Z.to_int n).

(** Template rendering of [number | null]. *)
Definition show_int_or_null (o : option Z) : string :=
  match o with
  | Some n => show_int n
  | None => "null"
  end.

(** Template rendering of an optional string, [`${s}`]. *)
Definition show_opt (o : option string) : string :=
  match o with
  | Some s => s
  | None => "undefined"
  end.

(** [[...new Set(a)]]: the first occurrence of every element, in
    insertion order. *)
Fixpoint uniq_from (seen : list Z) (l : list Z) : list Z :=
  match l with
  | [] => []
  | x :: rest =>
      if bool_decide (x ∈ seen) then uniq_from seen rest
      else x :: uniq_from (x :: seen) rest
  end.

Definition uniq (l : list Z) : list Z := uniq_from [] l.

End Js.


(** ** Data model *)

(** A JavaScript call either returns or throws; an exception is modelled by
    the message of the thrown [Error]. *)
Inductive Res (A : Type) : Type :=
| Ok (value : A)
| Thrown (message : string).

Arguments Ok {A} value.
Arguments Thrown {A} message.

(** [pty.IPty]: the handle of a spawned pseudo-terminal process.  A [pid]
    of 0 is falsy, as in [if (pid)]. *)
Module IPty.
Record t : Type := mk { pid : Z }.
End IPty.

(** [interface CliProcess] *)
Module CliProcess.
Record t : Type := mk {
  process : IPty.t;
  panelId : string;
  sessionId : string;
  worktreePath : string
}.
End CliProcess.

(** The result type of [testCliAvailability]. *)
Module Availability.
Record t : Type := mk {
  available : bool;
  error : option string;
  version : option string;
  path : option string
}.
End Availability.

(** [interface AvailabilityCache] *)
Module AvailabilityCache.
Record t : Type := mk {
  result : Availability.t;
  timestamp : Z
}.
End AvailabilityCache.

(** [interface CliSpawnOptions] (the tool-specific extra keys are left
    out). *)
Module CliSpawnOptions.
Record t : Type := mk {
  panelId : string;
  sessionId : string;
  worktreePath : string;
  prompt : string;
  isResume : option bool
}.
End CliSpawnOptions.

Inductive OutputType : Type := json | stdout | stderr.

(** The [data: unknown] payload of an output event: plain text, a parsed
    JSON message of the tool, or the [{type: 'session', data: {status,
    message, details}}] object the manager builds for its own errors. *)
Inductive Payload : Type :=
| Text (s : string)
| Json (raw : string)
| SessionMessage (status message details : string).

(** [interface CliOutputEvent] *)
Module CliOutputEvent.
Record t : Type := mk {
  panelId : string;
  sessionId : string;
  type : OutputType;
  data : Payload;
  timestamp : Z
}.
End CliOutputEvent.

(** The four event kinds the manager emits. *)
Inductive Event : Type :=
| SpawnedEvent (panelId sessionId : string)
| OutputEvent (e : CliOutputEvent.t)
| ExitEvent (panelId sessionId : string) (exitCode : option Z) (signal : option Z)
| ErrorEvent (panelId sessionId : string) (error : string).

Inductive Platform : Type := win32 | linux | darwin.

(** The reply to one query for the children of a process: the query fails
    ([execSync] throws), or it lists child pids, each with the reply its own
    query gets when the enumeration recurses into it. *)
Inductive PsReply : Type :=
| PsFailed
| PsChildren (kids : list (Z * PsReply)).

(** The kill commands issued by [killProcessTree]. *)
Inductive OsCommand : Type :=
| taskkill_tree (pid : Z)       (* taskkill /F /T /PID pid *)
| taskkill (pid : Z)            (* taskkill /F /PID pid *)
| process_kill_SIGTERM (pid : Z)
| kill_TERM_group (pid : Z)     (* kill -TERM -pid *)
| process_kill_SIGKILL (pid : Z)
| kill_9_group (pid : Z)        (* kill -9 -pid *)
| kill_9 (pid : Z)              (* kill -9 pid *)
| pkill_9_parent (pid : Z).     (* pkill -9 -P pid *)

(** Which branch of [spawnPtyProcess] issued a [pty.spawn] call. *)
Inductive SpawnMode : Type := Direct | ViaNode.

(** The observable interactions of the manager with its collaborators, in
    program order.  An emitted event is logged with the registry as it is
    while the listeners run: [EventEmitter.emit] calls them synchronously. *)
Inductive Effect : Type :=
| Emitted (e : Event) (registry : gmap string CliProcess.t)
| ParserCall (line : string)
| CleanupCall (sessionId : string)
| ProbeCall (customPath : option string)
| PtySpawnCall (mode : SpawnMode) (file : string) (args : list string) (cwd : string)
| PtyWrite (p : IPty.t) (input : string)
| PtyKill (p : IPty.t)
| OsCall (c : OsCommand)
| Enumerated (root : Z) (pids : list Z)
| Slept (ms : Z)
| SessionErrorAdded (sessionId title details : string).

(** The closure variables of [setupProcessHandlers]. *)
Module Handler.
Record t : Type := mk {
  hasReceivedOutput : bool;
  lastOutput : string;
  buffer : string
}.
Definition initial : t := mk false EmptyString EmptyString.
End Handler.

(** ** The collaborators *)

(** The abstract methods a tool manager implements. *)
Class CliTool (World : Type) : Type := {
  getCliToolName : string;
  testCliAvailability : option string -> World -> Availability.t * World;
  buildCommandArgs : CliSpawnOptions.t -> list string;
  getCliExecutablePath : World -> Res string * World;
  parseCliOutput : string -> string -> string -> World -> list CliOutputEvent.t * World;
  initializeCliEnvironment : CliSpawnOptions.t -> World -> Res (gmap string string) * World;
  cleanupCliResources : string -> World -> Res unit * World
}.

(** Node, the operating system, the pseudo-terminal library and the host
    services. *)
Class Host (World : Type) : Type := {
  os_platform : Platform;
  Date_now : World -> Z;
  setTimeout : Z -> World -> World;
  claudeExecutablePath : World -> option string;
  getShellPath : World -> string;
  process_env : World -> gmap string string;
  path_dirname : string -> string;
  findNodeExecutable : World -> Res string * World;
  findCliNodeScript : string -> World -> Res (option string) * World;
  pty_spawn : string -> list string -> string -> gmap string string -> World -> Res IPty.t * World;
  pty_write : IPty.t -> string -> World -> World;
  pty_kill : IPty.t -> World -> Res unit * World;
  ps_children : Z -> World -> PsReply * World;
  ps_name : Z -> World -> Res string * World;
  os_run : OsCommand -> World -> Res unit * World;
  addSessionError : string -> string -> string -> World -> Res unit * World;
  (** [this.listenerCount('error') > 0]: the listeners are attached by the
      application, so whether there is one is read off the world. *)
  hasErrorListener : World -> bool;
  (** [util.inspect] on the payload of an event. *)
  util_inspect : Event -> string
}.

(** ** Manager state and the monad of manager operations *)

Module St.
Record t (World : Type) : Type := mk {
  processes : gmap string CliProcess.t;
  availabilityCache : option AvailabilityCache.t;
  globals : gmap string bool;
  world : World
}.
Arguments mk {World}.
Arguments processes {World}.
Arguments availabilityCache {World}.
Arguments globals {World}.
Arguments world {World}.
End St.

(** An operation runs from a state to a result (or a thrown exception),
    the state it leaves and the effects it performed. *)
Definition M (World A : Type) : Type :=
  St.t World -> Res A * St.t World * list Effect.

Definition ret {W A} (a : A) : M W A := fun s => (Ok a, s, []).

Definition throw {W A} (message : string) : M W A := fun s => (Thrown message, s, []).

Definition bind {W A B} (m : M W A) (k : A -> M W B) : M W B :=
  fun s =>
    match m s with
    | (Ok a, s1, t1) => let '(r, s2, t2) := k a s1 in (r, s2, (t1 ++ t2)%list)
    | (Thrown e, s1, t1) => (Thrown e, s1, t1)
    end.

(** [try { body } catch (e) { handler(e) }] *)
Definition try_catch {W A} (body : M W A) (handler : string -> M W A) : M W A :=
  fun s =>
    match body s with
    | (Ok a, s1, t1) => (Ok a, s1, t1)
    | (Thrown e, s1, t1) => let '(r, s2, t2) := handler e s1 in (r, s2, (t1 ++ t2)%list)
    end.

Declare Scope js_scope.
Delimit Scope js_scope with js.
Notation "'let!' x ':=' m 'in' k" := (bind m (fun x => k))
  (at level 10, x name, m at level 100, k at level 200) : js_scope.
Local Open Scope js_scope.

Definition get {W} : M W (St.t W) := fun s => (Ok s, s, []).

Definition tell {W} (e : Effect) : M W unit := fun s => (Ok tt, s, [e]).

Definition set_processes {W} (f : gmap string CliProcess.t -> gmap string CliProcess.t) : M W unit :=
  fun s => (Ok tt, St.mk (f (St.processes s)) (St.availabilityCache s) (St.globals s) (St.world s), []).

Definition set_availabilityCache {W} (c : option AvailabilityCache.t) : M W unit :=
  fun s => (Ok tt, St.mk (St.processes s) c (St.globals s) (St.world s), []).

Definition set_global {W} (key : string) (v : bool) : M W unit :=
  fun s => (Ok tt, St.mk (St.processes s) (St.availabilityCache s) (<[key := v]> (St.globals s)) (St.world s), []).

(** A call into a collaborator that always returns. *)
Definition call {W A} (f : W -> A * W) : M W A :=
  fun s => let '(a, w) := f (St.world s) in
           (Ok a, St.mk (St.processes s) (St.availabilityCache s) (St.globals s) w, []).

(** A call into a collaborator that may throw. *)
Definition call_res {W A} (f : W -> Res A * W) : M W A :=
  fun s => let '(r, w) := f (St.world s) in
           (r, St.mk (St.processes s) (St.availabilityCache s) (St.globals s) w, []).

(** [for (const x of l) { body(x) }] *)
Fixpoint for_each {W A} (l : list A) (body : A -> M W unit) : M W unit :=
  match l with
  | [] => ret tt
  | x :: rest => let! _ := body x in for_each rest body
  end.

(** [this.emit(...)]: the listeners run before [emit] returns and see the
    registry as it is at that moment. *)
Definition emit {W} (e : Event) : M W unit :=
  fun s => (Ok tt, s, [Emitted e (St.processes s)]).

(** ** The manager *)

Section Manager.

Context {World : Type} {tool : CliTool World} {host : Host World}.

Local Abbreviation St := (St.t World).
Local Abbreviation M := (M World).

(** [protected readonly CACHE_TTL = 5 * 60 * 1000] *)
Definition CACHE_TTL : Z := 5 * 60 * 1000.

(** [new Date()] *)
Definition now : M Z := fun s => (Ok (Date_now (St.world s)), s, []).

(** [await new Promise(resolve => setTimeout(resolve, ms))] *)
Definition sleep (ms : Z) : M unit :=
  let! _ := call (fun w => (tt, setTimeout ms w)) in
  tell (Slept ms).

(** [emit('output', {panelId, sessionId, type, data, timestamp: new Date()})] *)
Definition emit_output (panelId sessionId : string) (type : OutputType) (data : Payload) : M unit :=
  let! timestamp := now in
  emit (OutputEvent (CliOutputEvent.mk panelId sessionId type data timestamp)).

(** *** Availability *)

Definition clearAvailabilityCache : M unit :=
  set_availabilityCache None.

Definition cache_is_fresh (s : St) : option Availability.t :=
  match St.availabilityCache s with
  | Some c =>
      if Date_now (St.world s) - AvailabilityCache.timestamp c <? CACHE_TTL
      then Some (AvailabilityCache.result c)
      else None
  | None => None
  end.

Definition getCachedAvailability : M Availability.t :=
  let! s := get in
  match cache_is_fresh s with
  | Some result => ret result
  | None =>
      let customPath := claudeExecutablePath (St.world s) in
      let! _ := tell (ProbeCall customPath) in
      let! availability := call (testCliAvailability customPath) in
      let! timestamp := now in
      let! _ := set_availabilityCache (Some (AvailabilityCache.mk availability timestamp)) in
      ret availability
  end.

Definition getCliNotAvailableMessage (error : option string) (shellPath : string) : string :=
  Js.join (Js.nl) [
    "Error: " ++ Js.show_opt error;
    EmptyString;
    getCliToolName ++ " is not installed or not found in your PATH.";
    EmptyString;
    "Please install " ++ getCliToolName ++ ":";
    "1. Follow the installation instructions for your platform";
    "2. Verify installation by running " ++ Js.quote ++ getCliToolName ++ " --version" ++ Js.quote ++ " in your terminal";
    EmptyString;
    "If " ++ getCliToolName ++ " is installed but not in your PATH:";
    "- Add the " ++ getCliToolName ++ " installation directory to your PATH environment variable";
    "- Or set a custom executable path in Crystal Settings";
    EmptyString;
    "Enhanced PATH searched: " ++ shellPath;
    "Attempted command: " ++ getCliToolName ++ " --version"
  ].

Definition handleCliNotAvailable (availability : Availability.t) (panelId sessionId : string) : M unit :=
  let! s := get in
  let details := getCliNotAvailableMessage (Availability.error availability) (getShellPath (St.world s)) in
  let! _ := emit_output panelId sessionId json
              (SessionMessage "error" (getCliToolName ++ " not available") details) in
  let title := getCliToolName ++ " not available" in
  let body := Js.show_opt (Availability.error availability) ++ Js.nl ++
                ("Please install " ++ getCliToolName ++ " or verify it is in your PATH.") in
  let! _ := tell (SessionErrorAdded sessionId title body) in
  call_res (addSessionError sessionId title body).

(** *** Environment *)

Definition getSystemEnvironment : M (gmap string string) :=
  let! s := get in
  let shellPath := getShellPath (St.world s) in
  let! nodePath := call_res findNodeExecutable in
  let nodeDir := path_dirname nodePath in
  let pathSeparator := match os_platform with win32 => ";" | _ => ":" end in
  let pathWithNode := nodeDir ++ pathSeparator ++ shellPath in
  let! s' := get in
  ret (<["PATH" := pathWithNode]> (process_env (St.world s'))).

(** *** Spawning *)

(** [`${toolName}NeedsNodeFallback`], the key of the sticky flag on
    [global]. *)
Definition needsNodeFallbackKey : string :=
  Js.toLowerCase getCliToolName ++ "NeedsNodeFallback".

(** [!!global[needsNodeFallbackKey]] *)
Definition needsNodeFallback (s : St) : bool :=
  match St.globals s !! needsNodeFallbackKey with
  | Some b => b
  | None => false
  end.

(** The test for "typical shebang-related errors". *)
Definition shebang_shaped (errorMsg : string) : bool :=
  Js.includes errorMsg "No such file or directory" ||
  Js.includes errorMsg "env: node:" ||
  Js.includes errorMsg "is not recognized" ||
  Js.includes errorMsg "ENOENT".

Definition spawn_via_pty (mode : SpawnMode) (file : string) (args : list string)
    (cwd : string) (env : gmap string string) : M IPty.t :=
  let! _ := tell (PtySpawnCall mode file args cwd) in
  call_res (pty_spawn file args cwd env).

(** The delay before a spawn on Linux while other panels are running. *)
Definition spawn_delay : M unit :=
  let! s := get in
  match os_platform with
  | linux => if (0 <? Z.of_nat (size (St.processes s))) then sleep 500 else ret tt
  | _ => ret tt
  end.

(** The delays of [spawn_delay]: half a second on Linux while a panel is
    registered, none otherwise. *)
Definition contention_delay (s : St) : list Z :=
  match os_platform with
  | linux => if 0 <? Z.of_nat (size (St.processes s)) then [500] else []
  | _ => []
  end.

(** The Node.js fallback: the script behind the command when the finder
    knows one (a missing or failing finder leaves the command itself), the
    located interpreter, and the arguments to spawn it with. *)
Definition locate_node_invocation (command : string) (args : list string)
    : M (string * list string) :=
  let! foundScript := try_catch (call_res (findCliNodeScript command)) (fun _ => ret None) in
  let scriptPath := match foundScript with
                    | Some found => if Js.truthy found then found else command
                    | None => command
                    end in
  let! nodePath := call_res findNodeExecutable in
  let nodeArgs := if String.eqb scriptPath command
                  then command :: args
                  else "--no-warnings" :: "--enable-source-maps" :: scriptPath :: args in
  ret (nodePath, nodeArgs).

(** The [try] block of one iteration of the spawn loop. *)
Definition spawn_attempt (spawnAttempt : Z) (command : string) (args : list string)
    (cwd : string) (env : gmap string string) : M IPty.t :=
  let! _ := spawn_delay in
  let! s := get in
  if (spawnAttempt =? 0) && negb (needsNodeFallback s) then
    spawn_via_pty Direct command args cwd env
  else
    let! invocation := locate_node_invocation command args in
    spawn_via_pty ViaNode (fst invocation) (snd invocation) cwd env.

(** The [while (spawnAttempt < 2)] loop.  Every iteration that does not
    return increments [spawnAttempt], so two iterations of fuel are all the
    loop can use; [spawn_loop_fuel] shows more fuel changes nothing.  The
    result is the spawned process, or [lastError] when the loop is left
    without one. *)
Fixpoint spawn_loop (fuel : nat) (spawnAttempt : Z) (lastError : option string)
    (command : string) (args : list string) (cwd : string) (env : gmap string string)
    : M (IPty.t + option string) :=
  if spawnAttempt <? 2 then
    match fuel with
    | O => ret (inr lastError)
    | S fuel' =>
        try_catch
          (let! ptyProcess := spawn_attempt spawnAttempt command args cwd env in
           ret (inl ptyProcess))
          (fun errorMsg =>
             let spawnAttempt' := spawnAttempt + 1 in
             let! s := get in
             if (spawnAttempt' =? 1) && negb (needsNodeFallback s) then
               if shebang_shaped errorMsg then
                 let! _ := set_global needsNodeFallbackKey true in
                 spawn_loop fuel' spawnAttempt' (Some errorMsg) command args cwd env
               else ret (inr (Some errorMsg))
             else ret (inr (Some errorMsg)))
    end
  else ret (inr lastError).

(** The state once the sticky flag of the tool is set. *)
Definition flagged (s : St) : St :=
  St.mk (St.processes s) (St.availabilityCache s)
        (<[needsNodeFallbackKey := true]> (St.globals s)) (St.world s).

(** The message of the error [spawnPtyProcess] throws after the loop.  (The
    guard [if (!pty)] on the imported module is left out: the module object
    is always there.) *)
Definition spawn_failure (errorMsg : string) : string :=
  "Failed to spawn " ++ getCliToolName ++ ": " ++ errorMsg.

Definition spawnPtyProcess (command : string) (args : list string) (cwd : string)
    (env : gmap string string) : M IPty.t :=
  let! outcome := spawn_loop 2 0 None command args cwd env in
  match outcome with
  | inl ptyProcess => ret ptyProcess
  | inr lastError =>
      throw ("Failed to spawn " ++ getCliToolName ++ ": " ++ Js.show_opt lastError)
  end.

(** *** Process management utilities *)

(** The recursion of [getAllDescendantPids] over the replies of the child
    queries: a failed query leaves [descendants] empty (the [catch]), a child
    reported with the pid of its parent is skipped, every other child is
    pushed followed by its own descendants, and the array is deduplicated on
    return. *)
Fixpoint descendants_of (parentPid : Z) (reply : PsReply) : list Z :=
  match reply with
  | PsFailed => []
  | PsChildren kids =>
      Js.uniq (flat_map (fun kid : Z * PsReply =>
                           if fst kid =? parentPid then []
                           else fst kid :: descendants_of (fst kid) (snd kid))
                        kids)
  end.

Definition getAllDescendantPids (parentPid : Z) : M (list Z) :=
  let! reply := call (ps_children parentPid) in
  let descendants := descendants_of parentPid reply in
  let! _ := tell (Enumerated parentPid descendants) in
  ret descendants.

(** The name read off the output of the name query: [result.trim()] on
    Unix, the second non-blank line on Windows. *)
Definition name_of_output (result : string) : option string :=
  match os_platform with
  | win32 =>
      let lines := List.filter (fun line => Js.truthy (Js.trim line)) (Js.split_newline result) in
      match lines with
      | _ :: second :: _ => Some (Js.trim second)
      | _ => None
      end
  | _ => Some (Js.trim result)
  end.

(** [name || 'unknown'] *)
Definition or_unknown (name : option string) : string :=
  match name with
  | Some n => if Js.truthy n then n else "unknown"
  | None => "unknown"
  end.

Fixpoint getProcessInfo (pids : list Z) : M (list (Z * string)) :=
  match pids with
  | [] => ret []
  | pid :: rest =>
      let! info := try_catch
                     (let! result := call_res (ps_name pid) in
                      ret (pid, or_unknown (name_of_output result)))
                     (fun _ => ret (pid, "unknown")) in
      let! infos := getProcessInfo rest in
      ret (info :: infos)
  end.

(** [processes.map(p => `${p.name || 'unknown'}(${p.pid})`).join(', ')] *)
Definition processReport (infos : list (Z * string)) : string :=
  Js.join ", " (map (fun p : Z * string =>
                       or_unknown (Some (snd p)) ++ "(" ++ Js.show_int (fst p) ++ ")") infos).

(** [`process${n > 1 ? 'es' : ''}`] *)
Definition plural (n : nat) : string :=
  if (1 <? n)%nat then "processes" else "process".

Definition show_nat (n : nat) : string := Js.show_int (Z.of_nat n).

Definition zombie_warning (remainingPids : list Z) (remainingProcesses : list (Z * string)) : string :=
  Js.nl ++ "[WARNING] Failed to terminate " ++ show_nat (length remainingPids) ++ " child "
    ++ plural (length remainingPids) ++ ": " ++ processReport remainingProcesses ++ Js.nl
    ++ "Please manually kill these processes." ++ Js.nl.

Definition os (c : OsCommand) : M unit :=
  let! _ := tell (OsCall c) in
  call_res (os_run c).

(** [try { ... } catch { }] around a command whose failure is ignored. *)
Definition ignoring_errors (m : M unit) : M unit :=
  try_catch m (fun _ => ret tt).

(** The platform branch of [killProcessTree]. *)
Definition kill_commands (pid : Z) (descendantPids : list Z) : M unit :=
  match os_platform with
  | win32 =>
      try_catch (os (taskkill_tree pid))
        (fun _ => for_each descendantPids (fun childPid => ignoring_errors (os (taskkill childPid))))
  | _ =>
      let! _ := ignoring_errors (os (process_kill_SIGTERM pid)) in
      let! _ := ignoring_errors (os (kill_TERM_group pid)) in
      let! _ := sleep 200 in
      let! _ := ignoring_errors (os (process_kill_SIGKILL pid)) in
      let! _ := ignoring_errors (os (kill_9_group pid)) in
      let! _ := for_each descendantPids (fun childPid => ignoring_errors (os (kill_9 childPid))) in
      ignoring_errors (os (pkill_9_parent pid))
  end.

(** The verification step: re-enumerate after the settle delay and report
    what is left.  The result is the value of [success]. *)
Definition verify_killed (pid : Z) (panelId sessionId : string) : M bool :=
  let! _ := sleep 500 in
  let! remainingPids := getAllDescendantPids pid in
  if (0 <? length remainingPids)%nat then
    let! remainingProcesses := getProcessInfo remainingPids in
    let! _ := emit_output panelId sessionId stderr
                (Text (zombie_warning remainingPids remainingProcesses)) in
    ret false
  else ret true.

Definition kill_via_pty (p : IPty.t) : M unit :=
  let! _ := tell (PtyKill p) in
  call_res (pty_kill p).

Definition killProcessTree (pid : Z) (panelId sessionId : string) : M bool :=
  let! descendantPids := getAllDescendantPids pid in
  let! success := try_catch
                    (let! _ := kill_commands pid descendantPids in
                     verify_killed pid panelId sessionId)
                    (fun _ => ret false) in
  let! _ := ignoring_errors
              (let! s := get in
               match St.processes s !! panelId with
               | Some cliProcess => kill_via_pty (CliProcess.process cliProcess)
               | None => ret tt
               end) in
  ret success.

Definition cleanup (sessionId : string) : M unit :=
  let! _ := tell (CleanupCall sessionId) in
  call_res (cleanupCliResources sessionId).

Definition killProcess (panelId : string) : M unit :=
  let! s := get in
  match St.processes s !! panelId with
  | None => ret tt
  | Some cliProcess =>
      let sessionId := CliProcess.sessionId cliProcess in
      let pid := IPty.pid (CliProcess.process cliProcess) in
      let! killedProcesses :=
        if pid =? 0 then ret []
        else
          let! descendantPids := getAllDescendantPids pid in
          if (0 <? length descendantPids)%nat then getProcessInfo descendantPids else ret [] in
      let! _ := cleanup sessionId in
      let! _ :=
        if pid =? 0 then kill_via_pty (CliProcess.process cliProcess)
        else
          let! success := killProcessTree pid panelId sessionId in
          if (0 <? length killedProcesses)%nat then
            emit_output panelId sessionId stdout
              (Text (Js.nl ++ "[Process Cleanup] Terminated " ++ show_nat (length killedProcesses)
                       ++ " child " ++ plural (length killedProcesses) ++ " started by "
                       ++ getCliToolName ++ ": " ++ processReport killedProcesses ++ Js.nl))
          else ret tt in
      set_processes (delete panelId)
  end.

(** [Promise.all(panelIds.map(panelId => this.killProcess(panelId)))], the
    calls run one after the other in the order of the keys; a call that
    rejects does not stop the others, and the first rejection is the
    result. *)
Fixpoint kill_each (panelIds : list string) : M unit :=
  match panelIds with
  | [] => ret tt
  | panelId :: rest =>
      let! failure := try_catch (let! _ := killProcess panelId in ret None)
                                (fun e => ret (Some e)) in
      let! _ := kill_each rest in
      match failure with
      | Some e => throw e
      | None => ret tt
      end
  end.

Definition killAllProcesses : M unit :=
  let! s := get in
  kill_each (map fst (map_to_list (St.processes s))).

Definition isPanelRunning (panelId : string) (s : St) : bool :=
  bool_decide (is_Some (St.processes s !! panelId)).

Definition getProcess (panelId : string) (s : St) : option CliProcess.t :=
  St.processes s !! panelId.

(** *** Input *)

Definition sendInput (panelId input : string) : M unit :=
  let! s := get in
  match St.processes s !! panelId with
  | None => throw ("No " ++ getCliToolName ++ " process found for panel " ++ panelId)
  | Some cliProcess =>
      if negb (String.eqb (CliProcess.panelId cliProcess) panelId) then
        throw "Panel ID mismatch: process belongs to different panel"
      else
        let! _ := tell (PtyWrite (CliProcess.process cliProcess) input) in
        call (fun w => (tt, pty_write (CliProcess.process cliProcess) input w))
  end.

(** *** Starting a panel process *)

(** The message of the [ERR_UNHANDLED_ERROR] that [EventEmitter.emit] throws
    for an ['error'] event nobody listens to, when the payload is not an
    [Error]: [`Unhandled error. (${inspect(payload)})`]. *)
Definition unhandled_error (e : Event) : string :=
  "Unhandled error. (" ++ util_inspect e ++ ")".

(** [this.emit('error', payload)].  Unlike the other events, an ['error']
    event with no listener attached makes [emit] throw.  The call is logged
    either way. *)
Definition emit_error (e : Event) : M unit :=
  let! _ := emit e in
  let! s := get in
  if hasErrorListener (St.world s) then ret tt
  else throw (unhandled_error e).

Definition spawnCliProcess (options : CliSpawnOptions.t) : M unit :=
  let panelId := CliSpawnOptions.panelId options in
  let sessionId := CliSpawnOptions.sessionId options in
  let worktreePath := CliSpawnOptions.worktreePath options in
  try_catch
    (let! availability := getCachedAvailability in
     let! _ :=
       if negb (Availability.available availability) then
         let! _ := handleCliNotAvailable availability panelId sessionId in
         throw (getCliToolName ++ " CLI not available: " ++ Js.show_opt (Availability.error availability))
       else ret tt in
     let args := buildCommandArgs options in
     let! cliEnv := call_res (initializeCliEnvironment options) in
     let! systemEnv := getSystemEnvironment in
     let env : gmap string string := cliEnv ∪ systemEnv in
     let! cliCommand := call_res getCliExecutablePath in
     let! ptyProcess := spawnPtyProcess cliCommand args worktreePath env in
     let cliProcess := CliProcess.mk ptyProcess panelId sessionId worktreePath in
     let! _ := set_processes (insert panelId cliProcess) in
     emit (SpawnedEvent panelId sessionId))
    (fun errorMessage =>
       let! _ := emit_error (ErrorEvent panelId sessionId errorMessage) in
       throw errorMessage).

(** *** Output and exit handlers *)

Definition parse (data panelId sessionId : string) : M (list CliOutputEvent.t) :=
  let! _ := tell (ParserCall data) in
  call (parseCliOutput data panelId sessionId).

(** [parseCliOutput] followed by the [emit('output', event)] loop. *)
Definition parse_and_emit (data panelId sessionId : string) : M unit :=
  let! outputEvents := parse data panelId sessionId in
  for_each outputEvents (fun event => emit (OutputEvent event)).

(** The [for (const line of lines)] loop of the data listener. *)
Definition process_lines (lines : list string) (panelId sessionId : string) : M unit :=
  for_each lines (fun line =>
    if Js.truthy (Js.trim line)
    then parse_and_emit (line ++ Js.nl) panelId sessionId
    else ret tt).

(** The [ptyProcess.onData] listener; the result is the closure state it
    leaves. *)
Definition onData (panelId sessionId : string) (h : Handler.t) (data : string) : M Handler.t :=
  let lastOutput := Handler.lastOutput h ++ data in
  let buffer := Handler.buffer h ++ data in
  let '(last, lines) := Js.pop (Js.split_newline buffer) in
  let buffer := Js.or_empty last in
  let! _ := process_lines lines panelId sessionId in
  ret (Handler.mk true lastOutput buffer).

(** The data listener called once per chunk, in order. *)
Fixpoint feed (panelId sessionId : string) (h : Handler.t) (chunks : list string) : M Handler.t :=
  match chunks with
  | [] => ret h
  | data :: rest =>
      let! h' := onData panelId sessionId h data in
      feed panelId sessionId h' rest
  end.

Definition handleProcessStartupFailure (exitCode : Z) (signal : option Z)
    (panelId sessionId lastOutput : string) : M unit :=
  let signalText := match signal with
                    | Some sig => if sig =? 0 then EmptyString else ", Signal: " ++ Js.show_int sig
                    | None => EmptyString
                    end in
  emit_output panelId sessionId json
    (SessionMessage "error"
       (getCliToolName ++ " failed to start (exit code: " ++ Js.show_int exitCode ++ ")")
       (Js.join Js.nl [
          "This usually means " ++ getCliToolName ++ " is not installed properly or not found in your PATH.";
          EmptyString;
          "Please ensure:";
          "1. " ++ getCliToolName ++ " is installed";
          "2. The " ++ Js.quote ++ getCliToolName ++ Js.quote ++ " command is available in your terminal";
          "3. Your PATH environment variable includes the installation directory";
          EmptyString;
          "Exit code: " ++ Js.show_int exitCode ++ signalText;
          EmptyString;
          "You can also set a custom executable path in the Settings."
        ])).

(** The [details] text of the runtime-failure message. *)
Definition runtime_failure_details (lastOutput : string) : string :=
  if (0 <? String.length lastOutput)%nat
  then "Last output:" ++ Js.nl ++ Js.substring (-500) lastOutput
  else "No additional details available".

Definition handleProcessRuntimeFailure (exitCode : Z) (signal : option Z)
    (panelId sessionId lastOutput : string) : M unit :=
  emit_output panelId sessionId json
    (SessionMessage "error"
       (getCliToolName ++ " exited with error (exit code: " ++ Js.show_int exitCode ++ ")")
       (runtime_failure_details lastOutput)).

(** The sweep for orphaned children at the start of the exit listener. *)
Definition sweep_orphans (ptyProcess : IPty.t) (panelId sessionId : string) : M unit :=
  let pid := IPty.pid ptyProcess in
  if pid =? 0 then ret tt
  else
    let! descendantPids := getAllDescendantPids pid in
    if (0 <? length descendantPids)%nat then
      let! killedProcesses := getProcessInfo descendantPids in
      let! _ := killProcessTree pid panelId sessionId in
      emit_output panelId sessionId stdout
        (Text (Js.nl ++ "[Process Cleanup] Terminated " ++ show_nat (length killedProcesses)
                 ++ " orphaned child " ++ plural (length killedProcesses) ++ " after "
                 ++ getCliToolName ++ " exit: " ++ processReport killedProcesses ++ Js.nl))
    else ret tt.

(** The [ptyProcess.onExit] listener. *)
Definition onExit (ptyProcess : IPty.t) (panelId sessionId : string) (h : Handler.t)
    (exitCode : Z) (signal : option Z) : M unit :=
  let! _ := sweep_orphans ptyProcess panelId sessionId in
  let! _ := if Js.truthy (Js.trim (Handler.buffer h))
            then parse_and_emit (Handler.buffer h) panelId sessionId
            else ret tt in
  let! _ := if negb (exitCode =? 0) then
              if negb (Handler.hasReceivedOutput h)
              then handleProcessStartupFailure exitCode signal panelId sessionId (Handler.lastOutput h)
              else handleProcessRuntimeFailure exitCode signal panelId sessionId (Handler.lastOutput h)
            else ret tt in
  let! _ := cleanup sessionId in
  let! _ := emit (ExitEvent panelId sessionId (Some exitCode) signal) in
  set_processes (delete panelId).

End Manager.

(** ** Reachable manager states *)

Section Reachability.

Context {World : Type} {tool : CliTool World} {host : Host World}.

(** A manager starts with an empty registry and no cached probe. *)
Definition initial (globals : gmap string bool) (w : World) : St.t World :=
  St.mk ∅ None globals w.

(** One step of a manager: a public operation or a listener runs to
    completion, or the world moves on by itself. *)
Inductive step : St.t World -> St.t World -> Prop :=
| step_spawnCliProcess options s r s' t :
    spawnCliProcess options s = (r, s', t) -> step s s'
| step_sendInput panelId input s r s' t :
    sendInput panelId input s = (r, s', t) -> step s s'
| step_killProcess panelId s r s' t :
    killProcess panelId s = (r, s', t) -> step s s'
| step_killAllProcesses s r s' t :
    killAllProcesses s = (r, s', t) -> step s s'
| step_clearAvailabilityCache s r s' t :
    clearAvailabilityCache s = (r, s', t) -> step s s'
| step_onData panelId sessionId h data s r s' t :
    onData panelId sessionId h data s = (r, s', t) -> step s s'
| step_onExit ptyProcess panelId sessionId h exitCode signal s r s' t :
    onExit ptyProcess panelId sessionId h exitCode signal s = (r, s', t) -> step s s'
| step_world s globals w :
    step s (St.mk (St.processes s) (St.availabilityCache s) globals w).

Inductive reachable : St.t World -> Prop :=
| reachable_initial globals w : reachable (initial globals w)
| reachable_step s s' : reachable s -> step s s' -> reachable s'.

(** Every entry of the registry is stored under its own [panelId]. *)
Definition keyed_by_panelId (s : St.t World) : Prop :=
  forall key cliProcess,
    St.processes s !! key = Some cliProcess -> CliProcess.panelId cliProcess = key.

End Reachability.

(** ** Reading an effect log *)

Definition parser_calls (t : list Effect) : list string :=
  flat_map (fun e => match e with ParserCall line => [line] | _ => [] end) t.

Definition probe_calls (t : list Effect) : list (option string) :=
  flat_map (fun e => match e with ProbeCall customPath => [customPath] | _ => [] end) t.

Definition spawn_calls (t : list Effect) : list (SpawnMode * string * list string) :=
  flat_map (fun e => match e with
                     | PtySpawnCall mode file args _ => [(mode, file, args)]
                     | _ => []
                     end) t.

Definition direct_spawn_calls (t : list Effect) : list (string * list string) :=
  flat_map (fun e => match e with
                     | PtySpawnCall Direct file args _ => [(file, args)]
                     | _ => []
                     end) t.

(** The enumerations of descendants a log records, each with its root. *)
Definition enumerations (t : list Effect) : list (Z * list Z) :=
  flat_map (fun e => match e with Enumerated root pids => [(root, pids)] | _ => [] end) t.

(** The events of a log, each with the registry its listeners saw. *)
Definition emitted (t : list Effect) : list (Event * gmap string CliProcess.t) :=
  flat_map (fun e => match e with Emitted ev registry => [(ev, registry)] | _ => [] end) t.

Definition is_exit_event (ev : Event) : bool :=
  match ev with
  | ExitEvent _ _ _ _ => true
  | _ => false
  end.

Definition exit_events (t : list Effect) : list (Event * gmap string CliProcess.t) :=
  List.filter (fun p => is_exit_event (fst p)) (emitted t).


(** ** A concrete tool and host

    A small world to run the manager in: a clock, whether the tool is
    installed, the error (if any) of a direct spawn and of a spawn of the
    Node interpreter, and the children of the spawned process that refuse to
    die. *)

Module Demo.

Record World : Type := mkWorld {
  clock : Z;
  installed : bool;
  direct_error : option string;
  node_error : option string;
  stubborn_children : list Z;
  listening : bool
}.

Definition advance (ms : Z) (w : World) : World :=
  mkWorld (clock w + ms) (installed w) (direct_error w) (node_error w) (stubborn_children w)
          (listening w).

Definition probe (customPath : option string) (w : World) : Availability.t * World :=
  (if installed w
   then Availability.mk true None (Some "1.2.3") (Some "/usr/local/bin/claude")
   else Availability.mk false (Some "claude not found in PATH") None None,
   advance 40 w).

Definition echo_parser (data panelId sessionId : string) (w : World) : list CliOutputEvent.t * World :=
  ([CliOutputEvent.mk panelId sessionId json (Json data) (clock w)], w).

#[global] Instance tool : CliTool World := {|
  getCliToolName := "claude";
  testCliAvailability := probe;
  buildCommandArgs := fun options => ["-p"; CliSpawnOptions.prompt options];
  getCliExecutablePath := fun w => (Ok "claude", w);
  parseCliOutput := echo_parser;
  initializeCliEnvironment := fun _ w => (Ok ∅, w);
  cleanupCliResources := fun _ w => (Ok tt, w)
|}.

Definition spawn (file : string) (args : list string) (cwd : string)
    (env : gmap string string) (w : World) : Res IPty.t * World :=
  match (if String.eqb file "/usr/bin/node" then node_error w else direct_error w) with
  | Some e => (Thrown e, w)
  | None => (Ok (IPty.mk 4242), w)
  end.

Definition children (pid : Z) (w : World) : PsReply * World :=
  (if pid =? 4242
   then PsChildren (map (fun child => (child, PsChildren [])) (stubborn_children w))
   else PsChildren [],
   w).

(** An event payload in the style of [util.inspect], on one line. *)
Definition show_event (e : Event) : string :=
  match e with
  | ErrorEvent panelId sessionId error =>
      "{ panelId: '" ++ panelId ++ "', sessionId: '" ++ sessionId
        ++ "', error: '" ++ error ++ "' }"
  | SpawnedEvent panelId sessionId =>
      "{ panelId: '" ++ panelId ++ "', sessionId: '" ++ sessionId ++ "' }"
  | _ => "[Object]"
  end.

#[global] Instance host : Host World := {|
  os_platform := linux;
  Date_now := clock;
  setTimeout := advance;
  claudeExecutablePath := fun _ => None;
  getShellPath := fun _ => "/usr/local/bin:/usr/bin:/bin";
  process_env := fun _ => {["HOME" := "/home/dev"]};
  path_dirname := fun _ => "/usr/bin";
  findNodeExecutable := fun w => (Ok "/usr/bin/node", w);
  findCliNodeScript := fun _ w => (Ok None, w);
  pty_spawn := spawn;
  pty_write := fun _ _ w => w;
  pty_kill := fun _ w => (Ok tt, w);
  ps_children := children;
  ps_name := fun _ w => (Ok ("node" ++ Js.nl), w);
  os_run := fun _ w => (Ok tt, w);
  addSessionError := fun _ _ _ w => (Ok tt, w);
  hasErrorListener := listening;
  util_inspect := show_event
|}.

Definition healthy : World := mkWorld 1000 true None None [] true.
Definition not_installed : World := mkWorld 1000 false None None [] true.
Definition broken_shebang : World :=
  mkWorld 1000 true (Some "env: node: No such file or directory") None [] true.
Definition no_terminals : World :=
  mkWorld 1000 true (Some "forkpty(3) failed.") (Some "forkpty(3) failed.") [] true.
Definition no_node : World :=
  mkWorld 1000 true (Some "env: node: No such file or directory")
          (Some "spawn /usr/bin/node EACCES") [] true.
Definition with_zombies : World := mkWorld 1000 true None None [4243; 4244] true.
(** The tool is not installed and nobody listens to ['error'] events. *)
Definition unheard : World := mkWorld 1000 false None None [] false.

Definition fresh (w : World) : St.t World := initial ∅ w.

Definition options : CliSpawnOptions.t :=
  CliSpawnOptions.mk "p1" "s1" "/tmp/wt" "hello" None.

(** The state a successful start of panel [p1] leaves. *)
Definition started (w : World) : St.t World :=
  snd (fst (spawnCliProcess options (fresh w))).

Definition the_pty : IPty.t := IPty.mk 4242.

(** The text of a given length made of one character. *)
Fixpoint repeat_char (c : ascii) (n : nat) : string :=
  match n with
  | O => EmptyString
  | S n' => String c (repeat_char c n')
  end.

End Demo.

(** The same manager in a world that has moved on between two calls. *)
Definition with_world {W} (s : St.t W) (w : W) : St.t W :=
  St.mk (St.processes s) (St.availabilityCache s) (St.globals s) w.

(** ** Reading the outcome of an operation *)

Definition result_of {W A} (o : Res A * St.t W * list Effect) : Res A := fst (fst o).
Definition state_of {W A} (o : Res A * St.t W * list Effect) : St.t W := snd (fst o).
Definition effects_of {W A} (o : Res A * St.t W * list Effect) : list Effect := snd o.

(** An operation that returns from every state. *)
Definition never_throws {W A} (m : M W A) : Prop :=
  forall s, exists a s' t, m s = (Ok a, s', t).

(** An operation that leaves the registry, the cache and the sticky flags
    as they are; it may move the world. *)
Definition only_moves_world {W A} (m : M W A) : Prop :=
  forall s,
    St.processes (state_of (m s)) = St.processes s /\
    St.availabilityCache (state_of (m s)) = St.availabilityCache s /\
    St.globals (state_of (m s)) = St.globals s.

(** An operation all of whose effect logs have a given property. *)
Definition logs_only {W A} (Q : list Effect -> Prop) (m : M W A) : Prop :=
  forall s, Q (effects_of (m s)).

(** The properties of logs used below: nothing emitted, no exit event
    emitted, no parser call, no enumeration of descendants. *)
Definition emits_nothing (t : list Effect) : Prop := emitted t = [].
Definition no_exit_event (t : list Effect) : Prop := exit_events t = [].
Definition no_parser_call (t : list Effect) : Prop := parser_calls t = [].
Definition no_enumeration (t : list Effect) : Prop := enumerations t = [].

(** An operation that keeps every registry entry under its own key. *)
Definition keeps_keyed {W A} (m : M W A) : Prop :=
  forall s, keyed_by_panelId s -> keyed_by_panelId (state_of (m s)).

(** ** The session adapters and the list of panels *)

(** [`session-${sessionId}`], the panel id the deprecated session methods
    derive from a session id. *)
Definition virtualPanelId (sessionId : string) : string := "session-" ++ sessionId.

Definition isSessionRunning {W} (sessionId : string) (s : St.t W) : bool :=
  isPanelRunning (virtualPanelId sessionId) s.

(** [Array.from(this.processes.keys())] *)
Definition getAllProcesses {W} (s : St.t W) : list string :=
  map fst (map_to_list (St.processes s)).

(** ** More readers of effect logs *)

Definition sleeps (t : list Effect) : list Z :=
  flat_map (fun e => match e with Slept ms => [ms] | _ => [] end) t.

Definition cleanup_calls (t : list Effect) : list string :=
  flat_map (fun e => match e with CleanupCall sessionId => [sessionId] | _ => [] end) t.

(** The effects that kill: commands of the operating system and kills
    through the pseudo-terminal. *)
Definition is_kill (e : Effect) : bool :=
  match e with
  | OsCall _ | PtyKill _ => true
  | _ => false
  end.

Definition kill_effects (t : list Effect) : list Effect := List.filter is_kill t.

(** The events that mark the life of a panel process: spawned, exit and
    error; output events are the others. *)
Definition is_lifecycle (ev : Event) : bool :=
  match ev with
  | OutputEvent _ => false
  | _ => true
  end.

Definition lifecycle_events (t : list Effect) : list (Event * gmap string CliProcess.t) :=
  List.filter (fun p => is_lifecycle (fst p)) (emitted t).

(** The kill commands, the kills through the terminal and the delays of a
    log, in order. *)
Definition is_timed (e : Effect) : bool :=
  match e with
  | OsCall _ | Slept _ | PtyKill _ => true
  | _ => false
  end.

Definition timeline (t : list Effect) : list Effect := List.filter is_timed t.

Definition no_kill (t : list Effect) : Prop := kill_effects t = [].
Definition no_lifecycle_event (t : list Effect) : Prop := lifecycle_events t = [].
Definition no_cleanup_call (t : list Effect) : Prop := cleanup_calls t = [].

(** A text without a line feed. *)
Definition one_line (s : string) : Prop := Js.includes s Js.nl = false.

(** ** Relations between the states before and after an operation *)

(** An operation whose final state is always related to its initial
    state. *)
Definition stays_within {W A} (R : St.t W -> St.t W -> Prop) (m : M W A) : Prop :=
  forall s, R s (state_of (m s)).

Definition same_registry {W} (s s' : St.t W) : Prop :=
  St.processes s' = St.processes s.

(** Every flag of the [global] object that is set stays set. *)
Definition flags_kept {W} (s s' : St.t W) : Prop :=
  forall key, St.globals s !! key = Some true -> St.globals s' !! key = Some true.

(** The registry loses entries at most. *)
Definition registry_shrinks {W} (s s' : St.t W) : Prop :=
  St.processes s' ⊆ St.processes s.

(** The entries of all panels but one are as they were. *)
Definition others_kept {W} (panelId : string) (s s' : St.t W) : Prop :=
  forall other, other <> panelId -> St.processes s' !! other = St.processes s !! other.

(** ** Starting a panel, as a shape of outcomes *)

(** A log with no lifecycle event and no kill. *)
Definition calm (t : list Effect) : Prop := no_lifecycle_event t /\ no_kill t.

(** An operation that leaves the registry as it is and whose log is
    calm. *)
Definition quiet {W A} (m : M W A) : Prop :=
  stays_within same_registry m /\ logs_only calm m.

(** An operation that either registers a process for the panel of
    [options] and announces it, once, with the entry in place, or leaves
    the registry as it is and announces nothing; and never kills. *)
Definition starts_panel {W} (options : CliSpawnOptions.t) (m : M W unit) : Prop :=
  forall s,
    let panelId := CliSpawnOptions.panelId options in
    let sessionId := CliSpawnOptions.sessionId options in
    let worktreePath := CliSpawnOptions.worktreePath options in
    no_kill (effects_of (m s)) /\
    match result_of (m s) with
    | Ok _ =>
        exists ptyProcess,
          let registry :=
            <[panelId := CliProcess.mk ptyProcess panelId sessionId worktreePath]>
              (St.processes s) in
          St.processes (state_of (m s)) = registry /\
          lifecycle_events (effects_of (m s)) = [(SpawnedEvent panelId sessionId, registry)]
    | Thrown _ =>
        St.processes (state_of (m s)) = St.processes s /\
        lifecycle_events (effects_of (m s)) = []
    end.

(** ** The operations of the manager as data *)

Inductive Operation : Type :=
| DoSpawnCliProcess (options : CliSpawnOptions.t)
| DoSendInput (panelId input : string)
| DoKillProcess (panelId : string)
| DoKillAllProcesses
| DoClearAvailabilityCache
| DoData (panelId sessionId : string) (h : Handler.t) (data : string)
| DoExit (ptyProcess : IPty.t) (panelId sessionId : string) (h : Handler.t)
         (exitCode : Z) (signal : option Z).

Definition perform {World : Type} {tool : CliTool World} {host : Host World}
    (op : Operation) : M World unit :=
  match op with
  | DoSpawnCliProcess options => spawnCliProcess options
  | DoSendInput panelId input => sendInput panelId input
  | DoKillProcess panelId => killProcess panelId
  | DoKillAllProcesses => killAllProcesses
  | DoClearAvailabilityCache => clearAvailabilityCache
  | DoData panelId sessionId h data =>
      let! _ := onData panelId sessionId h data in ret tt
  | DoExit ptyProcess panelId sessionId h exitCode signal =>
      onExit ptyProcess panelId sessionId h exitCode signal
  end.

(** The panel an operation is about, if it is about one. *)
Definition target (op : Operation) : option string :=
  match op with
  | DoSpawnCliProcess options => Some (CliSpawnOptions.panelId options)
  | DoSendInput panelId _ => Some panelId
  | DoKillProcess panelId => Some panelId
  | DoKillAllProcesses => None
  | DoClearAvailabilityCache => None
  | DoData panelId _ _ _ => Some panelId
  | DoExit _ panelId _ _ _ _ => Some panelId
  end.

(** Operations run one after the other, each to completion, whatever it
    returns or throws; the result is the state they leave. *)
Fixpoint run_all {World : Type} {tool : CliTool World} {host : Host World}
    (ops : list Operation) (s : St.t World) : St.t World :=
  match ops with
  | [] => s
  | op :: rest => run_all rest (state_of (perform op s))
  end.

(** * Properties *)

(** ** The string primitives on examples *)

Example split_newline_example :
  Js.split_newline ("abc" ++ Js.nl ++ "def" ++ Js.nl) = ["abc"; "def"; EmptyString] /\
  Js.split_newline EmptyString = [EmptyString] /\
  Js.pop (Js.split_newline ("abc" ++ Js.nl ++ "de")) = (Some "de", ["abc"]).
Proof. repeat split; reflexivity. Qed.

Example show_int_example :
  Js.show_int 42 = "42" /\ Js.show_int (-7) = "-7" /\ Js.show_int 0 = "0".
Proof. repeat split; reflexivity. Qed.

Example substring_example :
  Js.substring (-2) "abcd" = "abcd" /\ Js.substring 1 "abcd" = "bcd" /\
  Js.slice (-2) "abcd" = "cd".
Proof. repeat split; reflexivity. Qed.

Example uniq_example : Js.uniq [3; 1; 3; 2; 1] = [3; 1; 2].
Proof. reflexivity. Qed.

Example trim_example :
  Js.trim "  a b  " = "a b" /\ Js.trim "   " = EmptyString /\
  Js.truthy (Js.trim (" " ++ Js.nl)) = false.
Proof. repeat split; reflexivity. Qed.

Example includes_example :
  Js.includes "spawn claude ENOENT" "ENOENT" = true /\
  Js.includes "forkpty(3) failed." "ENOENT" = false /\
  Js.toLowerCase "Claude" = "claude".
Proof. repeat split; reflexivity. Qed.

Example descendants_of_example :
  descendants_of 10
    (PsChildren [(11, PsChildren [(12, PsChildren []); (10, PsChildren [])]);
                 (12, PsFailed); (10, PsChildren [])])
  = [11; 12; 10].
Proof. reflexivity. Qed.

(** The scenario of a whole run in the demo world: the tool is available
    in version 1.2.3, panel [p1] starts, the process writes one line, exits
    with code 0, and the panel is no longer running. *)
Example end_to_end_example :
  let s0 := Demo.fresh Demo.healthy in
  let start := spawnCliProcess Demo.options s0 in
  let data := onData "p1" "s1" Handler.initial ("{}" ++ Js.nl) (state_of start) in
  let exit := onExit Demo.the_pty "p1" "s1" (Handler.mk true ("{}" ++ Js.nl) EmptyString)
                0 None (state_of data) in
  map fst (emitted (effects_of start ++ effects_of data ++ effects_of exit)) =
    [SpawnedEvent "p1" "s1";
     OutputEvent (CliOutputEvent.mk "p1" "s1" json (Json ("{}" ++ Js.nl)) 1040);
     ExitEvent "p1" "s1" (Some 0) None] /\
  isPanelRunning "p1" (state_of start) = true /\
  isPanelRunning "p1" (state_of exit) = false.
Proof. repeat split; vm_compute; reflexivity. Qed.

(** ** Strings *)

Lemma string_app_nil_l (s : string) : EmptyString ++ s = s.
Proof. reflexivity. Qed.

Lemma string_app_cons (c : ascii) (s1 s2 : string) :
  String c s1 ++ s2 = String c (s1 ++ s2).
Proof. reflexivity. Qed.

Lemma string_app_nil_r (s : string) : s ++ EmptyString = s.
Proof.
  induction s as [|c s IH]; [reflexivity|].
  rewrite string_app_cons, IH. reflexivity.
Qed.

Lemma string_app_assoc (s1 s2 s3 : string) : (s1 ++ s2) ++ s3 = s1 ++ (s2 ++ s3).
Proof.
  induction s1 as [|c s1 IH]; [reflexivity|].
  rewrite !string_app_cons, IH. reflexivity.
Qed.

Lemma string_length_app (s1 s2 : string) :
  String.length (s1 ++ s2) = (String.length s1 + String.length s2)%nat.
Proof.
  induction s1 as [|c s1 IH]; [reflexivity|].
  rewrite string_app_cons. simpl. rewrite IH. reflexivity.
Qed.

Lemma prefix_app (needle rest : string) : String.prefix needle (needle ++ rest) = true.
Proof.
  induction needle as [|c needle IH].
  - destruct rest; reflexivity.
  - rewrite string_app_cons. simpl. destruct (ascii_dec c c); [exact IH | congruence].
Qed.

(** A text includes each of the pieces it is concatenated from. *)
Lemma includes_app (before needle rest : string) :
  Js.includes (before ++ needle ++ rest) needle = true.
Proof.
  induction before as [|c before IH].
  - rewrite string_app_nil_l.
    destruct needle as [|d needle].
    + destruct rest; reflexivity.
    + rewrite string_app_cons. cbn [Js.includes]. rewrite <- string_app_cons, prefix_app. reflexivity.
  - rewrite string_app_cons. cbn [Js.includes]. rewrite IH.
    destruct (String.prefix needle (String c (before ++ needle ++ rest))); reflexivity.
Qed.

(** *** Splitting at line feeds *)

Lemma pop_snoc {A} (l : list A) (x : A) : Js.pop (l ++ [x])%list = (Some x, l).
Proof. unfold Js.pop. rewrite rev_app_distr. simpl. rewrite rev_involutive. reflexivity. Qed.

Lemma cut_split (s : string) :
  Js.split_newline s = (fst (Js.cut s) ++ [snd (Js.cut s)])%list.
Proof.
  induction s as [|c s IH]; [reflexivity|].
  simpl. destruct (Js.cut s) as [lines last]. simpl in IH. rewrite IH.
  destruct (Ascii.eqb c Js.newline); [reflexivity|].
  destruct lines; reflexivity.
Qed.

(** What [split] and [pop] leave: the complete lines and the new buffer. *)
Lemma pop_split_newline (s : string) :
  Js.pop (Js.split_newline s) = (Some (snd (Js.cut s)), fst (Js.cut s)).
Proof. rewrite cut_split. apply pop_snoc. Qed.

(** Cutting a text that arrives in two pieces: the lines of the first
    piece, then the lines of its rest followed by the second piece. *)
Lemma cut_app (a b : string) :
  Js.cut (a ++ b) =
  ((fst (Js.cut a) ++ fst (Js.cut (snd (Js.cut a) ++ b)))%list,
   snd (Js.cut (snd (Js.cut a) ++ b))).
Proof.
  induction a as [|c a IH].
  - simpl. rewrite string_app_nil_l. destruct (Js.cut b); reflexivity.
  - rewrite string_app_cons. simpl. rewrite IH.
    destruct (Js.cut a) as [la ra]. simpl.
    destruct (Ascii.eqb c Js.newline) eqn:Hc.
    + simpl. reflexivity.
    + destruct la as [|l la]; simpl.
      * destruct (Js.cut (ra ++ b)) as [lb rb]. rewrite Hc. simpl.
        destruct lb; reflexivity.
      * reflexivity.
Qed.

(** The rest of a cut holds no complete line. *)
Lemma cut_rest_no_line (s : string) : Js.cut (snd (Js.cut s)) = ([], snd (Js.cut s)).
Proof.
  induction s as [|c s IH]; [reflexivity|].
  simpl. destruct (Js.cut s) as [lines last]. simpl in IH.
  destruct (Ascii.eqb c Js.newline) eqn:Hc; [exact IH|].
  destruct lines; simpl; [|exact IH].
  rewrite IH, Hc. reflexivity.
Qed.

(** ** The monad of operations *)

Section MonadFacts.

Context {W : Type}.

Lemma bind_assoc {A B C} (m : M W A) (k : A -> M W B) (h : B -> M W C) s :
  bind (bind m k) h s = bind m (fun a => bind (k a) h) s.
Proof.
  unfold bind. destruct (m s) as [[[a|e] s1] t1]; [|reflexivity].
  destruct (k a s1) as [[[b|e] s2] t2]; [|reflexivity].
  destruct (h b s2) as [[r s3] t3]. rewrite app_assoc. reflexivity.
Qed.

Lemma bind_ext {A B} (m : M W A) (k1 k2 : A -> M W B) s :
  (forall a s1, k1 a s1 = k2 a s1) -> bind m k1 s = bind m k2 s.
Proof.
  intros H. unfold bind. destruct (m s) as [[[a|e] s1] t1]; [|reflexivity].
  rewrite H. reflexivity.
Qed.

Lemma bind_get {A} (k : St.t W -> M W A) s : bind get k s = k s s.
Proof. unfold bind, get. destruct (k s s) as [[r s'] t]. reflexivity. Qed.

Lemma bind_ret_l {A B} (a : A) (k : A -> M W B) s : bind (ret a) k s = k a s.
Proof. unfold bind, ret. destruct (k a s) as [[r s'] t]. reflexivity. Qed.

Lemma bind_ok {A B} (m : M W A) (k : A -> M W B) s a s1 t1 :
  m s = (Ok a, s1, t1) ->
  bind m k s = (result_of (k a s1), state_of (k a s1), (t1 ++ effects_of (k a s1))%list).
Proof. intros H. unfold bind. rewrite H. destruct (k a s1) as [[r s2] t2]. reflexivity. Qed.

Lemma bind_thrown {A B} (m : M W A) (k : A -> M W B) s e s1 t1 :
  m s = (Thrown e, s1, t1) -> bind m k s = (Thrown e, s1, t1).
Proof. intros H. unfold bind. rewrite H. reflexivity. Qed.

Lemma try_catch_ok {A} (m : M W A) (h : string -> M W A) s a s1 t1 :
  m s = (Ok a, s1, t1) -> try_catch m h s = (Ok a, s1, t1).
Proof. intros H. unfold try_catch. rewrite H. reflexivity. Qed.

Lemma try_catch_thrown {A} (m : M W A) (h : string -> M W A) s e s1 t1 :
  m s = (Thrown e, s1, t1) ->
  try_catch m h s = (result_of (h e s1), state_of (h e s1), (t1 ++ effects_of (h e s1))%list).
Proof. intros H. unfold try_catch. rewrite H. destruct (h e s1) as [[r s2] t2]. reflexivity. Qed.

Lemma outcome_eta {A} (o : Res A * St.t W * list Effect) :
  o = (result_of o, state_of o, effects_of o).
Proof. destruct o as [[r s] t]. reflexivity. Qed.

Lemma for_each_app {A} (l1 l2 : list A) (f : A -> M W unit) s :
  for_each (l1 ++ l2) f s = bind (for_each l1 f) (fun _ => for_each l2 f) s.
Proof.
  revert s. induction l1 as [|x l1 IH]; intros s.
  - simpl. unfold bind, ret. destruct (for_each l2 f s) as [[r s'] t]. reflexivity.
  - simpl. rewrite bind_assoc. apply bind_ext. intros _ s1. apply IH.
Qed.

(** *** Operations that never throw *)

Lemma never_throws_ret {A} (a : A) : never_throws (W := W) (ret a).
Proof. intros s. eexists _, _, _. reflexivity. Qed.

Lemma never_throws_bind {A B} (m : M W A) (k : A -> M W B) :
  never_throws m -> (forall a, never_throws (k a)) -> never_throws (bind m k).
Proof.
  intros Hm Hk s. destruct (Hm s) as (a & s1 & t1 & H1).
  destruct (Hk a s1) as (b & s2 & t2 & H2).
  exists b, s2, (t1 ++ t2)%list. unfold bind. rewrite H1, H2. reflexivity.
Qed.

Lemma never_throws_try_catch {A} (m : M W A) (h : string -> M W A) :
  (forall e, never_throws (h e)) -> never_throws (try_catch m h).
Proof.
  intros Hh s. unfold try_catch. destruct (m s) as [[[a|e] s1] t1].
  - eexists _, _, _. reflexivity.
  - destruct (Hh e s1) as (b & s2 & t2 & H2). rewrite H2. eexists _, _, _. reflexivity.
Qed.

Lemma never_throws_get : never_throws (W := W) get.
Proof. intros s. eexists _, _, _. reflexivity. Qed.

Lemma never_throws_tell e : never_throws (W := W) (tell e).
Proof. intros s. eexists _, _, _. reflexivity. Qed.

Lemma never_throws_emit e : never_throws (W := W) (emit e).
Proof. intros s. eexists _, _, _. reflexivity. Qed.

Lemma never_throws_call {A} (f : W -> A * W) : never_throws (call f).
Proof. intros s. unfold call. destruct (f (St.world s)). eexists _, _, _. reflexivity. Qed.

Lemma never_throws_set_processes f : never_throws (W := W) (set_processes f).
Proof. intros s. eexists _, _, _. reflexivity. Qed.

Lemma never_throws_for_each {A} (l : list A) (f : A -> M W unit) :
  (forall x, never_throws (f x)) -> never_throws (for_each l f).
Proof.
  intros Hf. induction l as [|x l IH]; simpl.
  - apply never_throws_ret.
  - apply never_throws_bind; [apply Hf | intros _; exact IH].
Qed.

Lemma never_throws_if {A} (b : bool) (m1 m2 : M W A) :
  never_throws m1 -> never_throws m2 -> never_throws (if b then m1 else m2).
Proof. destruct b; auto. Qed.

End MonadFacts.

Create HintDb total discriminated.

#[export] Hint Resolve never_throws_ret never_throws_bind never_throws_try_catch
  never_throws_get never_throws_tell never_throws_emit never_throws_call
  never_throws_set_processes never_throws_for_each never_throws_if : total.

(** ** The output pipeline *)

Section Pipeline.

Context {World : Type} {tool : CliTool World} {host : Host World}.

Lemma never_throws_parse_and_emit data panelId sessionId :
  never_throws (parse_and_emit data panelId sessionId).
Proof. unfold parse_and_emit, parse. auto 10 with total. Qed.

Lemma never_throws_process_lines lines panelId sessionId :
  never_throws (process_lines lines panelId sessionId).
Proof.
  unfold process_lines. apply never_throws_for_each. intros line.
  apply never_throws_if; [apply never_throws_parse_and_emit | apply never_throws_ret].
Qed.

Lemma process_lines_run lines panelId sessionId (s : St.t World) :
  process_lines lines panelId sessionId s =
  (Ok tt, state_of (process_lines lines panelId sessionId s),
   effects_of (process_lines lines panelId sessionId s)).
Proof.
  destruct (never_throws_process_lines lines panelId sessionId s) as ([] & s' & t & H).
  rewrite H. reflexivity.
Qed.

Lemma process_lines_app l1 l2 panelId sessionId (s : St.t World) :
  let first := process_lines l1 panelId sessionId s in
  let second := process_lines l2 panelId sessionId (state_of first) in
  process_lines (l1 ++ l2) panelId sessionId s =
  (Ok tt, state_of second, (effects_of first ++ effects_of second)%list).
Proof.
  intros first second. unfold process_lines at 1. rewrite for_each_app.
  fold (process_lines l1 panelId sessionId) (process_lines l2 panelId sessionId).
  rewrite (bind_ok _ _ _ _ _ _ (process_lines_run l1 panelId sessionId s)).
  fold first. fold second. subst second.
  rewrite (process_lines_run l2 panelId sessionId (state_of first)) at 1. reflexivity.
Qed.

(** One chunk: the complete lines of buffer and chunk go through the
    parser, and the unterminated rest is the new buffer. *)
Lemma onData_run panelId sessionId h data (s : St.t World) :
  let text := Handler.buffer h ++ data in
  let lines := process_lines (fst (Js.cut text)) panelId sessionId s in
  onData panelId sessionId h data s =
  (Ok (Handler.mk true (Handler.lastOutput h ++ data) (snd (Js.cut text))),
   state_of lines, effects_of lines).
Proof.
  intros text lines. unfold onData. fold text. rewrite pop_split_newline.
  rewrite (bind_ok _ _ _ _ _ _ (process_lines_run _ panelId sessionId s)).
  fold lines. simpl. rewrite app_nil_r. reflexivity.
Qed.

(** Any number of chunks, from a buffer that holds no complete line. *)
Lemma feed_run panelId sessionId chunks : forall h (s : St.t World),
  Js.cut (Handler.buffer h) = ([], Handler.buffer h) ->
  let text := Handler.buffer h ++ Js.join EmptyString chunks in
  let lines := process_lines (fst (Js.cut text)) panelId sessionId s in
  exists h',
    feed panelId sessionId h chunks s = (Ok h', state_of lines, effects_of lines) /\
    Handler.buffer h' = snd (Js.cut text) /\
    Handler.lastOutput h' = Handler.lastOutput h ++ Js.join EmptyString chunks.
Proof.
  induction chunks as [|data rest IH]; intros h s Hbuf text lines.
  - exists h. subst lines text. simpl. rewrite !string_app_nil_r, Hbuf. simpl.
    repeat split; reflexivity.
  - set (h1 := Handler.mk true (Handler.lastOutput h ++ data)
                 (snd (Js.cut (Handler.buffer h ++ data)))).
    set (first := process_lines (fst (Js.cut (Handler.buffer h ++ data))) panelId sessionId s).
    destruct (IH h1 (state_of first) (cut_rest_no_line _)) as (h' & Hfeed & Hb & Hl).
    assert (Hjoin : Js.join EmptyString (data :: rest) = data ++ Js.join EmptyString rest).
    { unfold Js.join. simpl. destruct rest; [rewrite string_app_nil_r|]; reflexivity. }
    exists h'. subst lines text. rewrite Hjoin, <- !string_app_assoc.
    rewrite (cut_app (Handler.buffer h ++ data)). simpl fst. simpl snd.
    rewrite process_lines_app. fold first.
    split; [|split].
    + cbn [feed]. rewrite (bind_ok _ _ _ _ _ _ (onData_run panelId sessionId h data s)).
      fold first h1. rewrite Hfeed. reflexivity.
    + exact Hb.
    + rewrite Hl. reflexivity.
Qed.

(** The lines handed to the parser: every complete non-blank line, with
    its line feed put back. *)
Lemma parser_calls_app t1 t2 : parser_calls (t1 ++ t2) = (parser_calls t1 ++ parser_calls t2)%list.
Proof. unfold parser_calls. apply flat_map_app. Qed.

Lemma parser_calls_emits (events : list CliOutputEvent.t) (s : St.t World) :
  parser_calls (effects_of (for_each events (fun event => emit (OutputEvent event)) s)) = [].
Proof.
  revert s. induction events as [|e events IH]; intros s; [reflexivity|].
  simpl. unfold bind. simpl. specialize (IH s).
  destruct (for_each events _ s) as [[r s'] t]. simpl in *. exact IH.
Qed.

Lemma parser_calls_parse_and_emit data panelId sessionId (s : St.t World) :
  parser_calls (effects_of (parse_and_emit data panelId sessionId s)) = [data].
Proof.
  unfold parse_and_emit, parse, bind, tell, call. simpl.
  destruct (parseCliOutput data panelId sessionId (St.world s)) as [events w]. simpl.
  match goal with |- context [for_each events ?f ?s'] =>
    pose proof (parser_calls_emits events s') as H;
    destruct (for_each events f s') as [[r s''] t] end.
  simpl in *. rewrite H. reflexivity.
Qed.

Lemma parser_calls_process_lines lines panelId sessionId : forall s : St.t World,
  parser_calls (effects_of (process_lines lines panelId sessionId s)) =
  map (fun line => line ++ Js.nl) (List.filter (fun line => Js.truthy (Js.trim line)) lines).
Proof.
  induction lines as [|line lines IH]; intros s; [reflexivity|].
  change (line :: lines) with ([line] ++ lines)%list.
  rewrite process_lines_app. simpl effects_of. rewrite parser_calls_app, IH.
  simpl List.filter. unfold process_lines at 1. simpl for_each.
  destruct (Js.truthy (Js.trim line)); simpl.
  - unfold bind at 1.
    pose proof (parser_calls_parse_and_emit (line ++ Js.nl) panelId sessionId s) as H.
    destruct (parse_and_emit (line ++ Js.nl) panelId sessionId s) as [[[[]|e] s'] t];
      simpl in *; [rewrite app_nil_r|]; rewrite H; reflexivity.
  - reflexivity.
Qed.

End Pipeline.

(** C4. Chunk-boundary independence: feeding the chunks of a text in order
    to the data listener performs the same parser calls and emits the same
    output events, and leaves the same manager state, buffer and accumulated
    output, as feeding the whole text as one chunk.  In particular the text
    ["abc\ndef\n"] yields the parser calls ["abc\n"] and ["def\n"] whether it
    arrives whole or as ["ab"], ["c\nde"], ["f\n"]. *)
Theorem C4_chunk_boundary_independence
    {World : Type} {tool : CliTool World} {host : Host World}
    (panelId sessionId : string) (chunks : list string) (s : St.t World) :
  let chunked := feed panelId sessionId Handler.initial chunks s in
  let whole := onData panelId sessionId Handler.initial (Js.join EmptyString chunks) s in
  effects_of chunked = effects_of whole /\
  state_of chunked = state_of whole /\
  (exists h1 h2,
     result_of chunked = Ok h1 /\ result_of whole = Ok h2 /\
     Handler.buffer h1 = Handler.buffer h2 /\
     Handler.lastOutput h1 = Handler.lastOutput h2) /\
  parser_calls (effects_of (feed panelId sessionId Handler.initial
                              ["ab"; "c" ++ Js.nl ++ "de"; "f" ++ Js.nl] s))
    = ["abc" ++ Js.nl; "def" ++ Js.nl] /\
  parser_calls (effects_of (onData panelId sessionId Handler.initial
                              ("abc" ++ Js.nl ++ "def" ++ Js.nl) s))
    = ["abc" ++ Js.nl; "def" ++ Js.nl].
Proof.
  intros chunked whole.
  assert (Hinit : Js.cut (Handler.buffer Handler.initial) = ([], Handler.buffer Handler.initial))
    by reflexivity.
  destruct (feed_run panelId sessionId chunks Handler.initial s Hinit)
    as (h1 & Hfeed & Hb & Hl).
  pose proof (onData_run panelId sessionId Handler.initial (Js.join EmptyString chunks) s)
    as Hwhole.
  cbv zeta in Hfeed, Hwhole. subst chunked whole. rewrite Hfeed, Hwhole.
  repeat split.
  - eexists _, _. repeat split; [exact Hb | exact Hl].
  - destruct (feed_run panelId sessionId ["ab"; "c" ++ Js.nl ++ "de"; "f" ++ Js.nl]
                Handler.initial s Hinit) as (h & Hf & _ & _).
    cbv zeta in Hf. rewrite Hf. simpl effects_of.
    rewrite parser_calls_process_lines. reflexivity.
  - rewrite onData_run. simpl effects_of.
    rewrite parser_calls_process_lines. reflexivity.
Qed.

(** ** The availability cache *)

Section Availability.

Context {World : Type} {tool : CliTool World} {host : Host World}.

(** A probe that finds a fresh entry returns it and does nothing else. *)
Lemma getCachedAvailability_hit (s : St.t World) c :
  St.availabilityCache s = Some c ->
  Date_now (St.world s) - AvailabilityCache.timestamp c < CACHE_TTL ->
  getCachedAvailability s = (Ok (AvailabilityCache.result c), s, []).
Proof.
  intros Hc Hfresh. unfold getCachedAvailability, bind, get, cache_is_fresh. rewrite Hc.
  destruct (Z.ltb_spec (Date_now (St.world s) - AvailabilityCache.timestamp c) CACHE_TTL);
    [reflexivity | lia].
Qed.

(** A probe that finds no fresh entry runs the check on the configured
    path and caches what it returns, with the time after the check. *)
Lemma getCachedAvailability_miss (s : St.t World) :
  cache_is_fresh s = None ->
  let customPath := claudeExecutablePath (St.world s) in
  let checked := testCliAvailability customPath (St.world s) in
  getCachedAvailability s =
  (Ok (fst checked),
   St.mk (St.processes s)
         (Some (AvailabilityCache.mk (fst checked) (Date_now (snd checked))))
         (St.globals s) (snd checked),
   [ProbeCall customPath]).
Proof.
  intros Hmiss customPath checked.
  unfold getCachedAvailability, bind, get. rewrite Hmiss.
  unfold tell, call, now, set_availabilityCache, ret. simpl.
  fold customPath. fold checked. destruct checked as [availability w]. reflexivity.
Qed.

Lemma cache_is_fresh_none (s : St.t World) :
  St.availabilityCache s = None \/
  (exists c, St.availabilityCache s = Some c /\
             CACHE_TTL <= Date_now (St.world s) - AvailabilityCache.timestamp c) ->
  cache_is_fresh s = None.
Proof.
  unfold cache_is_fresh. intros [-> | (c & -> & Hexpired)]; [reflexivity|].
  destruct (Z.ltb_spec (Date_now (St.world s) - AvailabilityCache.timestamp c) CACHE_TTL);
    [lia | reflexivity].
Qed.

End Availability.

(** C7. A probe within the TTL of the cached entry returns the cached
    result without running the check; a first probe followed by a second
    one within the TTL returns the same result twice and runs the check at
    most once (exactly once from an empty cache); a probe on an expired
    entry, on an empty cache, or after [clearAvailabilityCache], runs the
    check on the configured custom executable path and caches its result
    with the time of its arrival.  The TTL is five minutes. *)
Theorem C7_availability_cache
    {World : Type} {tool : CliTool World} {host : Host World} (s : St.t World) :
  CACHE_TTL = 300000 /\
  (forall c,
     St.availabilityCache s = Some c ->
     Date_now (St.world s) - AvailabilityCache.timestamp c < CACHE_TTL ->
     getCachedAvailability s = (Ok (AvailabilityCache.result c), s, [])) /\
  (forall later : World,
     let first := getCachedAvailability s in
     let second := getCachedAvailability (with_world (state_of first) later) in
     (forall c, St.availabilityCache (state_of first) = Some c ->
                Date_now later - AvailabilityCache.timestamp c < CACHE_TTL) ->
     result_of second = result_of first /\
     effects_of second = [] /\
     (length (probe_calls (effects_of first ++ effects_of second)) <= 1)%nat /\
     (St.availabilityCache s = None ->
      length (probe_calls (effects_of first ++ effects_of second)) = 1%nat)) /\
  (St.availabilityCache s = None \/
   (exists c, St.availabilityCache s = Some c /\
              CACHE_TTL <= Date_now (St.world s) - AvailabilityCache.timestamp c) ->
   let customPath := claudeExecutablePath (St.world s) in
   let checked := testCliAvailability customPath (St.world s) in
   getCachedAvailability s =
   (Ok (fst checked),
    St.mk (St.processes s)
          (Some (AvailabilityCache.mk (fst checked) (Date_now (snd checked))))
          (St.globals s) (snd checked),
    [ProbeCall customPath])) /\
  (let cleared := state_of (clearAvailabilityCache s) in
   St.availabilityCache cleared = None /\
   probe_calls (effects_of (getCachedAvailability cleared))
     = [claudeExecutablePath (St.world s)]).
Proof.
  split; [reflexivity|]. split; [apply getCachedAvailability_hit|].
  split; [|split].
  - intros later first second Hwithin.
    assert (Hfirst : exists c, St.availabilityCache (state_of first) = Some c /\
                               result_of first = Ok (AvailabilityCache.result c) /\
                               (length (probe_calls (effects_of first)) <= 1)%nat /\
                               (St.availabilityCache s = None ->
                                length (probe_calls (effects_of first)) = 1%nat)).
    { subst first. destruct (cache_is_fresh s) as [r|] eqn:Hfresh.
      - unfold cache_is_fresh in Hfresh.
        destruct (St.availabilityCache s) as [c|] eqn:Hc; [|discriminate].
        destruct (Z.ltb_spec (Date_now (St.world s) - AvailabilityCache.timestamp c) CACHE_TTL)
          as [Hlt|]; [|discriminate].
        injection Hfresh as <-.
        rewrite (getCachedAvailability_hit s c Hc Hlt). exists c. simpl.
        repeat split; [exact Hc | lia | discriminate].
      - rewrite (getCachedAvailability_miss s Hfresh). eexists. simpl.
        repeat split; lia. }
    destruct Hfirst as (c & Hc & Hr & Hle & Hone).
    assert (Hsecond : second = (Ok (AvailabilityCache.result c),
                                with_world (state_of first) later, [])).
    { subst second. apply getCachedAvailability_hit; [exact Hc|].
      simpl. apply Hwithin. exact Hc. }
    rewrite Hsecond, Hr. simpl. rewrite app_nil_r. auto.
  - intros Hstale. apply getCachedAvailability_miss, cache_is_fresh_none, Hstale.
  - simpl. split; [reflexivity|].
    rewrite getCachedAvailability_miss by reflexivity. reflexivity.
Qed.

(** The cache at work in the demo world: the first probe runs the check at
    time 1000 and caches its result at 1040; a probe at 200000 is served
    from the cache. *)
Lemma C7_availability_cache_witness :
  let s := Demo.fresh Demo.healthy in
  let first := getCachedAvailability s in
  let later := Demo.advance 198960 (St.world (state_of first)) in
  let second := getCachedAvailability (with_world (state_of first) later) in
  (forall c, St.availabilityCache (state_of first) = Some c ->
             Date_now later - AvailabilityCache.timestamp c < CACHE_TTL) /\
  result_of second = result_of first /\
  effects_of second = [] /\
  probe_calls (effects_of first ++ effects_of second) = [None].
Proof.
  intros s first later second.
  assert (Hwithin : forall c, St.availabilityCache (state_of first) = Some c ->
                              Date_now later - AvailabilityCache.timestamp c < CACHE_TTL).
  { intros c Hc. vm_compute in Hc. injection Hc as <-. vm_compute. reflexivity. }
  destruct (C7_availability_cache s) as (_ & _ & Htwice & _).
  destruct (Htwice later Hwithin) as (Hsame & Hquiet & _ & _).
  split; [exact Hwithin|]. split; [exact Hsame|]. split; [exact Hquiet|].
  vm_compute. reflexivity.
Defined.

(** ** Operations that only move the world *)

Section Frame.

Context {W : Type}.

Lemma only_moves_world_ret {A} (a : A) : only_moves_world (W := W) (ret a).
Proof. intros s. repeat split. Qed.

Lemma only_moves_world_throw {A} e : only_moves_world (W := W) (A := A) (throw e).
Proof. intros s. repeat split. Qed.

Lemma only_moves_world_get : only_moves_world (W := W) get.
Proof. intros s. repeat split. Qed.

Lemma only_moves_world_tell e : only_moves_world (W := W) (tell e).
Proof. intros s. repeat split. Qed.

Lemma only_moves_world_emit e : only_moves_world (W := W) (emit e).
Proof. intros s. repeat split. Qed.

Lemma only_moves_world_call {A} (f : W -> A * W) : only_moves_world (call f).
Proof. intros s. unfold call. destruct (f (St.world s)). repeat split. Qed.

Lemma only_moves_world_call_res {A} (f : W -> Res A * W) : only_moves_world (call_res f).
Proof. intros s. unfold call_res. destruct (f (St.world s)). repeat split. Qed.

Lemma only_moves_world_bind {A B} (m : M W A) (k : A -> M W B) :
  only_moves_world m -> (forall a, only_moves_world (k a)) -> only_moves_world (bind m k).
Proof.
  intros Hm Hk s. specialize (Hm s). unfold bind.
  destruct (m s) as [[[a|e] s1] t1]; simpl in Hm; [|exact Hm].
  specialize (Hk a s1). destruct (k a s1) as [[r s2] t2].
  unfold state_of in *. simpl in *.
  destruct Hm as (Hp & Hc & Hg), Hk as (Hp' & Hc' & Hg'). repeat split; congruence.
Qed.

Lemma only_moves_world_try_catch {A} (m : M W A) (h : string -> M W A) :
  only_moves_world m -> (forall e, only_moves_world (h e)) -> only_moves_world (try_catch m h).
Proof.
  intros Hm Hh s. specialize (Hm s). unfold try_catch.
  destruct (m s) as [[[a|e] s1] t1]; simpl in Hm; [exact Hm|].
  specialize (Hh e s1). destruct (h e s1) as [[r s2] t2].
  unfold state_of in *. simpl in *.
  destruct Hm as (Hp & Hc & Hg), Hh as (Hp' & Hc' & Hg'). repeat split; congruence.
Qed.

Lemma only_moves_world_for_each {A} (l : list A) (f : A -> M W unit) :
  (forall x, only_moves_world (f x)) -> only_moves_world (for_each l f).
Proof.
  intros Hf. induction l as [|x l IH]; simpl.
  - apply only_moves_world_ret.
  - apply only_moves_world_bind; [apply Hf | intros _; exact IH].
Qed.

Lemma only_moves_world_if {A} (b : bool) (m1 m2 : M W A) :
  only_moves_world m1 -> only_moves_world m2 -> only_moves_world (if b then m1 else m2).
Proof. destruct b; auto. Qed.

End Frame.

Create HintDb frame discriminated.

#[export] Hint Resolve only_moves_world_ret only_moves_world_throw only_moves_world_get
  only_moves_world_tell only_moves_world_emit only_moves_world_call
  only_moves_world_call_res only_moves_world_bind only_moves_world_try_catch
  only_moves_world_for_each only_moves_world_if : frame.

(** ** Spawning *)

Section Spawn.

Context {World : Type} {tool : CliTool World} {host : Host World}.

Lemma only_moves_world_sleep ms : only_moves_world (sleep (host := host) ms).
Proof. unfold sleep. auto with frame. Qed.

Lemma only_moves_world_now : only_moves_world (now (host := host)).
Proof. intros s. repeat split. Qed.

Lemma only_moves_world_emit_output panelId sessionId type data :
  only_moves_world (emit_output (host := host) panelId sessionId type data).
Proof. unfold emit_output. pose proof only_moves_world_now. auto with frame. Qed.

Lemma only_moves_world_spawn_delay : only_moves_world (spawn_delay (host := host)).
Proof.
  unfold spawn_delay. apply only_moves_world_bind; [auto with frame|]. intros s.
  pose proof (only_moves_world_sleep 500).
  destruct os_platform; auto with frame.
Qed.

Lemma only_moves_world_locate command args :
  only_moves_world (locate_node_invocation (host := host) command args).
Proof. unfold locate_node_invocation. auto 10 with frame. Qed.

Lemma only_moves_world_spawn_via_pty mode file args cwd env :
  only_moves_world (spawn_via_pty (host := host) mode file args cwd env).
Proof. unfold spawn_via_pty. auto with frame. Qed.

Lemma only_moves_world_spawn_attempt n command args cwd env :
  only_moves_world (spawn_attempt n command args cwd env).
Proof.
  unfold spawn_attempt.
  pose proof only_moves_world_spawn_delay.
  pose proof (only_moves_world_locate command args).
  pose proof only_moves_world_spawn_via_pty.
  auto 10 with frame.
Qed.

End Spawn.

Section SpawnLoop.

Context {World : Type} {tool : CliTool World} {host : Host World}.

Lemma spawn_calls_app t1 t2 : spawn_calls (t1 ++ t2) = (spawn_calls t1 ++ spawn_calls t2)%list.
Proof. unfold spawn_calls. apply flat_map_app. Qed.

Lemma direct_spawn_calls_app t1 t2 :
  direct_spawn_calls (t1 ++ t2) = (direct_spawn_calls t1 ++ direct_spawn_calls t2)%list.
Proof. unfold direct_spawn_calls. apply flat_map_app. Qed.

Lemma needsNodeFallback_globals (s1 s2 : St.t World) :
  St.globals s1 = St.globals s2 -> needsNodeFallback s1 = needsNodeFallback s2.
Proof. unfold needsNodeFallback. intros ->. reflexivity. Qed.

(** The delay never throws and spawns nothing. *)
Lemma spawn_delay_run (s : St.t World) :
  exists s' t, spawn_delay s = (Ok tt, s', t) /\ spawn_calls t = [] /\
               St.globals s' = St.globals s.
Proof.
  pose proof (only_moves_world_spawn_delay s) as (_ & _ & Hg).
  unfold spawn_delay, bind, get, sleep, call, tell, ret in *.
  destruct os_platform; simpl in *; try (eexists _, _; repeat split; fail).
  destruct (0 <? Z.of_nat (size (St.processes s))); simpl in *;
    eexists _, _; repeat split.
Qed.

(** Locating the interpreter spawns nothing. *)
Lemma locate_spawns_nothing command args (s : St.t World) :
  spawn_calls (effects_of (locate_node_invocation command args s)) = [].
Proof.
  unfold locate_node_invocation, bind, try_catch, call_res, ret. simpl.
  destruct (findCliNodeScript command (St.world s)) as [[found|e] w]; simpl;
    destruct (findNodeExecutable w) as [[nodePath|e'] w']; reflexivity.
Qed.

Lemma spawn_via_pty_run mode file args cwd env (s : St.t World) :
  spawn_via_pty mode file args cwd env s =
  (fst (pty_spawn file args cwd env (St.world s)),
   with_world s (snd (pty_spawn file args cwd env (St.world s))),
   [PtySpawnCall mode file args cwd]).
Proof.
  unfold spawn_via_pty, bind, tell, call_res. simpl.
  destruct (pty_spawn file args cwd env (St.world s)) as [r w]. reflexivity.
Qed.

(** One iteration's [try] block, by the branch it takes. *)
Lemma spawn_attempt_run n command args cwd env (s : St.t World) :
  let delayed := state_of (spawn_delay s) in
  let delay := effects_of (spawn_delay s) in
  spawn_attempt n command args cwd env s =
  if (n =? 0) && negb (needsNodeFallback s) then
    let direct := spawn_via_pty Direct command args cwd env delayed in
    (result_of direct, state_of direct, (delay ++ effects_of direct)%list)
  else
    let located := locate_node_invocation command args delayed in
    match result_of located with
    | Ok invocation =>
        let viaNode := spawn_via_pty ViaNode (fst invocation) (snd invocation) cwd env
                         (state_of located) in
        (result_of viaNode, state_of viaNode,
         (delay ++ effects_of located ++ effects_of viaNode)%list)
    | Thrown e => (Thrown e, state_of located, (delay ++ effects_of located)%list)
    end.
Proof.
  intros delayed delay. subst delayed delay.
  destruct (spawn_delay_run s) as (s1 & t1 & Hd & _ & Hg).
  unfold spawn_attempt. rewrite (bind_ok _ _ _ _ _ _ Hd), Hd, bind_get.
  rewrite (needsNodeFallback_globals s1 s Hg).
  change (state_of (Ok tt, s1, t1)) with s1. change (effects_of (Ok tt, s1, t1)) with t1.
  destruct ((n =? 0) && negb (needsNodeFallback s)); [reflexivity|].
  destruct (locate_node_invocation command args s1) as [[[invocation|e] s2] t2] eqn:Hl.
  - rewrite (bind_ok _ _ _ _ _ _ Hl). cbn [result_of state_of effects_of fst snd].
    reflexivity.
  - rewrite (bind_thrown _ _ _ _ _ _ Hl). reflexivity.
Qed.

Lemma needsNodeFallback_flagged (s : St.t World) : needsNodeFallback (flagged s) = true.
Proof. unfold needsNodeFallback, flagged. simpl. rewrite lookup_insert_eq. reflexivity. Qed.

Lemma needsNodeFallback_after_attempt n command args cwd env (s : St.t World) :
  needsNodeFallback (state_of (spawn_attempt n command args cwd env s)) = needsNodeFallback s.
Proof.
  apply needsNodeFallback_globals.
  apply (only_moves_world_spawn_attempt n command args cwd env s).
Qed.

Lemma spawn_loop_unfold fuel n lastError command args cwd env :
  spawn_loop (S fuel) n lastError command args cwd env =
  if n <? 2 then
    try_catch
      (bind (spawn_attempt n command args cwd env) (fun ptyProcess => ret (inl ptyProcess)))
      (fun errorMsg =>
         bind get (fun s : St.t World =>
           if (n + 1 =? 1) && negb (needsNodeFallback s) then
             if shebang_shaped errorMsg then
               bind (set_global needsNodeFallbackKey true)
                    (fun _ => spawn_loop fuel (n + 1) (Some errorMsg) command args cwd env)
             else ret (inr (Some errorMsg))
           else ret (inr (Some errorMsg))))
  else ret (inr lastError).
Proof. reflexivity. Qed.

(** The second iteration: one more attempt, and no third. *)
Lemma spawn_loop_second fuel lastError command args cwd env (s : St.t World) :
  let retry := spawn_attempt 1 command args cwd env s in
  spawn_loop (S fuel) 1 lastError command args cwd env s =
  (match result_of retry with
   | Ok ptyProcess => Ok (inl ptyProcess)
   | Thrown errorMsg => Ok (inr (Some errorMsg))
   end, state_of retry, effects_of retry).
Proof.
  intros retry. rewrite spawn_loop_unfold. change (1 <? 2) with true. cbv iota.
  subst retry. destruct (spawn_attempt 1 command args cwd env s) as [[[p|e] s1] t1] eqn:Ha.
  - rewrite (try_catch_ok _ _ _ (inl p) s1 t1); [reflexivity|].
    rewrite (bind_ok _ _ _ _ _ _ Ha). simpl. rewrite app_nil_r. reflexivity.
  - erewrite try_catch_thrown by (apply bind_thrown; exact Ha).
    rewrite bind_get. simpl. rewrite app_nil_r. reflexivity.
Qed.

(** The whole loop: the first attempt, and the retry when the first one
    failed with a shebang-shaped error while the flag was not set. *)
Lemma spawn_loop_run fuel command args cwd env (s : St.t World) :
  let first := spawn_attempt 0 command args cwd env s in
  let retry := spawn_attempt 1 command args cwd env (flagged (state_of first)) in
  spawn_loop (S (S fuel)) 0 None command args cwd env s =
  match result_of first with
  | Ok ptyProcess => (Ok (inl ptyProcess), state_of first, effects_of first)
  | Thrown errorMsg =>
      if negb (needsNodeFallback s) && shebang_shaped errorMsg then
        (match result_of retry with
         | Ok ptyProcess => Ok (inl ptyProcess)
         | Thrown errorMsg' => Ok (inr (Some errorMsg'))
         end, state_of retry, (effects_of first ++ effects_of retry)%list)
      else (Ok (inr (Some errorMsg)), state_of first, effects_of first)
  end.
Proof.
  intros first retry. rewrite spawn_loop_unfold. change (0 <? 2) with true. cbv iota.
  pose proof (needsNodeFallback_after_attempt 0 command args cwd env s) as Hflag.
  subst retry first.
  destruct (spawn_attempt 0 command args cwd env s) as [[[p|e] s1] t1] eqn:Ha.
  - rewrite (try_catch_ok _ _ _ (inl p) s1 t1); [reflexivity|].
    rewrite (bind_ok _ _ _ _ _ _ Ha). simpl. rewrite app_nil_r. reflexivity.
  - erewrite try_catch_thrown by (apply bind_thrown; exact Ha).
    rewrite bind_get. change (0 + 1 =? 1) with true.
    cbn [result_of state_of effects_of fst snd] in *. rewrite Hflag. cbn [andb].
    destruct (needsNodeFallback s); cbn [negb andb].
    + simpl. rewrite app_nil_r. reflexivity.
    + destruct (shebang_shaped e).
      * change (0 + 1) with 1.
        assert (Hnext : bind (set_global needsNodeFallbackKey true)
                          (fun _ => spawn_loop (S fuel) 1 (Some e) command args cwd env) s1
                        = spawn_loop (S fuel) 1 (Some e) command args cwd env (flagged s1)).
        { unfold bind, set_global. fold (flagged s1).
          destruct (spawn_loop (S fuel) 1 (Some e) command args cwd env (flagged s1))
            as [[r s2] t2]. reflexivity. }
        rewrite Hnext, spawn_loop_second. reflexivity.
      * simpl. rewrite app_nil_r. reflexivity.
Qed.

(** Two iterations are all the loop uses. *)
Lemma spawn_loop_fuel fuel command args cwd env (s : St.t World) :
  spawn_loop (S (S fuel)) 0 None command args cwd env s =
  spawn_loop 2 0 None command args cwd env s.
Proof. rewrite !spawn_loop_run. reflexivity. Qed.

Lemma spawnPtyProcess_run command args cwd env (s : St.t World) :
  let first := spawn_attempt 0 command args cwd env s in
  let retry := spawn_attempt 1 command args cwd env (flagged (state_of first)) in
  spawnPtyProcess command args cwd env s =
  match result_of first with
  | Ok ptyProcess => (Ok ptyProcess, state_of first, effects_of first)
  | Thrown errorMsg =>
      if negb (needsNodeFallback s) && shebang_shaped errorMsg then
        (match result_of retry with
         | Ok ptyProcess => Ok ptyProcess
         | Thrown errorMsg' => Thrown (spawn_failure errorMsg')
         end, state_of retry, (effects_of first ++ effects_of retry)%list)
      else (Thrown (spawn_failure errorMsg), state_of first, effects_of first)
  end.
Proof.
  intros first retry. unfold spawnPtyProcess, bind. rewrite spawn_loop_run.
  fold first. fold retry.
  destruct (result_of first) as [p|e].
  - simpl. rewrite app_nil_r. reflexivity.
  - destruct (negb (needsNodeFallback s) && shebang_shaped e).
    + destruct (result_of retry); simpl; rewrite app_nil_r; reflexivity.
    + simpl. rewrite app_nil_r. reflexivity.
Qed.

End SpawnLoop.

Section SpawnCalls.

Context {World : Type} {tool : CliTool World} {host : Host World}.

Lemma direct_spawn_calls_none t : spawn_calls t = [] -> direct_spawn_calls t = [].
Proof.
  induction t as [|e t IH]; [reflexivity|].
  destruct e; simpl; try exact IH. discriminate.
Qed.

(** The [pty.spawn] calls of one iteration: the direct call on a first
    attempt without the flag; otherwise no direct call, and the call of the
    located interpreter once it is located. *)
Lemma spawn_attempt_calls n command args cwd env (s : St.t World) :
  let t := effects_of (spawn_attempt n command args cwd env s) in
  (length (spawn_calls t) <= 1)%nat /\
  if (n =? 0) && negb (needsNodeFallback s)
  then spawn_calls t = [(Direct, command, args)]
  else direct_spawn_calls t = [] /\
       forall nodePath nodeArgs s2 t2,
         locate_node_invocation command args (state_of (spawn_delay s))
           = (Ok (nodePath, nodeArgs), s2, t2) ->
         spawn_calls t = [(ViaNode, nodePath, nodeArgs)].
Proof.
  intros t. subst t. rewrite spawn_attempt_run.
  destruct (spawn_delay_run s) as (s1 & t1 & Hd & Hnone & _). rewrite Hd.
  change (state_of (Ok tt, s1, t1)) with s1. change (effects_of (Ok tt, s1, t1)) with t1.
  destruct ((n =? 0) && negb (needsNodeFallback s)).
  - rewrite spawn_via_pty_run. cbn [effects_of snd].
    rewrite spawn_calls_app, Hnone. split; [simpl; lia | reflexivity].
  - pose proof (locate_spawns_nothing command args s1) as Hl.
    destruct (locate_node_invocation command args s1) as [[[invocation|e] s2] t2].
    + cbn [result_of state_of effects_of fst snd] in *. rewrite spawn_via_pty_run.
      cbn [effects_of snd].
      rewrite !spawn_calls_app, !direct_spawn_calls_app, Hnone, Hl.
      rewrite (direct_spawn_calls_none t1 Hnone), (direct_spawn_calls_none t2 Hl).
      split; [simpl; lia|]. split; [reflexivity|].
      intros nodePath nodeArgs s3 t3 Heq. injection Heq as -> _ _. reflexivity.
    + cbn [result_of state_of effects_of fst snd] in *.
      rewrite !spawn_calls_app, !direct_spawn_calls_app, Hnone, Hl.
      rewrite (direct_spawn_calls_none t1 Hnone), (direct_spawn_calls_none t2 Hl).
      split; [simpl; lia|]. split; [reflexivity|].
      intros nodePath nodeArgs s3 t3 Heq. discriminate.
Qed.

(** The Node.js fallback, by what the two finders answer: the script is
    the one the script finder reports, or the command itself when it reports
    none, an empty one, or throws; the interpreter is the one the Node
    finder reports, and its failure is the failure of the fallback. *)
Lemma locate_node_invocation_run command args (s : St.t World) :
  let found := findCliNodeScript command (St.world s) in
  let scriptPath := match fst found with
                    | Ok (Some script) => if Js.truthy script then script else command
                    | _ => command
                    end in
  let located := findNodeExecutable (snd found) in
  locate_node_invocation command args s =
  (match fst located with
   | Ok nodePath =>
       Ok (nodePath,
           if String.eqb scriptPath command then command :: args
           else "--no-warnings" :: "--enable-source-maps" :: scriptPath :: args)
   | Thrown e => Thrown e
   end,
   with_world s (snd located), []).
Proof.
  unfold locate_node_invocation, bind, try_catch, call_res, ret, with_world. simpl.
  destruct (findCliNodeScript command (St.world s)) as [[[script|]|e] w]; simpl;
    destruct (findNodeExecutable w) as [[nodePath|e'] w']; reflexivity.
Qed.

(** An attempt that is not the direct one spawns the located interpreter
    with the located script, and nothing when no interpreter is located. *)
Lemma spawn_attempt_via_node n command args cwd env (s : St.t World) :
  (n =? 0) && negb (needsNodeFallback s) = false ->
  let found := findCliNodeScript command (St.world (state_of (spawn_delay s))) in
  let scriptPath := match fst found with
                    | Ok (Some script) => if Js.truthy script then script else command
                    | _ => command
                    end in
  let nodeArgs := if String.eqb scriptPath command then command :: args
                  else "--no-warnings" :: "--enable-source-maps" :: scriptPath :: args in
  let located := findNodeExecutable (snd found) in
  let attempt := spawn_attempt n command args cwd env s in
  match fst located with
  | Ok nodePath =>
      spawn_calls (effects_of attempt) = [(ViaNode, nodePath, nodeArgs)] /\
      result_of attempt = fst (pty_spawn nodePath nodeArgs cwd env (snd located))
  | Thrown e =>
      spawn_calls (effects_of attempt) = [] /\ result_of attempt = Thrown e
  end.
Proof.
  intros Hvia found scriptPath nodeArgs located attempt. subst attempt.
  rewrite spawn_attempt_run, Hvia. cbv zeta.
  destruct (spawn_delay_run s) as (s1 & t1 & Hd & Hnone & _).
  subst located nodeArgs scriptPath found. rewrite Hd.
  change (state_of (Ok tt, s1, t1)) with s1. change (effects_of (Ok tt, s1, t1)) with t1.
  rewrite locate_node_invocation_run.
  destruct (fst (findNodeExecutable (snd (findCliNodeScript command (St.world s1)))))
    as [nodePath|e]; cbn [result_of state_of effects_of fst snd].
  - rewrite spawn_via_pty_run. cbn [result_of effects_of fst snd with_world St.world].
    rewrite spawn_calls_app, Hnone. split; reflexivity.
  - rewrite spawn_calls_app, Hnone. split; reflexivity.
Qed.

End SpawnCalls.

(** C2. When the first, direct spawn attempt fails with a shebang-shaped
    error while the sticky flag of the tool is not set, [spawnPtyProcess]
    sets the flag and makes exactly one more attempt.  That attempt issues no
    direct spawn: it asks the Node finder for the interpreter and spawns it,
    with the script the script finder reports, or the command itself, ahead
    of the arguments; its result is the result of that spawn, and when no
    interpreter is found it spawns nothing and fails with the error of the
    finder.  Every call made while the flag is set does the same at once,
    without a direct spawn, and leaves the flag set. *)
Theorem C2_sticky_node_fallback
    {World : Type} {tool : CliTool World} {host : Host World}
    (command : string) (args : list string) (cwd : string) (env : gmap string string)
    (s : St.t World) (errorMsg : string) :
  needsNodeFallback s = false ->
  result_of (spawn_attempt 0 command args cwd env s) = Thrown errorMsg ->
  shebang_shaped errorMsg = true ->
  let first := spawn_attempt 0 command args cwd env s in
  let retry := spawn_attempt 1 command args cwd env (flagged (state_of first)) in
  let outcome := spawnPtyProcess command args cwd env s in
  let script_for := fun (command' : string) (found : Res (option string)) =>
    match found with
    | Ok (Some script) => if Js.truthy script then script else command'
    | _ => command'
    end in
  let node_args := fun (command' : string) (args' : list string) (scriptPath : string) =>
    if String.eqb scriptPath command' then command' :: args'
    else "--no-warnings" :: "--enable-source-maps" :: scriptPath :: args' in
  (spawn_calls (effects_of first) = [(Direct, command, args)] /\
   effects_of outcome = (effects_of first ++ effects_of retry)%list /\
   state_of outcome = state_of retry /\
   result_of outcome = match result_of retry with
                       | Ok ptyProcess => Ok ptyProcess
                       | Thrown errorMsg' => Thrown (spawn_failure errorMsg')
                       end /\
   St.globals (state_of outcome) !! needsNodeFallbackKey = Some true /\
   direct_spawn_calls (effects_of retry) = [] /\
   (length (spawn_calls (effects_of retry)) <= 1)%nat /\
   (forall nodePath nodeArgs s2 t2,
      locate_node_invocation command args (state_of (spawn_delay (flagged (state_of first))))
        = (Ok (nodePath, nodeArgs), s2, t2) ->
      spawn_calls (effects_of retry) = [(ViaNode, nodePath, nodeArgs)]) /\
   (let found := findCliNodeScript command
                   (St.world (state_of (spawn_delay (flagged (state_of first))))) in
    let located := findNodeExecutable (snd found) in
    let nodeArgs := node_args command args (script_for command (fst found)) in
    match fst located with
    | Ok nodePath =>
        spawn_calls (effects_of retry) = [(ViaNode, nodePath, nodeArgs)] /\
        result_of retry = fst (pty_spawn nodePath nodeArgs cwd env (snd located))
    | Thrown e =>
        spawn_calls (effects_of retry) = [] /\ result_of retry = Thrown e
    end)) /\
  (forall (later : St.t World) command' args' cwd' env',
     needsNodeFallback later = true ->
     let again := spawnPtyProcess command' args' cwd' env' later in
     direct_spawn_calls (effects_of again) = [] /\
     (length (spawn_calls (effects_of again)) <= 1)%nat /\
     needsNodeFallback (state_of again) = true /\
     (let found := findCliNodeScript command' (St.world (state_of (spawn_delay later))) in
      let located := findNodeExecutable (snd found) in
      let nodeArgs := node_args command' args' (script_for command' (fst found)) in
      match fst located with
      | Ok nodePath =>
          spawn_calls (effects_of again) = [(ViaNode, nodePath, nodeArgs)] /\
          result_of again
          = match fst (pty_spawn nodePath nodeArgs cwd' env' (snd located)) with
            | Ok ptyProcess => Ok ptyProcess
            | Thrown errorMsg' => Thrown (spawn_failure errorMsg')
            end
      | Thrown e =>
          spawn_calls (effects_of again) = [] /\
          result_of again = Thrown (spawn_failure e)
      end)).
Proof.
  intros Hunset Hfail Hshebang first retry outcome script_for node_args. split.
  - pose proof (spawn_attempt_calls 0 command args cwd env s) as (_ & Hfirst).
    rewrite Hunset in Hfirst. cbn in Hfirst.
    pose proof (spawn_attempt_calls 1 command args cwd env (flagged (state_of first)))
      as (Hone & Hnodirect & Hnode).
    pose proof (spawn_attempt_via_node 1 command args cwd env (flagged (state_of first))
                  eq_refl) as Hvia.
    pose proof (spawnPtyProcess_run command args cwd env s) as Hrun. cbv zeta in Hrun.
    fold first retry outcome in Hrun, Hfail. rewrite Hfail, Hunset, Hshebang in Hrun.
    cbn [negb andb] in Hrun.
    assert (Hflag : St.globals (state_of retry) !! needsNodeFallbackKey = Some true).
    { subst retry.
      destruct (only_moves_world_spawn_attempt 1 command args cwd env (flagged (state_of first)))
        as (_ & _ & ->).
      simpl. apply lookup_insert_eq. }
    rewrite Hrun. cbn [result_of state_of effects_of fst snd].
    repeat (split; [first [exact Hfirst | reflexivity | exact Hflag | exact Hnodirect | exact Hone
                          | exact Hnode]|]).
    exact Hvia.
  - intros later command' args' cwd' env' Hset again.
    pose proof (spawnPtyProcess_run command' args' cwd' env' later) as Hrun. cbv zeta in Hrun.
    pose proof (spawn_attempt_calls 0 command' args' cwd' env' later) as (Hone & Hcalls).
    pose proof (needsNodeFallback_after_attempt 0 command' args' cwd' env' later) as Hkeep.
    assert (Hbranch : (0 =? 0) && negb (needsNodeFallback later) = false)
      by (rewrite Hset; reflexivity).
    pose proof (spawn_attempt_via_node 0 command' args' cwd' env' later Hbranch) as Hvia.
    cbv zeta in Hvia.
    rewrite Hset in Hrun, Hcalls, Hkeep. cbn in Hcalls. destruct Hcalls as (Hnodirect & _).
    assert (Hagain : again =
              (match result_of (spawn_attempt 0 command' args' cwd' env' later) with
               | Ok ptyProcess => Ok ptyProcess
               | Thrown errorMsg' => Thrown (spawn_failure errorMsg')
               end,
               state_of (spawn_attempt 0 command' args' cwd' env' later),
               effects_of (spawn_attempt 0 command' args' cwd' env' later))).
    { subst again. rewrite Hrun.
      destruct (result_of (spawn_attempt 0 command' args' cwd' env' later)); reflexivity. }
    rewrite Hagain. cbn [result_of state_of effects_of fst snd].
    split; [exact Hnodirect|]. split; [exact Hone|]. split; [exact Hkeep|].
    subst script_for node_args. cbv beta.
    destruct (fst (findNodeExecutable
                     (snd (findCliNodeScript command'
                             (St.world (state_of (spawn_delay later)))))))
      as [nodePath|e]; destruct Hvia as (Hspawned & Hresult); rewrite Hresult;
      split; first [exact Hspawned | reflexivity].
Qed.

(** The fallback in the demo world with a broken shebang line: the direct
    spawn fails, the flag is set, Node is spawned, and the next call goes to
    Node at once. *)
Lemma C2_sticky_node_fallback_witness :
  let s := Demo.fresh Demo.broken_shebang in
  let errorMsg := "env: node: No such file or directory" in
  let outcome := spawnPtyProcess "claude" ["-p"; "hello"] "/tmp/wt" ∅ s in
  let again := spawnPtyProcess "claude" ["-p"; "again"] "/tmp/wt" ∅ (state_of outcome) in
  (needsNodeFallback s = false /\
   result_of (spawn_attempt 0 "claude" ["-p"; "hello"] "/tmp/wt" ∅ s) = Thrown errorMsg /\
   shebang_shaped errorMsg = true) /\
  spawn_calls (effects_of outcome)
    = [(Direct, "claude", ["-p"; "hello"]); (ViaNode, "/usr/bin/node", ["claude"; "-p"; "hello"])] /\
  result_of outcome = Ok Demo.the_pty /\
  direct_spawn_calls (effects_of again) = [] /\
  needsNodeFallback (state_of again) = true.
Proof.
  intros s errorMsg outcome again.
  assert (Hunset : needsNodeFallback s = false) by (vm_compute; reflexivity).
  assert (Hfail : result_of (spawn_attempt 0 "claude" ["-p"; "hello"] "/tmp/wt" ∅ s)
                  = Thrown errorMsg) by (vm_compute; reflexivity).
  assert (Hshebang : shebang_shaped errorMsg = true) by (vm_compute; reflexivity).
  destruct (C2_sticky_node_fallback "claude" ["-p"; "hello"] "/tmp/wt" ∅ s errorMsg
              Hunset Hfail Hshebang) as ((_ & _ & _ & _ & Hflag & _) & Hsticky).
  cbv beta zeta in Hsticky.
  assert (Hset : needsNodeFallback (state_of outcome) = true).
  { unfold needsNodeFallback. fold outcome in Hflag. rewrite Hflag. reflexivity. }
  destruct (Hsticky (state_of outcome) "claude" ["-p"; "again"] "/tmp/wt" ∅ Hset)
    as (Hnodirect & _ & Hstill & _).
  split; [repeat split; assumption|].
  split; [vm_compute; reflexivity|].
  split; [vm_compute; reflexivity|].
  split; [exact Hnodirect | exact Hstill].
Defined.

(** C3. A call of [spawnPtyProcess] makes at most two spawn attempts (and
    the loop never needs more than two iterations); a first attempt that
    fails with a message that is not shebang-shaped is not retried; and when
    the call fails, its error is [Failed to spawn <tool>: ] followed by the
    message of the last attempt that failed. *)
Theorem C3_spawn_attempts_bounded
    {World : Type} {tool : CliTool World} {host : Host World}
    (command : string) (args : list string) (cwd : string) (env : gmap string string)
    (s : St.t World) :
  let first := spawn_attempt 0 command args cwd env s in
  let retry := spawn_attempt 1 command args cwd env (flagged (state_of first)) in
  let outcome := spawnPtyProcess command args cwd env s in
  (length (spawn_calls (effects_of outcome)) <= 2)%nat /\
  (effects_of outcome = effects_of first \/
   effects_of outcome = (effects_of first ++ effects_of retry)%list) /\
  (forall fuel, spawn_loop (S (S fuel)) 0 None command args cwd env s
                = spawn_loop 2 0 None command args cwd env s) /\
  (forall errorMsg,
     result_of first = Thrown errorMsg ->
     shebang_shaped errorMsg = false ->
     outcome = (Thrown (spawn_failure errorMsg), state_of first, effects_of first)) /\
  (forall e,
     result_of outcome = Thrown e ->
     exists lastMsg,
       e = "Failed to spawn " ++ getCliToolName ++ ": " ++ lastMsg /\
       ((result_of first = Thrown lastMsg /\ effects_of outcome = effects_of first) \/
        (exists firstMsg,
           result_of first = Thrown firstMsg /\
           result_of retry = Thrown lastMsg /\
           effects_of outcome = (effects_of first ++ effects_of retry)%list))).
Proof.
  intros first retry outcome.
  pose proof (spawnPtyProcess_run command args cwd env s) as Hrun. cbv zeta in Hrun.
  fold first retry outcome in Hrun.
  pose proof (spawn_attempt_calls 0 command args cwd env s) as (Hfirst & _).
  pose proof (spawn_attempt_calls 1 command args cwd env (flagged (state_of first)))
    as (Hretry & _).
  fold first in Hfirst. fold retry in Hretry.
  split; [|split; [|split; [|split]]].
  - rewrite Hrun. destruct (result_of first) as [p|e]; cbn [effects_of snd]; [lia|].
    destruct (negb (needsNodeFallback s) && shebang_shaped e); cbn [effects_of snd]; [|lia].
    rewrite spawn_calls_app, length_app. lia.
  - rewrite Hrun. destruct (result_of first) as [p|e]; [left; reflexivity|].
    destruct (negb (needsNodeFallback s) && shebang_shaped e);
      [right | left]; reflexivity.
  - intros fuel. apply spawn_loop_fuel.
  - intros errorMsg Hfail Hplain. rewrite Hrun, Hfail, Hplain, andb_false_r. reflexivity.
  - intros e. rewrite Hrun. destruct (result_of first) as [p|firstMsg]; [discriminate|].
    destruct (negb (needsNodeFallback s) && shebang_shaped firstMsg).
    + destruct (result_of retry) as [p|lastMsg]; [discriminate|].
      cbn [result_of effects_of fst snd]. intros [= <-]. exists lastMsg.
      split; [reflexivity|]. right. exists firstMsg. auto.
    + cbn [result_of effects_of fst snd]. intros [= <-]. exists firstMsg.
      split; [reflexivity|]. left. auto.
Qed.

(** Failures in the demo world: a host that has no pseudo-terminal left
    fails the call after one attempt, and a host whose Node interpreter cannot
    be run either fails it after two, with the message of the second. *)
Lemma C3_spawn_attempts_bounded_witness :
  let plain := spawnPtyProcess "claude" ["-p"; "hello"] "/tmp/wt" ∅
                 (Demo.fresh Demo.no_terminals) in
  let twice := spawnPtyProcess "claude" ["-p"; "hello"] "/tmp/wt" ∅
                 (Demo.fresh Demo.no_node) in
  (shebang_shaped "forkpty(3) failed." = false /\
   result_of plain = Thrown "Failed to spawn claude: forkpty(3) failed." /\
   spawn_calls (effects_of plain) = [(Direct, "claude", ["-p"; "hello"])]) /\
  (result_of twice = Thrown "Failed to spawn claude: spawn /usr/bin/node EACCES" /\
   (length (spawn_calls (effects_of twice)) <= 2)%nat /\
   spawn_calls (effects_of twice)
     = [(Direct, "claude", ["-p"; "hello"]);
        (ViaNode, "/usr/bin/node", ["claude"; "-p"; "hello"])]).
Proof.
  intros plain twice.
  destruct (C3_spawn_attempts_bounded "claude" ["-p"; "hello"] "/tmp/wt" ∅
              (Demo.fresh Demo.no_terminals)) as (_ & _ & _ & Hplain & _).
  assert (Hshape : shebang_shaped "forkpty(3) failed." = false) by (vm_compute; reflexivity).
  specialize (Hplain "forkpty(3) failed." ltac:(vm_compute; reflexivity) Hshape).
  destruct (C3_spawn_attempts_bounded "claude" ["-p"; "hello"] "/tmp/wt" ∅
              (Demo.fresh Demo.no_node)) as (Hle & _).
  split; [split; [exact Hshape|]; fold plain in Hplain; rewrite Hplain; split;
          vm_compute; reflexivity|].
  split; [vm_compute; reflexivity|]. split; [exact Hle | vm_compute; reflexivity].
Defined.

(** ** Starting a panel whose tool is not available *)

Section Unavailable.

Context {World : Type} {tool : CliTool World} {host : Host World}.

Lemma includes_app_r (before s needle : string) :
  Js.includes s needle = true -> Js.includes (before ++ s) needle = true.
Proof.
  intros H. induction before as [|c before IH]; [exact H|].
  rewrite string_app_cons. cbn [Js.includes]. rewrite IH.
  destruct (String.prefix needle (String c (before ++ s))); reflexivity.
Qed.

Lemma includes_prefix (needle rest : string) : Js.includes (needle ++ rest) needle = true.
Proof. apply (includes_app EmptyString needle rest). Qed.

Lemma includes_self (needle : string) : Js.includes needle needle = true.
Proof. rewrite <- (string_app_nil_r needle) at 1. apply includes_prefix. Qed.

(** The message names the search path and the probe command. *)
Lemma getCliNotAvailableMessage_includes error shellPath :
  Js.includes (getCliNotAvailableMessage error shellPath)
              ("Enhanced PATH searched: " ++ shellPath) = true /\
  Js.includes (getCliNotAvailableMessage error shellPath)
              ("Attempted command: " ++ getCliToolName ++ " --version") = true.
Proof.
  unfold getCliNotAvailableMessage, Js.join. cbn [String.concat]. split.
  - do 24 apply includes_app_r. apply includes_prefix.
  - do 26 apply includes_app_r. apply includes_self.
Qed.

Lemma getCachedAvailability_keeps_registry (s : St.t World) :
  St.processes (state_of (getCachedAvailability s)) = St.processes s /\
  St.globals (state_of (getCachedAvailability s)) = St.globals s /\
  exists availability, result_of (getCachedAvailability s) = Ok availability.
Proof.
  destruct (cache_is_fresh s) as [r|] eqn:Hfresh.
  - unfold cache_is_fresh in Hfresh.
    destruct (St.availabilityCache s) as [c|] eqn:Hc; [|discriminate].
    destruct (Z.ltb_spec (Date_now (St.world s) - AvailabilityCache.timestamp c) CACHE_TTL)
      as [Hlt|]; [|discriminate].
    rewrite (getCachedAvailability_hit s c Hc Hlt). simpl. eauto.
  - rewrite (getCachedAvailability_miss s Hfresh). simpl. eauto.
Qed.

Lemma handleCliNotAvailable_run availability panelId sessionId (s : St.t World) :
  let title := getCliToolName ++ " not available" in
  let details := getCliNotAvailableMessage (Availability.error availability)
                   (getShellPath (St.world s)) in
  let body := Js.show_opt (Availability.error availability) ++ Js.nl ++
                ("Please install " ++ getCliToolName ++ " or verify it is in your PATH.") in
  let noted := addSessionError sessionId title body (St.world s) in
  handleCliNotAvailable availability panelId sessionId s =
  (fst noted, with_world s (snd noted),
   [Emitted (OutputEvent (CliOutputEvent.mk panelId sessionId json
                            (SessionMessage "error" title details)
                            (Date_now (St.world s))))
            (St.processes s);
    SessionErrorAdded sessionId title body]).
Proof.
  intros title details body noted.
  unfold handleCliNotAvailable, emit_output, bind, get, now, emit, tell, call_res.
  fold title details body. fold noted. destruct noted as [r w]. reflexivity.
Qed.

(** The [catch] block of [spawnCliProcess]: the error event is emitted,
    and the error goes on; when nobody listens to ['error'] events it is
    the error of [emit] that goes on instead. *)
Lemma rethrow_run panelId sessionId errorMessage (s : St.t World) :
  (let! _ := emit_error (ErrorEvent panelId sessionId errorMessage) in
   throw (A := unit) errorMessage) s
  = (Thrown (if hasErrorListener (St.world s) then errorMessage
             else unhandled_error (ErrorEvent panelId sessionId errorMessage)),
     s, [Emitted (ErrorEvent panelId sessionId errorMessage) (St.processes s)]).
Proof.
  unfold emit_error, bind, emit, get, throw, ret.
  destruct (hasErrorListener (St.world s)); reflexivity.
Qed.

(** The unavailable path of [spawnCliProcess], step by step. *)
Lemma spawnCliProcess_unavailable options (s : St.t World) availability :
  result_of (getCachedAvailability s) = Ok availability ->
  Availability.available availability = false ->
  let panelId := CliSpawnOptions.panelId options in
  let sessionId := CliSpawnOptions.sessionId options in
  let probed := state_of (getCachedAvailability s) in
  let title := getCliToolName ++ " not available" in
  let details := getCliNotAvailableMessage (Availability.error availability)
                   (getShellPath (St.world probed)) in
  let body := Js.show_opt (Availability.error availability) ++ Js.nl ++
                ("Please install " ++ getCliToolName ++ " or verify it is in your PATH.") in
  let noted := addSessionError sessionId title body (St.world probed) in
  let message := match fst noted with
                 | Ok _ => getCliToolName ++ " CLI not available: "
                             ++ Js.show_opt (Availability.error availability)
                 | Thrown e => e
                 end in
  spawnCliProcess options s =
  (Thrown (if hasErrorListener (snd noted) then message
           else unhandled_error (ErrorEvent panelId sessionId message)),
   with_world probed (snd noted),
   (effects_of (getCachedAvailability s) ++
    [Emitted (OutputEvent (CliOutputEvent.mk panelId sessionId json
                             (SessionMessage "error" title details)
                             (Date_now (St.world probed))))
             (St.processes probed);
     SessionErrorAdded sessionId title body;
     Emitted (ErrorEvent panelId sessionId message) (St.processes probed)])%list).
Proof.
  intros Hprobe Hunavailable panelId sessionId probed title details body noted message.
  subst probed. unfold spawnCliProcess. fold panelId sessionId.
  destruct (getCachedAvailability s) as [[r s1] t1] eqn:Hrun.
  cbn [result_of state_of effects_of fst snd] in *. subst r.
  pose proof (handleCliNotAvailable_run availability panelId sessionId s1) as Hhandle.
  cbv zeta in Hhandle. fold title details body in Hhandle. fold noted in Hhandle.
  subst message. destruct noted as [[[]|e] w] eqn:Hnoted; cbn [fst snd] in *.
  - erewrite try_catch_thrown; cycle 1.
    { rewrite (bind_ok _ _ _ _ _ _ Hrun), Hunavailable. cbn [negb].
      rewrite bind_assoc, (bind_ok _ _ _ _ _ _ Hhandle). unfold bind at 1 2 3, throw.
      cbn [result_of state_of effects_of fst snd]. reflexivity. }
    rewrite rethrow_run.
    cbn [result_of state_of effects_of fst snd with_world St.processes St.world].
    rewrite <- !app_assoc. reflexivity.
  - erewrite try_catch_thrown; cycle 1.
    { rewrite (bind_ok _ _ _ _ _ _ Hrun), Hunavailable. cbn [negb].
      rewrite bind_assoc, (bind_thrown _ _ _ _ _ _ Hhandle).
      cbn [result_of state_of effects_of fst snd]. reflexivity. }
    rewrite rethrow_run.
    cbn [result_of state_of effects_of fst snd with_world St.processes St.world].
    rewrite <- !app_assoc. reflexivity.
Qed.

End Unavailable.

(** C8. When the availability probe reports the tool unavailable,
    [spawnCliProcess] emits a structured (json) error output event whose
    details name the searched path and the probe command, records the session
    error, emits the error event and fails; it spawns nothing and leaves the
    registry as it was, so [isPanelRunning] answers as before.  The error it
    fails with is the one its error event carries when somebody listens to
    ['error'] events, and the unhandled-error of [emit] otherwise. *)
Theorem C8_unavailable_tool_is_not_registered
    {World : Type} {tool : CliTool World} {host : Host World}
    (options : CliSpawnOptions.t) (s : St.t World) (availability : Availability.t) :
  result_of (getCachedAvailability s) = Ok availability ->
  Availability.available availability = false ->
  let panelId := CliSpawnOptions.panelId options in
  let sessionId := CliSpawnOptions.sessionId options in
  let probed := state_of (getCachedAvailability s) in
  let outcome := spawnCliProcess options s in
  exists thrown message details body,
    result_of outcome = Thrown thrown /\
    thrown = (if hasErrorListener (St.world (state_of outcome)) then message
              else unhandled_error (ErrorEvent panelId sessionId message)) /\
    effects_of outcome =
      (effects_of (getCachedAvailability s) ++
       [Emitted (OutputEvent (CliOutputEvent.mk panelId sessionId json
                                (SessionMessage "error" (getCliToolName ++ " not available") details)
                                (Date_now (St.world probed))))
                (St.processes s);
        SessionErrorAdded sessionId (getCliToolName ++ " not available") body;
        Emitted (ErrorEvent panelId sessionId message) (St.processes s)])%list /\
    Js.includes details ("Enhanced PATH searched: " ++ getShellPath (St.world probed)) = true /\
    Js.includes details ("Attempted command: " ++ getCliToolName ++ " --version") = true /\
    spawn_calls (effects_of outcome) = [] /\
    St.processes (state_of outcome) = St.processes s /\
    (forall anyPanel, isPanelRunning anyPanel (state_of outcome) = isPanelRunning anyPanel s).
Proof.
  intros Hprobe Hunavailable panelId sessionId probed outcome.
  pose proof (spawnCliProcess_unavailable options s availability Hprobe Hunavailable) as Hrun.
  cbv zeta in Hrun. fold panelId sessionId probed outcome in Hrun.
  destruct (getCachedAvailability_keeps_registry s) as (Hreg & _ & _). fold probed in Hreg.
  rewrite Hreg in Hrun.
  destruct (getCliNotAvailableMessage_includes (Availability.error availability)
              (getShellPath (St.world probed))) as (Hpath & Hcommand).
  eexists _, _, _, _. rewrite Hrun.
  cbn [result_of state_of effects_of fst snd with_world St.world].
  split; [reflexivity|]. split; [reflexivity|]. split; [reflexivity|].
  split; [exact Hpath|]. split; [exact Hcommand|].
  split.
  { rewrite spawn_calls_app. simpl. rewrite app_nil_r.
    destruct (cache_is_fresh s) as [r|] eqn:Hfresh.
    - unfold cache_is_fresh in Hfresh.
      destruct (St.availabilityCache s) as [c|] eqn:Hc; [|discriminate].
      destruct (Z.ltb_spec (Date_now (St.world s) - AvailabilityCache.timestamp c) CACHE_TTL)
        as [Hlt|]; [|discriminate].
      rewrite (getCachedAvailability_hit s c Hc Hlt). reflexivity.
    - rewrite (getCachedAvailability_miss s Hfresh). reflexivity. }
  split; [exact Hreg|].
  intros anyPanel. unfold isPanelRunning. simpl. rewrite Hreg. reflexivity.
Qed.

(** The demo world without the tool installed: the start of panel [p1]
    fails and [p1] is not running. *)
Lemma C8_unavailable_tool_is_not_registered_witness :
  let s := Demo.fresh Demo.not_installed in
  let outcome := spawnCliProcess Demo.options s in
  (exists availability,
     result_of (getCachedAvailability s) = Ok availability /\
     Availability.available availability = false) /\
  result_of outcome = Thrown "claude CLI not available: claude not found in PATH" /\
  St.processes (state_of outcome) = St.processes s /\
  isPanelRunning "p1" (state_of outcome) = false.
Proof.
  intros s outcome.
  set (availability := Availability.mk false (Some "claude not found in PATH") None None).
  assert (Hprobe : result_of (getCachedAvailability s) = Ok availability)
    by (vm_compute; reflexivity).
  assert (Hunavailable : Availability.available availability = false) by reflexivity.
  destruct (C8_unavailable_tool_is_not_registered Demo.options s availability
              Hprobe Hunavailable)
    as (thrown & message & details & body & _ & _ & _ & _ & _ & _ & Hreg & Hrunning).
  split; [exists availability; split; assumption|].
  split; [vm_compute; reflexivity|].
  split; [exact Hreg|].
  fold outcome in Hrunning. rewrite Hrunning. vm_compute. reflexivity.
Defined.

(** ** The runtime-failure report *)

(** [substring] with a negative start returns the whole string. *)
Lemma substring_negative (start : Z) (s : string) : start <= 0 -> Js.substring start s = s.
Proof.
  intros H. unfold Js.substring.
  replace (Z.min (Z.max start 0) (Z.of_nat (String.length s))) with 0 by lia.
  reflexivity.
Qed.

(** The report carries the whole accumulated output, whatever its length. *)
Lemma runtime_failure_details_whole (lastOutput : string) :
  runtime_failure_details lastOutput =
  if (0 <? String.length lastOutput)%nat
  then "Last output:" ++ Js.nl ++ lastOutput
  else "No additional details available".
Proof. unfold runtime_failure_details. rewrite substring_negative by lia. reflexivity. Qed.

(** C9, evaluated on the code: a process that printed 501 characters and
    exits with code 1.  The error event reports all 501 characters after the
    [Last output:] line: [substring(-500)] is the whole string, where the
    last 500 characters are [slice(-500)]. *)
Theorem C9_runtime_failure_reports_whole_output :
  let lastOutput := Demo.repeat_char "x" 501 in
  let h := Handler.mk true lastOutput EmptyString in
  let outcome := onExit Demo.the_pty "p1" "s1" h 1 None (Demo.started Demo.healthy) in
  map fst (emitted (effects_of outcome)) =
    [OutputEvent (CliOutputEvent.mk "p1" "s1" json
                    (SessionMessage "error" "claude exited with error (exit code: 1)"
                       ("Last output:" ++ Js.nl ++ lastOutput))
                    1040);
     ExitEvent "p1" "s1" (Some 1) None] /\
  runtime_failure_details lastOutput = "Last output:" ++ Js.nl ++ lastOutput /\
  String.length lastOutput = 501%nat /\
  String.length (Js.substring (-500) lastOutput) = 501%nat /\
  String.length (Js.slice (-500) lastOutput) = 500%nat.
Proof.
  intros lastOutput h outcome. split; [vm_compute; reflexivity|].
  split; [apply runtime_failure_details_whole|].
  repeat split; vm_compute; reflexivity.
Qed.

(** ** The registry invariant *)

Section Keyed.

Context {W : Type}.

Lemma keyed_same_registry (s1 s2 : St.t W) :
  St.processes s2 = St.processes s1 -> keyed_by_panelId s1 -> keyed_by_panelId s2.
Proof. unfold keyed_by_panelId. intros ->. auto. Qed.

Lemma keeps_keyed_only_moves_world {A} (m : M W A) : only_moves_world m -> keeps_keyed m.
Proof. intros Hm s. apply keyed_same_registry. apply (Hm s). Qed.

Lemma keeps_keyed_ret {A} (a : A) : keeps_keyed (W := W) (ret a).
Proof. intros s H. exact H. Qed.

Lemma keeps_keyed_throw {A} e : keeps_keyed (W := W) (A := A) (throw e).
Proof. intros s H. exact H. Qed.

Lemma keeps_keyed_get : keeps_keyed (W := W) get.
Proof. intros s H. exact H. Qed.

Lemma keeps_keyed_tell e : keeps_keyed (W := W) (tell e).
Proof. intros s H. exact H. Qed.

Lemma keeps_keyed_emit e : keeps_keyed (W := W) (emit e).
Proof. intros s H. exact H. Qed.

Lemma keeps_keyed_call {A} (f : W -> A * W) : keeps_keyed (call f).
Proof. apply keeps_keyed_only_moves_world, only_moves_world_call. Qed.

Lemma keeps_keyed_call_res {A} (f : W -> Res A * W) : keeps_keyed (call_res f).
Proof. apply keeps_keyed_only_moves_world, only_moves_world_call_res. Qed.

Lemma keeps_keyed_set_availabilityCache c : keeps_keyed (W := W) (set_availabilityCache c).
Proof. intros s H. exact H. Qed.

Lemma keeps_keyed_set_global key v : keeps_keyed (W := W) (set_global key v).
Proof. intros s H. exact H. Qed.

Lemma keeps_keyed_delete panelId : keeps_keyed (W := W) (set_processes (delete panelId)).
Proof.
  intros s H key cliProcess. simpl. intros Hlookup.
  apply lookup_delete_Some in Hlookup as [_ Hlookup]. exact (H key cliProcess Hlookup).
Qed.

Lemma keeps_keyed_insert panelId cliProcess :
  CliProcess.panelId cliProcess = panelId ->
  keeps_keyed (W := W) (set_processes (insert panelId cliProcess)).
Proof.
  intros Hid s H key cliProcess'. simpl. intros Hlookup.
  apply lookup_insert_Some in Hlookup as [[<- <-] | [_ Hlookup]]; [exact Hid|].
  exact (H key cliProcess' Hlookup).
Qed.

Lemma keeps_keyed_bind {A B} (m : M W A) (k : A -> M W B) :
  keeps_keyed m -> (forall a, keeps_keyed (k a)) -> keeps_keyed (bind m k).
Proof.
  intros Hm Hk s H. specialize (Hm s H). unfold bind.
  destruct (m s) as [[[a|e] s1] t1]; [|exact Hm].
  specialize (Hk a s1 Hm). destruct (k a s1) as [[r s2] t2]. exact Hk.
Qed.

Lemma keeps_keyed_try_catch {A} (m : M W A) (h : string -> M W A) :
  keeps_keyed m -> (forall e, keeps_keyed (h e)) -> keeps_keyed (try_catch m h).
Proof.
  intros Hm Hh s H. specialize (Hm s H). unfold try_catch.
  destruct (m s) as [[[a|e] s1] t1]; [exact Hm|].
  specialize (Hh e s1 Hm). destruct (h e s1) as [[r s2] t2]. exact Hh.
Qed.

Lemma keeps_keyed_for_each {A} (l : list A) (f : A -> M W unit) :
  (forall x, keeps_keyed (f x)) -> keeps_keyed (for_each l f).
Proof.
  intros Hf. induction l as [|x l IH]; simpl.
  - apply keeps_keyed_ret.
  - apply keeps_keyed_bind; [apply Hf | intros _; exact IH].
Qed.

Lemma keeps_keyed_if {A} (b : bool) (m1 m2 : M W A) :
  keeps_keyed m1 -> keeps_keyed m2 -> keeps_keyed (if b then m1 else m2).
Proof. destruct b; auto. Qed.

End Keyed.

Create HintDb keyed discriminated.

#[export] Hint Resolve keeps_keyed_ret keeps_keyed_throw keeps_keyed_get keeps_keyed_tell
  keeps_keyed_emit keeps_keyed_call keeps_keyed_call_res keeps_keyed_set_availabilityCache
  keeps_keyed_set_global keeps_keyed_delete keeps_keyed_bind keeps_keyed_try_catch
  keeps_keyed_for_each keeps_keyed_if : keyed.

Section KeyedOperations.

Context {World : Type} {tool : CliTool World} {host : Host World}.

Lemma only_moves_world_getAllDescendantPids pid :
  only_moves_world (getAllDescendantPids (host := host) pid).
Proof. unfold getAllDescendantPids. auto with frame. Qed.

Lemma only_moves_world_getProcessInfo pids :
  only_moves_world (getProcessInfo (host := host) pids).
Proof. induction pids as [|pid pids IH]; simpl; auto 10 with frame. Qed.

Lemma only_moves_world_os c : only_moves_world (os (host := host) c).
Proof. unfold os. auto with frame. Qed.

Lemma only_moves_world_kill_commands pid descendantPids :
  only_moves_world (kill_commands (host := host) pid descendantPids).
Proof.
  unfold kill_commands, ignoring_errors.
  pose proof only_moves_world_os. pose proof only_moves_world_sleep.
  destruct os_platform; auto 20 with frame.
Qed.

Lemma only_moves_world_verify_killed pid panelId sessionId :
  only_moves_world (verify_killed (host := host) pid panelId sessionId).
Proof.
  unfold verify_killed.
  pose proof only_moves_world_sleep. pose proof only_moves_world_getAllDescendantPids.
  pose proof only_moves_world_getProcessInfo. pose proof only_moves_world_emit_output.
  auto 20 with frame.
Qed.

Lemma only_moves_world_kill_via_pty p : only_moves_world (kill_via_pty (host := host) p).
Proof. unfold kill_via_pty. auto with frame. Qed.

Lemma only_moves_world_killProcessTree pid panelId sessionId :
  only_moves_world (killProcessTree (host := host) pid panelId sessionId).
Proof.
  unfold killProcessTree, ignoring_errors.
  pose proof only_moves_world_getAllDescendantPids.
  pose proof only_moves_world_kill_commands.
  pose proof only_moves_world_verify_killed.
  pose proof only_moves_world_kill_via_pty.
  apply only_moves_world_bind; [auto|intros descendantPids].
  apply only_moves_world_bind; [auto 10 with frame|intros success].
  apply only_moves_world_bind; [|auto with frame].
  apply only_moves_world_try_catch; [|auto with frame].
  apply only_moves_world_bind; [auto with frame|intros s].
  destruct (St.processes s !! panelId); auto with frame.
Qed.

Lemma only_moves_world_cleanup sessionId : only_moves_world (cleanup sessionId).
Proof. unfold cleanup. auto with frame. Qed.

Lemma only_moves_world_parse_and_emit data panelId sessionId :
  only_moves_world (parse_and_emit data panelId sessionId).
Proof. unfold parse_and_emit, parse. auto 10 with frame. Qed.

Lemma only_moves_world_handleCliNotAvailable availability panelId sessionId :
  only_moves_world (handleCliNotAvailable availability panelId sessionId).
Proof.
  unfold handleCliNotAvailable. pose proof only_moves_world_emit_output.
  auto 10 with frame.
Qed.

Lemma only_moves_world_getSystemEnvironment :
  only_moves_world (getSystemEnvironment (host := host)).
Proof. unfold getSystemEnvironment. auto 10 with frame. Qed.

Lemma only_moves_world_failure_handlers exitCode signal panelId sessionId lastOutput :
  only_moves_world (handleProcessStartupFailure exitCode signal panelId sessionId lastOutput) /\
  only_moves_world (handleProcessRuntimeFailure exitCode signal panelId sessionId lastOutput).
Proof.
  unfold handleProcessStartupFailure, handleProcessRuntimeFailure.
  split; apply only_moves_world_emit_output.
Qed.

Lemma only_moves_world_sweep_orphans ptyProcess panelId sessionId :
  only_moves_world (sweep_orphans ptyProcess panelId sessionId).
Proof.
  unfold sweep_orphans.
  pose proof only_moves_world_getAllDescendantPids.
  pose proof only_moves_world_getProcessInfo.
  pose proof only_moves_world_killProcessTree.
  pose proof only_moves_world_emit_output.
  auto 20 with frame.
Qed.

End KeyedOperations.

Section KeyedSteps.

Context {World : Type} {tool : CliTool World} {host : Host World}.

Lemma keeps_keyed_getCachedAvailability : keeps_keyed (W := World) getCachedAvailability.
Proof.
  intros s. apply keyed_same_registry. apply getCachedAvailability_keeps_registry.
Qed.

Lemma keeps_keyed_spawn_loop fuel : forall n lastError command args cwd env,
  keeps_keyed (spawn_loop fuel n lastError command args cwd env).
Proof.
  induction fuel as [|fuel IH]; intros n lastError command args cwd env.
  - simpl. destruct (n <? 2); auto with keyed.
  - rewrite spawn_loop_unfold.
    pose proof (fun n => keeps_keyed_only_moves_world _
                  (only_moves_world_spawn_attempt n command args cwd env)).
    destruct (n <? 2); [|auto with keyed].
    apply keeps_keyed_try_catch; [auto with keyed|]. intros e.
    apply keeps_keyed_bind; [auto with keyed|]. intros s.
    repeat apply keeps_keyed_if; auto with keyed.
Qed.

Lemma keeps_keyed_spawnPtyProcess command args cwd env :
  keeps_keyed (spawnPtyProcess command args cwd env).
Proof.
  unfold spawnPtyProcess. apply keeps_keyed_bind; [apply keeps_keyed_spawn_loop|].
  intros [p|e]; auto with keyed.
Qed.

Lemma only_moves_world_emit_error e : only_moves_world (emit_error (host := host) e).
Proof.
  unfold emit_error. apply only_moves_world_bind; [auto with frame|]. intros _.
  apply only_moves_world_bind; [auto with frame|]. intros s.
  destruct (hasErrorListener (St.world s)); auto with frame.
Qed.

Lemma keeps_keyed_spawnCliProcess options : keeps_keyed (spawnCliProcess options).
Proof.
  unfold spawnCliProcess.
  pose proof keeps_keyed_getCachedAvailability.
  pose proof keeps_keyed_spawnPtyProcess.
  apply keeps_keyed_try_catch;
    [|intros e; apply keeps_keyed_bind; [|auto with keyed];
      apply keeps_keyed_only_moves_world, only_moves_world_emit_error].
  apply keeps_keyed_bind; [assumption|]. intros availability.
  apply keeps_keyed_bind.
  { apply keeps_keyed_if; [|auto with keyed].
    apply keeps_keyed_bind; [|auto with keyed].
    apply keeps_keyed_only_moves_world, only_moves_world_handleCliNotAvailable. }
  intros _. apply keeps_keyed_bind; [auto with keyed|]. intros cliEnv.
  apply keeps_keyed_bind.
  { apply keeps_keyed_only_moves_world, only_moves_world_getSystemEnvironment. }
  intros systemEnv. apply keeps_keyed_bind; [auto with keyed|]. intros cliCommand.
  apply keeps_keyed_bind; [auto|]. intros ptyProcess.
  apply keeps_keyed_bind; [|auto with keyed].
  apply keeps_keyed_insert. reflexivity.
Qed.

Lemma keeps_keyed_sendInput panelId input : keeps_keyed (sendInput panelId input).
Proof.
  unfold sendInput. apply keeps_keyed_bind; [auto with keyed|]. intros s.
  destruct (St.processes s !! panelId); auto 10 with keyed.
Qed.

Lemma keeps_keyed_killProcess panelId : keeps_keyed (killProcess panelId).
Proof.
  unfold killProcess. apply keeps_keyed_bind; [auto with keyed|]. intros s.
  destruct (St.processes s !! panelId) as [cliProcess|]; [|auto with keyed].
  pose proof (fun pid => keeps_keyed_only_moves_world _ (only_moves_world_getAllDescendantPids pid)).
  pose proof (fun pids => keeps_keyed_only_moves_world _ (only_moves_world_getProcessInfo pids)).
  pose proof (fun sid => keeps_keyed_only_moves_world _ (only_moves_world_cleanup sid)).
  pose proof (fun p => keeps_keyed_only_moves_world _ (only_moves_world_kill_via_pty p)).
  pose proof (fun pid p sid => keeps_keyed_only_moves_world _
                (only_moves_world_killProcessTree pid p sid)).
  pose proof (fun p sid ty d => keeps_keyed_only_moves_world _
                (only_moves_world_emit_output p sid ty d)).
  apply keeps_keyed_bind; [auto 10 with keyed|]. intros killedProcesses.
  apply keeps_keyed_bind; [auto|]. intros _.
  apply keeps_keyed_bind; [auto 10 with keyed|]. intros _.
  auto with keyed.
Qed.

Lemma keeps_keyed_kill_each panelIds : keeps_keyed (kill_each panelIds).
Proof.
  pose proof keeps_keyed_killProcess.
  induction panelIds as [|panelId panelIds IH]; simpl; [auto with keyed|].
  apply keeps_keyed_bind; [auto 10 with keyed|]. intros failure.
  apply keeps_keyed_bind; [exact IH|]. intros _. destruct failure; auto with keyed.
Qed.

Lemma keeps_keyed_killAllProcesses : keeps_keyed (W := World) killAllProcesses.
Proof.
  unfold killAllProcesses. apply keeps_keyed_bind; [auto with keyed|]. intros s.
  apply keeps_keyed_kill_each.
Qed.

Lemma keeps_keyed_onData panelId sessionId h data :
  keeps_keyed (onData panelId sessionId h data).
Proof.
  unfold onData. destruct (Js.pop _) as [lastLine lines].
  apply keeps_keyed_bind; [|auto with keyed].
  unfold process_lines. apply keeps_keyed_for_each. intros line.
  apply keeps_keyed_if; [|auto with keyed].
  apply keeps_keyed_only_moves_world, only_moves_world_parse_and_emit.
Qed.

Lemma keeps_keyed_onExit ptyProcess panelId sessionId h exitCode signal :
  keeps_keyed (onExit ptyProcess panelId sessionId h exitCode signal).
Proof.
  unfold onExit.
  pose proof (fun pid => keeps_keyed_only_moves_world _ (only_moves_world_getAllDescendantPids pid)).
  pose proof (fun pids => keeps_keyed_only_moves_world _ (only_moves_world_getProcessInfo pids)).
  pose proof (fun sid => keeps_keyed_only_moves_world _ (only_moves_world_cleanup sid)).
  pose proof (fun pid p sid => keeps_keyed_only_moves_world _
                (only_moves_world_killProcessTree pid p sid)).
  pose proof (fun p sid ty d => keeps_keyed_only_moves_world _
                (only_moves_world_emit_output p sid ty d)).
  pose proof (fun d p sid => keeps_keyed_only_moves_world _
                (only_moves_world_parse_and_emit d p sid)).
  apply keeps_keyed_bind;
    [apply keeps_keyed_only_moves_world, only_moves_world_sweep_orphans|]. intros _.
  apply keeps_keyed_bind; [auto with keyed|]. intros _.
  apply keeps_keyed_bind.
  { destruct (only_moves_world_failure_handlers exitCode signal panelId sessionId
                (Handler.lastOutput h)).
    repeat apply keeps_keyed_if; auto using keeps_keyed_only_moves_world with keyed. }
  intros _. auto 10 with keyed.
Qed.

(** Every reachable state keeps its entries under their own keys. *)
Lemma reachable_keyed (s : St.t World) : reachable s -> keyed_by_panelId s.
Proof.
  induction 1 as [globals w | s s' _ IH Hstep].
  - intros key cliProcess Hlookup. simpl in Hlookup. rewrite lookup_empty in Hlookup.
    discriminate.
  - destruct Hstep as
      [ options s r s' t Hrun | panelId input s r s' t Hrun | panelId s r s' t Hrun
      | s r s' t Hrun | s r s' t Hrun | panelId sessionId h data s r s' t Hrun
      | ptyProcess panelId sessionId h exitCode signal s r s' t Hrun | s globals w ].
    + pose proof (keeps_keyed_spawnCliProcess options s IH) as H. rewrite Hrun in H. exact H.
    + pose proof (keeps_keyed_sendInput panelId input s IH) as H. rewrite Hrun in H. exact H.
    + pose proof (keeps_keyed_killProcess panelId s IH) as H. rewrite Hrun in H. exact H.
    + pose proof (keeps_keyed_killAllProcesses s IH) as H. rewrite Hrun in H. exact H.
    + injection Hrun as _ <- _. exact IH.
    + pose proof (keeps_keyed_onData panelId sessionId h data s IH) as H.
      rewrite Hrun in H. exact H.
    + pose proof (keeps_keyed_onExit ptyProcess panelId sessionId h exitCode signal s IH) as H.
      rewrite Hrun in H. exact H.
    + exact IH.
Qed.

End KeyedSteps.

(** C10. In every state reachable through the operations of the manager,
    each registry entry is stored under its own [panelId]; so [sendInput]
    never takes its panel-mismatch branch: on a registered panel it writes
    the input to the process of that panel and returns, and it throws only
    for a panel that is not registered. *)
Theorem C10_registry_keyed_by_panelId
    {World : Type} {tool : CliTool World} {host : Host World} (s : St.t World) :
  reachable s ->
  keyed_by_panelId s /\
  forall panelId input,
    result_of (sendInput panelId input s)
      <> Thrown "Panel ID mismatch: process belongs to different panel" /\
    match St.processes s !! panelId with
    | Some cliProcess =>
        sendInput panelId input s =
        (Ok tt,
         with_world s (pty_write (CliProcess.process cliProcess) input (St.world s)),
         [PtyWrite (CliProcess.process cliProcess) input])
    | None =>
        sendInput panelId input s =
        (Thrown ("No " ++ getCliToolName ++ " process found for panel " ++ panelId), s, [])
    end.
Proof.
  intros Hreach. pose proof (reachable_keyed s Hreach) as Hkeyed.
  split; [exact Hkeyed|]. intros panelId input.
  unfold sendInput. rewrite bind_get.
  destruct (St.processes s !! panelId) as [cliProcess|] eqn:Hlookup.
  - rewrite (Hkeyed panelId cliProcess Hlookup), String.eqb_refl. cbn [negb].
    unfold bind, tell, call. cbn. split; [discriminate | reflexivity].
  - unfold throw. cbn. split; [|reflexivity]. intros [=].
Qed.

(** Panel [p1] started in the demo world: a reachable state in which
    [sendInput] writes to the process of [p1]. *)
Lemma C10_registry_keyed_by_panelId_witness :
  let s := Demo.started Demo.healthy in
  reachable s /\
  sendInput "p1" "hello" s = (Ok tt, s, [PtyWrite Demo.the_pty "hello"]) /\
  result_of (sendInput "p2" "hello" s) = Thrown "No claude process found for panel p2".
Proof.
  intros s.
  assert (Hreach : reachable s).
  { apply (reachable_step (Demo.fresh Demo.healthy)); [apply reachable_initial|].
    apply (step_spawnCliProcess Demo.options _
             (result_of (spawnCliProcess Demo.options (Demo.fresh Demo.healthy)))
             _ (effects_of (spawnCliProcess Demo.options (Demo.fresh Demo.healthy)))).
    apply outcome_eta. }
  destruct (C10_registry_keyed_by_panelId s Hreach) as (_ & Hsend).
  split; [exact Hreach|]. split.
  - destruct (Hsend "p1" "hello") as (_ & Hp1).
    assert (Hlookup : St.processes s !! "p1"
                      = Some (CliProcess.mk Demo.the_pty "p1" "s1" "/tmp/wt"))
      by (vm_compute; reflexivity).
    rewrite Hlookup in Hp1. rewrite Hp1. vm_compute. reflexivity.
  - destruct (Hsend "p2" "hello") as (_ & Hp2).
    assert (Hlookup : St.processes s !! "p2" = None) by (vm_compute; reflexivity).
    rewrite Hlookup in Hp2. rewrite Hp2. reflexivity.
Defined.

(** ** Properties of effect logs that compose *)

Section Logs.

Context {W : Type}.
Variable Q : list Effect -> Prop.
Hypothesis Q_nil : Q [].
Hypothesis Q_app : forall t1 t2, Q t1 -> Q t2 -> Q (t1 ++ t2)%list.

Lemma logs_only_ret {A} (a : A) : logs_only (W := W) Q (ret a).
Proof. intros s. exact Q_nil. Qed.

Lemma logs_only_throw {A} e : logs_only (W := W) (A := A) Q (throw e).
Proof. intros s. exact Q_nil. Qed.

Lemma logs_only_get : logs_only (W := W) Q get.
Proof. intros s. exact Q_nil. Qed.

Lemma logs_only_call {A} (f : W -> A * W) : logs_only Q (call f).
Proof. intros s. unfold call. destruct (f (St.world s)). exact Q_nil. Qed.

Lemma logs_only_call_res {A} (f : W -> Res A * W) : logs_only Q (call_res f).
Proof. intros s. unfold call_res. destruct (f (St.world s)). exact Q_nil. Qed.

Lemma logs_only_set_processes f : logs_only (W := W) Q (set_processes f).
Proof. intros s. exact Q_nil. Qed.

Lemma logs_only_tell e : Q [e] -> logs_only (W := W) Q (tell e).
Proof. intros H s. exact H. Qed.

Lemma logs_only_emit e : (forall registry, Q [Emitted e registry]) -> logs_only (W := W) Q (emit e).
Proof. intros H s. apply H. Qed.

Lemma logs_only_bind {A B} (m : M W A) (k : A -> M W B) :
  logs_only Q m -> (forall a, logs_only Q (k a)) -> logs_only Q (bind m k).
Proof.
  intros Hm Hk s. specialize (Hm s). unfold bind.
  destruct (m s) as [[[a|e] s1] t1]; [|exact Hm].
  specialize (Hk a s1). destruct (k a s1) as [[r s2] t2]. apply Q_app; assumption.
Qed.

Lemma logs_only_try_catch {A} (m : M W A) (h : string -> M W A) :
  logs_only Q m -> (forall e, logs_only Q (h e)) -> logs_only Q (try_catch m h).
Proof.
  intros Hm Hh s. specialize (Hm s). unfold try_catch.
  destruct (m s) as [[[a|e] s1] t1]; [exact Hm|].
  specialize (Hh e s1). destruct (h e s1) as [[r s2] t2]. apply Q_app; assumption.
Qed.

Lemma logs_only_for_each {A} (l : list A) (f : A -> M W unit) :
  (forall x, logs_only Q (f x)) -> logs_only Q (for_each l f).
Proof.
  intros Hf. induction l as [|x l IH]; simpl.
  - apply logs_only_ret.
  - apply logs_only_bind; [apply Hf | intros _; exact IH].
Qed.

Lemma logs_only_if {A} (b : bool) (m1 m2 : M W A) :
  logs_only Q m1 -> logs_only Q m2 -> logs_only Q (if b then m1 else m2).
Proof. destruct b; auto. Qed.

End Logs.

Create HintDb logs discriminated.

#[export] Hint Resolve logs_only_ret logs_only_throw logs_only_get logs_only_call
  logs_only_call_res logs_only_set_processes logs_only_tell logs_only_emit logs_only_bind
  logs_only_try_catch logs_only_for_each logs_only_if : logs.

Lemma emitted_app t1 t2 : emitted (t1 ++ t2) = (emitted t1 ++ emitted t2)%list.
Proof. unfold emitted. apply flat_map_app. Qed.

Lemma exit_events_app t1 t2 : exit_events (t1 ++ t2) = (exit_events t1 ++ exit_events t2)%list.
Proof. unfold exit_events. rewrite emitted_app. apply List.filter_app. Qed.

Lemma emits_nothing_nil : emits_nothing [].
Proof. reflexivity. Qed.

Lemma emits_nothing_app t1 t2 : emits_nothing t1 -> emits_nothing t2 -> emits_nothing (t1 ++ t2).
Proof. unfold emits_nothing. rewrite emitted_app. intros -> ->. reflexivity. Qed.

Lemma no_exit_event_nil : no_exit_event [].
Proof. reflexivity. Qed.

Lemma no_exit_event_app t1 t2 : no_exit_event t1 -> no_exit_event t2 -> no_exit_event (t1 ++ t2).
Proof. unfold no_exit_event. rewrite exit_events_app. intros -> ->. reflexivity. Qed.

Lemma no_parser_call_nil : no_parser_call [].
Proof. reflexivity. Qed.

Lemma no_parser_call_app t1 t2 :
  no_parser_call t1 -> no_parser_call t2 -> no_parser_call (t1 ++ t2).
Proof. unfold no_parser_call, parser_calls. rewrite flat_map_app. intros -> ->. reflexivity. Qed.

Lemma enumerations_app t1 t2 :
  enumerations (t1 ++ t2) = (enumerations t1 ++ enumerations t2)%list.
Proof. unfold enumerations. apply flat_map_app. Qed.

Lemma no_enumeration_nil : no_enumeration [].
Proof. reflexivity. Qed.

Lemma no_enumeration_app t1 t2 :
  no_enumeration t1 -> no_enumeration t2 -> no_enumeration (t1 ++ t2).
Proof. unfold no_enumeration. rewrite enumerations_app. intros -> ->. reflexivity. Qed.

#[export] Hint Resolve emits_nothing_nil emits_nothing_app no_exit_event_nil no_exit_event_app
  no_parser_call_nil no_parser_call_app no_enumeration_nil no_enumeration_app : logs.

(** One step through the structure of an operation, for a log property
    whose closure under [[]] and [++] is among the hypotheses. *)
Ltac logs_step :=
  first [ apply logs_only_ret; assumption
        | apply logs_only_throw; assumption
        | apply logs_only_get; assumption
        | apply logs_only_call; assumption
        | apply logs_only_call_res; assumption
        | apply logs_only_set_processes; assumption
        | apply logs_only_tell; solve [auto]
        | apply logs_only_emit; solve [auto]
        | apply logs_only_bind; [assumption | | intros ?]
        | apply logs_only_try_catch; [assumption | | intros ?]
        | apply logs_only_for_each; [assumption | assumption | intros ?]
        | apply logs_only_if ].

(** ** Killing a process tree *)

Section KillTree.

Context {World : Type} {tool : CliTool World} {host : Host World}.

Lemma never_throws_sleep ms : never_throws (sleep (host := host) ms).
Proof. unfold sleep. auto with total. Qed.

Lemma never_throws_emit_output panelId sessionId type data :
  never_throws (emit_output (host := host) panelId sessionId type data).
Proof.
  unfold emit_output. apply never_throws_bind; [|auto with total].
  intros s. eexists _, _, _. reflexivity.
Qed.

Lemma getAllDescendantPids_run pid (s : St.t World) :
  let descendants := descendants_of pid (fst (ps_children pid (St.world s))) in
  getAllDescendantPids pid s =
  (Ok descendants, with_world s (snd (ps_children pid (St.world s))),
   [Enumerated pid descendants]).
Proof.
  unfold getAllDescendantPids, bind, call, tell, ret. simpl.
  destruct (ps_children pid (St.world s)) as [reply w]. reflexivity.
Qed.

(** Name resolution never throws, logs nothing, and returns one entry per
    pid, in order, each with a non-empty name. *)
Lemma getProcessInfo_run pids : forall s : St.t World,
  exists infos s',
    getProcessInfo pids s = (Ok infos, s', []) /\
    map fst infos = pids /\
    Forall (fun info => Js.truthy (snd info) = true) infos /\
    St.processes s' = St.processes s.
Proof.
  assert (Hname : forall name, Js.truthy (or_unknown name) = true).
  { intros [[|c n]|]; reflexivity. }
  induction pids as [|pid pids IH]; intros s.
  - exists [], s. repeat split. constructor.
  - simpl. unfold bind at 1, try_catch, bind at 1, call_res, ret.
    destruct (ps_name pid (St.world s)) as [[result|e] w]; simpl.
    + match goal with |- context [bind (getProcessInfo pids) ?k ?s1] =>
        destruct (IH s1) as (infos & s' & Hrun & Hpids & Hnames & Hreg);
        rewrite (bind_ok _ k _ _ _ _ Hrun) end.
      eexists _, _. split; [reflexivity|].
      simpl. rewrite Hpids. repeat split; [|exact Hreg].
      constructor; [apply Hname | exact Hnames].
    + match goal with |- context [bind (getProcessInfo pids) ?k ?s1] =>
        destruct (IH s1) as (infos & s' & Hrun & Hpids & Hnames & Hreg);
        rewrite (bind_ok _ k _ _ _ _ Hrun) end.
      eexists _, _. split; [reflexivity|].
      simpl. rewrite Hpids. repeat split; [|exact Hreg].
      constructor; [reflexivity | exact Hnames].
Qed.

Lemma never_throws_ignoring_errors (m : M World unit) : never_throws (ignoring_errors m).
Proof. unfold ignoring_errors. auto with total. Qed.

(** Every kill command is wrapped: the platform branch never throws, and
    it emits nothing. *)
Lemma never_throws_kill_commands pid descendantPids :
  never_throws (kill_commands (host := host) pid descendantPids).
Proof.
  unfold kill_commands.
  pose proof never_throws_ignoring_errors. pose proof never_throws_sleep.
  destruct os_platform; auto 20 with total.
Qed.

Lemma logs_only_kill_commands (Q : list Effect -> Prop) pid descendantPids :
  Q [] -> (forall t1 t2, Q t1 -> Q t2 -> Q (t1 ++ t2)%list) ->
  (forall c, Q [OsCall c]) -> (forall ms, Q [Slept ms]) ->
  logs_only Q (kill_commands (host := host) pid descendantPids).
Proof.
  intros Hnil Happ Hos Hslept.
  assert (Hsleep : forall ms, logs_only Q (sleep (host := host) ms)).
  { intros ms s. apply Hslept. }
  unfold kill_commands, ignoring_errors, os.
  destruct os_platform; repeat first [apply Hsleep | logs_step].
Qed.

Lemma kill_commands_quiet pid descendantPids :
  logs_only emits_nothing (kill_commands (host := host) pid descendantPids) /\
  logs_only no_enumeration (kill_commands (host := host) pid descendantPids).
Proof. split; apply logs_only_kill_commands; auto with logs; reflexivity. Qed.

(** The message lists every process it is given. *)
Lemma includes_app_l (s rest needle : string) :
  Js.includes s needle = true -> Js.includes (s ++ rest) needle = true.
Proof.
  assert (Hprefix : forall n s0, String.prefix n s0 = true -> String.prefix n (s0 ++ rest) = true).
  { induction n as [|c n IHn]; intros [|d s0]; simpl; try discriminate; try reflexivity.
    - destruct rest; reflexivity.
    - destruct (ascii_dec c d); [apply IHn | discriminate]. }
  induction s as [|c s IH]; cbn [Js.includes].
  - destruct (String.prefix needle EmptyString) eqn:Hp; [|discriminate].
    intros _. rewrite string_app_nil_l.
    destruct needle; [|discriminate]. destruct rest; reflexivity.
  - destruct (String.prefix needle (String c s)) eqn:Hp.
    + intros _. apply (Hprefix _ _) in Hp. rewrite string_app_cons in *.
      cbn [Js.includes]. rewrite Hp. reflexivity.
    + intros H. rewrite string_app_cons. cbn [Js.includes]. rewrite (IH H).
      destruct (String.prefix needle (String c (s ++ rest))); reflexivity.
Qed.

Lemma includes_join sep (l : list string) (x : string) :
  In x l -> Js.includes (Js.join sep l) x = true.
Proof.
  unfold Js.join. induction l as [|y l IH]; [intros []|].
  intros [-> | Hin].
  - destruct l; simpl; [apply includes_self | apply includes_prefix].
  - destruct l as [|z l]; [destruct Hin|].
    change (String.concat sep (y :: z :: l)) with (y ++ sep ++ String.concat sep (z :: l)).
    do 2 apply includes_app_r. apply IH, Hin.
Qed.

Lemma zombie_warning_lists remainingPids (remainingProcesses : list (Z * string)) pid name :
  In (pid, name) remainingProcesses ->
  Js.truthy name = true ->
  Js.includes (zombie_warning remainingPids remainingProcesses)
              (name ++ "(" ++ Js.show_int pid ++ ")") = true.
Proof.
  intros Hin Hname. unfold zombie_warning.
  do 6 apply includes_app_r. apply includes_app_l.
  unfold processReport. apply includes_join.
  apply in_map_iff. exists (pid, name). split; [|exact Hin].
  simpl. destruct name; [discriminate | reflexivity].
Qed.

Lemma sleep_run ms (s : St.t World) :
  sleep ms s = (Ok tt, with_world s (setTimeout ms (St.world s)), [Slept ms]).
Proof. reflexivity. Qed.

Lemma emit_output_run panelId sessionId type data (s : St.t World) :
  emit_output panelId sessionId type data s =
  (Ok tt, s,
   [Emitted (OutputEvent (CliOutputEvent.mk panelId sessionId type data (Date_now (St.world s))))
            (St.processes s)]).
Proof. reflexivity. Qed.

(** The verification step: what is left after the settle delay decides
    the result, and is reported when there is anything left. *)
Lemma verify_killed_run pid panelId sessionId (s : St.t World) :
  exists remainingPids s' report,
    verify_killed pid panelId sessionId s =
      (Ok (negb (0 <? length remainingPids)%nat), s',
       Slept 500 :: Enumerated pid remainingPids :: report) /\
    St.processes s' = St.processes s /\
    match remainingPids with
    | [] => report = []
    | _ :: _ =>
        exists remainingProcesses timestamp,
          map fst remainingProcesses = remainingPids /\
          Forall (fun info => Js.truthy (snd info) = true) remainingProcesses /\
          report = [Emitted (OutputEvent (CliOutputEvent.mk panelId sessionId stderr
                               (Text (zombie_warning remainingPids remainingProcesses))
                               timestamp))
                            (St.processes s)]
    end.
Proof.
  unfold verify_killed.
  rewrite (bind_ok _ _ _ _ _ _ (sleep_run 500 s)).
  set (s1 := with_world s (setTimeout 500 (St.world s))).
  rewrite (bind_ok _ _ _ _ _ _ (getAllDescendantPids_run pid s1)).
  set (remainingPids := descendants_of pid (fst (ps_children pid (St.world s1)))).
  set (s2 := with_world s1 (snd (ps_children pid (St.world s1)))).
  exists remainingPids.
  destruct remainingPids as [|first others] eqn:Hremaining.
  - exists s2, []. cbn. repeat split.
  - change (0 <? length (first :: others))%nat with true. cbv iota.
    destruct (getProcessInfo_run (first :: others) s2) as (infos & s3 & Hinfo & Hpids & Hnames & Hreg).
    rewrite (bind_ok _ _ _ _ _ _ Hinfo).
    rewrite (bind_ok _ _ _ _ _ _ (emit_output_run _ _ _ _ s3)).
    eexists s3, _. split; [cbn; reflexivity|]. split; [exact Hreg|].
    exists infos, (Date_now (St.world s3)). rewrite Hreg. repeat split; assumption.
Qed.

(** [killProcessTree] from start to end. *)
Lemma killProcessTree_run pid panelId sessionId (s : St.t World) :
  exists descendantPids kills remainingPids report s',
    killProcessTree pid panelId sessionId s =
      (Ok (negb (0 <? length remainingPids)%nat), s',
       (Enumerated pid descendantPids :: kills ++
        Slept 500 :: Enumerated pid remainingPids :: report)%list) /\
    emitted kills = [] /\ enumerations kills = [] /\ enumerations report = [] /\
    St.processes s' = St.processes s /\
    match remainingPids with
    | [] => emitted report = []
    | _ :: _ =>
        exists remainingProcesses timestamp,
          map fst remainingProcesses = remainingPids /\
          Forall (fun info => Js.truthy (snd info) = true) remainingProcesses /\
          emitted report =
            [(OutputEvent (CliOutputEvent.mk panelId sessionId stderr
                             (Text (zombie_warning remainingPids remainingProcesses))
                             timestamp),
              St.processes s)]
    end.
Proof.
  unfold killProcessTree.
  rewrite (bind_ok _ _ _ _ _ _ (getAllDescendantPids_run pid s)).
  set (descendantPids := descendants_of pid (fst (ps_children pid (St.world s)))).
  set (s1 := with_world s (snd (ps_children pid (St.world s)))).
  destruct (never_throws_kill_commands pid descendantPids s1) as ([] & s2 & kills & Hkill).
  destruct (kill_commands_quiet pid descendantPids) as (Hquiet & Hnoenum).
  specialize (Hquiet s1). specialize (Hnoenum s1).
  pose proof (only_moves_world_kill_commands pid descendantPids s1) as (Hreg2 & _).
  rewrite Hkill in Hquiet, Hnoenum, Hreg2.
  cbn [effects_of state_of fst snd] in Hquiet, Hnoenum, Hreg2.
  destruct (verify_killed_run pid panelId sessionId s2)
    as (remainingPids & s3 & report & Hverify & Hreg3 & Hreport).
  assert (Hbody : try_catch
                    (bind (kill_commands pid descendantPids)
                          (fun _ => verify_killed pid panelId sessionId))
                    (fun _ => ret false) s1
                  = (Ok (negb (0 <? length remainingPids)%nat), s3,
                     (kills ++ Slept 500 :: Enumerated pid remainingPids :: report)%list)).
  { apply try_catch_ok. rewrite (bind_ok _ _ _ _ _ _ Hkill), Hverify. reflexivity. }
  rewrite (bind_ok _ _ _ _ _ _ Hbody).
  set (final := ignoring_errors
                  (bind get (fun s0 : St.t World =>
                     match St.processes s0 !! panelId with
                     | Some cliProcess => kill_via_pty (CliProcess.process cliProcess)
                     | None => ret tt
                     end))).
  destruct (never_throws_ignoring_errors
              (bind get (fun s0 : St.t World =>
                 match St.processes s0 !! panelId with
                 | Some cliProcess => kill_via_pty (CliProcess.process cliProcess)
                 | None => ret tt
                 end)) s3) as ([] & s4 & t4 & Hfinal).
  fold final in Hfinal.
  assert (Hlog : forall Q : list Effect -> Prop,
            Q [] -> (forall t1 t2, Q t1 -> Q t2 -> Q (t1 ++ t2)%list) ->
            (forall p, Q [PtyKill p]) -> Q t4).
  { intros Q Hnil Happ Hkilled.
    assert (H : logs_only Q final).
    { subst final. unfold ignoring_errors, kill_via_pty.
      logs_step; [|logs_step]. logs_step; [logs_step|].
      match goal with |- context [St.processes ?s0 !! panelId] =>
        destruct (St.processes s0 !! panelId) end; repeat logs_step. }
    specialize (H s3). rewrite Hfinal in H. exact H. }
  assert (Hquiet4 : emitted t4 = [])
    by (apply (Hlog emits_nothing); auto with logs; reflexivity).
  assert (Hnoenum4 : enumerations t4 = [])
    by (apply (Hlog no_enumeration); auto with logs; reflexivity).
  assert (Hreg4 : St.processes s4 = St.processes s3).
  { assert (Hframe : only_moves_world final).
    { subst final. unfold ignoring_errors.
      apply only_moves_world_try_catch; auto with frame.
      apply only_moves_world_bind; auto with frame. intros s0.
      destruct (St.processes s0 !! panelId); auto using only_moves_world_kill_via_pty with frame. }
    destruct (Hframe s3) as (Hp & _). rewrite Hfinal in Hp. exact Hp. }
  rewrite (bind_ok _ _ _ _ _ _ Hfinal).
  exists descendantPids, kills, remainingPids, (report ++ t4)%list, s4.
  split.
  { cbn [result_of state_of effects_of fst snd ret]. rewrite app_nil_r.
    cbn [app]. rewrite <- app_assoc. reflexivity. }
  split; [exact Hquiet|]. split; [exact Hnoenum|].
  split.
  { rewrite enumerations_app, Hnoenum4, app_nil_r.
    destruct remainingPids as [|first others]; [rewrite Hreport; reflexivity|].
    destruct Hreport as (infos & timestamp & _ & _ & ->). reflexivity. }
  split; [rewrite Hreg4, Hreg3, Hreg2; reflexivity|].
  rewrite emitted_app, Hquiet4, app_nil_r.
  destruct remainingPids as [|first others].
  - rewrite Hreport. reflexivity.
  - destruct Hreport as (infos & timestamp & Hpids & Hnames & ->).
    exists infos, timestamp. rewrite Hreg2. repeat split; assumption.
Qed.

End KillTree.

(** Two children of the demo process survive every kill command: the
    result is [false] and the warning names both. *)
Example killProcessTree_reports_zombies :
  let outcome := killProcessTree 4242 "p1" "s1" (Demo.started Demo.with_zombies) in
  result_of outcome = Ok false /\
  map fst (emitted (effects_of outcome)) =
    [OutputEvent (CliOutputEvent.mk "p1" "s1" stderr
       (Text (Js.nl ++ "[WARNING] Failed to terminate 2 child processes: node(4243), node(4244)"
                ++ Js.nl ++ "Please manually kill these processes." ++ Js.nl))
       1740)].
Proof. split; vm_compute; reflexivity. Qed.

(** ** The exit listener *)

Section ExitListener.

Context {World : Type} {tool : CliTool World} {host : Host World}.

Lemma for_each_emit_run (events : list CliOutputEvent.t) (s : St.t World) :
  for_each events (fun event => emit (OutputEvent event)) s =
  (Ok tt, s, map (fun event => Emitted (OutputEvent event) (St.processes s)) events).
Proof.
  induction events as [|event events IH]; [reflexivity|].
  simpl. unfold bind, emit at 1. rewrite IH. reflexivity.
Qed.

(** A parser call and the events it produced, emitted in order. *)
Lemma parse_and_emit_run data panelId sessionId (s : St.t World) :
  let parsed := parseCliOutput data panelId sessionId (St.world s) in
  parse_and_emit data panelId sessionId s =
  (Ok tt, with_world s (snd parsed),
   ParserCall data
     :: map (fun event => Emitted (OutputEvent event) (St.processes s)) (fst parsed)).
Proof.
  intros parsed. unfold parse_and_emit, parse, bind at 1 2, tell, call.
  fold parsed. destruct parsed as [events w]. cbn [fst snd].
  rewrite for_each_emit_run. reflexivity.
Qed.

Lemma never_throws_getAllDescendantPids pid :
  never_throws (getAllDescendantPids (host := host) pid).
Proof. intros s. rewrite getAllDescendantPids_run. eexists _, _, _. reflexivity. Qed.

Lemma never_throws_getProcessInfo pids : never_throws (getProcessInfo (host := host) pids).
Proof.
  intros s. destruct (getProcessInfo_run pids s) as (infos & s' & Hrun & _).
  eexists _, _, _. exact Hrun.
Qed.

Lemma never_throws_killProcessTree pid panelId sessionId :
  never_throws (killProcessTree (host := host) pid panelId sessionId).
Proof.
  intros s. destruct (killProcessTree_run pid panelId sessionId s)
    as (d & kills & remaining & report & s' & Hrun & _).
  eexists _, _, _. exact Hrun.
Qed.

Lemma never_throws_sweep_orphans ptyProcess panelId sessionId :
  never_throws (sweep_orphans ptyProcess panelId sessionId).
Proof.
  unfold sweep_orphans.
  pose proof never_throws_getAllDescendantPids. pose proof never_throws_getProcessInfo.
  pose proof never_throws_killProcessTree. pose proof never_throws_emit_output.
  auto 20 with total.
Qed.

Lemma never_throws_failure_handlers exitCode signal panelId sessionId lastOutput :
  never_throws (handleProcessStartupFailure exitCode signal panelId sessionId lastOutput) /\
  never_throws (handleProcessRuntimeFailure exitCode signal panelId sessionId lastOutput).
Proof.
  unfold handleProcessStartupFailure, handleProcessRuntimeFailure.
  split; apply never_throws_emit_output.
Qed.

(** Logs of the operations that run before the cleanup hook. *)
Section ExitLogs.

Variable Q : list Effect -> Prop.
Hypothesis Q_nil : Q [].
Hypothesis Q_app : forall t1 t2, Q t1 -> Q t2 -> Q (t1 ++ t2)%list.
Hypothesis Q_output : forall e registry, Q [Emitted (OutputEvent e) registry].
Hypothesis Q_enumerated : forall root pids, Q [Enumerated root pids].
Hypothesis Q_slept : forall ms, Q [Slept ms].
Hypothesis Q_os : forall c, Q [OsCall c].
Hypothesis Q_kill : forall p, Q [PtyKill p].

Lemma logs_only_emit_output panelId sessionId type data :
  logs_only Q (emit_output (host := host) panelId sessionId type data).
Proof. intros s. rewrite emit_output_run. apply Q_output. Qed.

Lemma logs_only_getProcessInfo pids : logs_only Q (getProcessInfo (host := host) pids).
Proof.
  intros s. destruct (getProcessInfo_run pids s) as (infos & s' & -> & _). exact Q_nil.
Qed.

Lemma logs_only_sleep ms : logs_only Q (sleep (host := host) ms).
Proof. intros s. rewrite sleep_run. apply Q_slept. Qed.

Lemma logs_only_getAllDescendantPids pid : logs_only Q (getAllDescendantPids (host := host) pid).
Proof. intros s. rewrite getAllDescendantPids_run. apply Q_enumerated. Qed.

Lemma logs_only_killProcessTree pid panelId sessionId :
  logs_only Q (killProcessTree (host := host) pid panelId sessionId).
Proof.
  pose proof Q_nil. pose proof Q_app. pose proof Q_os. pose proof Q_kill.
  unfold killProcessTree.
  logs_step; [apply logs_only_getAllDescendantPids|].
  logs_step; [|repeat logs_step;
               match goal with |- context [St.processes ?s !! panelId] =>
                 destruct (St.processes s !! panelId) end;
               unfold kill_via_pty; repeat logs_step].
  logs_step; [|logs_step]. logs_step.
  - unfold kill_commands, ignoring_errors, os.
    destruct os_platform; repeat first [apply logs_only_sleep | logs_step].
  - unfold verify_killed.
    repeat first [ apply logs_only_sleep | apply logs_only_getAllDescendantPids
                 | apply logs_only_getProcessInfo | apply logs_only_emit_output
                 | logs_step ].
Qed.

Lemma logs_only_sweep_orphans ptyProcess panelId sessionId :
  logs_only Q (sweep_orphans ptyProcess panelId sessionId).
Proof.
  pose proof Q_nil. pose proof Q_app.
  unfold sweep_orphans.
  repeat first [ apply logs_only_getAllDescendantPids | apply logs_only_getProcessInfo
               | apply logs_only_emit_output | apply logs_only_killProcessTree
               | logs_step ].
Qed.

Lemma logs_only_failure_handlers exitCode signal panelId sessionId lastOutput :
  logs_only Q (handleProcessStartupFailure exitCode signal panelId sessionId lastOutput) /\
  logs_only Q (handleProcessRuntimeFailure exitCode signal panelId sessionId lastOutput).
Proof.
  unfold handleProcessStartupFailure, handleProcessRuntimeFailure.
  split; apply logs_only_emit_output.
Qed.

End ExitLogs.

Lemma cleanup_run sessionId (s : St.t World) :
  cleanup sessionId s =
  (fst (cleanupCliResources sessionId (St.world s)),
   with_world s (snd (cleanupCliResources sessionId (St.world s))),
   [CleanupCall sessionId]).
Proof.
  unfold cleanup, bind, tell, call_res. simpl.
  destruct (cleanupCliResources sessionId (St.world s)) as [r w]. reflexivity.
Qed.

(** The exit listener from start to end: the sweep, the flush of the
    buffer, the failure report, then the cleanup hook; if the hook returns,
    the exit event is emitted with the registry as the listener found it, and
    the entry is deleted after that. *)
Lemma onExit_run ptyProcess panelId sessionId h exitCode signal (s : St.t World) :
  exists sweep s1 handled s3,
    let buffer := Handler.buffer h in
    let parsed := parseCliOutput buffer panelId sessionId (St.world s1) in
    let flush := if Js.truthy (Js.trim buffer)
                 then ParserCall buffer
                        :: map (fun event => Emitted (OutputEvent event) (St.processes s)) (fst parsed)
                 else [] in
    let before := (sweep ++ flush ++ handled)%list in
    let cleaned := cleanupCliResources sessionId (St.world s3) in
    sweep_orphans ptyProcess panelId sessionId s = (Ok tt, s1, sweep) /\
    exit_events sweep = [] /\ parser_calls sweep = [] /\
    exit_events handled = [] /\ parser_calls handled = [] /\
    St.processes s3 = St.processes s /\
    onExit ptyProcess panelId sessionId h exitCode signal s =
    match fst cleaned with
    | Ok _ =>
        (Ok tt,
         St.mk (delete panelId (St.processes s)) (St.availabilityCache s3) (St.globals s3)
               (snd cleaned),
         (before ++ [CleanupCall sessionId;
                     Emitted (ExitEvent panelId sessionId (Some exitCode) signal)
                             (St.processes s)])%list)
    | Thrown e =>
        (Thrown e, with_world s3 (snd cleaned), (before ++ [CleanupCall sessionId])%list)
    end.
Proof.
  destruct (never_throws_sweep_orphans ptyProcess panelId sessionId s)
    as ([] & s1 & sweep & Hsweep).
  pose proof (only_moves_world_sweep_orphans ptyProcess panelId sessionId s) as (Hreg1 & _).
  rewrite Hsweep in Hreg1. cbn [state_of fst snd] in Hreg1.
  assert (Hsweep_exit : exit_events sweep = []).
  { pose proof (logs_only_sweep_orphans no_exit_event no_exit_event_nil no_exit_event_app
                  ltac:(reflexivity) ltac:(reflexivity) ltac:(reflexivity)
                  ltac:(reflexivity) ltac:(reflexivity)
                  ptyProcess panelId sessionId s) as H.
    rewrite Hsweep in H. exact H. }
  assert (Hsweep_parse : parser_calls sweep = []).
  { pose proof (logs_only_sweep_orphans no_parser_call no_parser_call_nil no_parser_call_app
                  ltac:(reflexivity) ltac:(reflexivity) ltac:(reflexivity)
                  ltac:(reflexivity) ltac:(reflexivity)
                  ptyProcess panelId sessionId s) as H.
    rewrite Hsweep in H. exact H. }
  set (buffer := Handler.buffer h).
  set (flushing := if Js.truthy (Js.trim buffer)
                   then parse_and_emit buffer panelId sessionId
                   else ret tt).
  set (parsed := parseCliOutput buffer panelId sessionId (St.world s1)).
  assert (Hflush : exists s2,
             flushing s1 =
               (Ok tt, s2,
                if Js.truthy (Js.trim buffer)
                then ParserCall buffer
                       :: map (fun event => Emitted (OutputEvent event) (St.processes s)) (fst parsed)
                else []) /\
             St.processes s2 = St.processes s).
  { subst flushing. destruct (Js.truthy (Js.trim buffer)).
    - rewrite parse_and_emit_run. fold parsed. rewrite Hreg1. eexists.
      split; [reflexivity | exact Hreg1].
    - exists s1. split; [reflexivity | exact Hreg1]. }
  destruct Hflush as (s2 & Hflush & Hreg2).
  set (handling := if negb (exitCode =? 0) then
                     if negb (Handler.hasReceivedOutput h)
                     then handleProcessStartupFailure exitCode signal panelId sessionId
                            (Handler.lastOutput h)
                     else handleProcessRuntimeFailure exitCode signal panelId sessionId
                            (Handler.lastOutput h)
                   else ret tt).
  destruct (never_throws_failure_handlers exitCode signal panelId sessionId
              (Handler.lastOutput h)) as (Hstart_total & Hrun_total).
  destruct (only_moves_world_failure_handlers exitCode signal panelId sessionId
              (Handler.lastOutput h)) as (Hstart_frame & Hrun_frame).
  assert (Htotal : never_throws handling) by (subst handling; auto with total).
  assert (Hframe : only_moves_world handling) by (subst handling; auto with frame).
  destruct (Htotal s2) as ([] & s3 & handled & Hhandle).
  pose proof (Hframe s2) as (Hreg3 & _). rewrite Hhandle in Hreg3.
  cbn [state_of fst snd] in Hreg3.
  assert (Hhandled_exit : exit_events handled = []).
  { destruct (logs_only_failure_handlers no_exit_event ltac:(reflexivity)
                exitCode signal panelId sessionId (Handler.lastOutput h)) as (H1 & H2).
    assert (H : logs_only no_exit_event handling)
      by (subst handling; repeat apply logs_only_if; auto with logs).
    specialize (H s2). rewrite Hhandle in H. exact H. }
  assert (Hhandled_parse : parser_calls handled = []).
  { destruct (logs_only_failure_handlers no_parser_call ltac:(reflexivity)
                exitCode signal panelId sessionId (Handler.lastOutput h)) as (H1 & H2).
    assert (H : logs_only no_parser_call handling)
      by (subst handling; repeat apply logs_only_if; auto with logs).
    specialize (H s2). rewrite Hhandle in H. exact H. }
  exists sweep, s1, handled, s3. cbv zeta. fold buffer. fold parsed.
  split; [exact Hsweep|]. split; [exact Hsweep_exit|]. split; [exact Hsweep_parse|].
  split; [exact Hhandled_exit|]. split; [exact Hhandled_parse|].
  split; [rewrite Hreg3, Hreg2; reflexivity|].
  unfold onExit. fold buffer. fold flushing. fold handling.
  rewrite (bind_ok _ _ _ _ _ _ Hsweep), (bind_ok _ _ _ _ _ _ Hflush),
    (bind_ok _ _ _ _ _ _ Hhandle).
  pose proof (cleanup_run sessionId s3) as Hclean.
  destruct (cleanupCliResources sessionId (St.world s3)) as [[[]|e] w]; cbn [fst snd] in *.
  - rewrite (bind_ok _ _ _ _ _ _ Hclean). unfold bind, emit, set_processes.
    cbn [result_of state_of effects_of fst snd with_world St.processes St.availabilityCache
         St.globals St.world].
    rewrite Hreg3, Hreg2. rewrite <- !app_assoc. reflexivity.
  - rewrite (bind_thrown _ _ _ _ _ _ Hclean).
    cbn [result_of state_of effects_of fst snd]. rewrite <- !app_assoc. reflexivity.
Qed.

End ExitListener.



(** C5 as stated fails: a buffer that holds one space is not empty, and
    the exit listener does not hand it to the parser. *)
Lemma C5_blank_fragment_is_not_flushed :
  let fed := onData "p1" "s1" Handler.initial " " (Demo.started Demo.healthy) in
  exists h,
    result_of fed = Ok h /\
    Handler.buffer h = " " /\
    Handler.buffer h <> EmptyString /\
    parser_calls (effects_of (onExit Demo.the_pty "p1" "s1" h 0 None (state_of fed))) = [].
Proof.
  eexists. split; [vm_compute; reflexivity|].
  split; [reflexivity|]. split; [discriminate | vm_compute; reflexivity].
Qed.

(** C5, amended. At process exit a buffer that holds anything but white
    space is handed to the parser exactly once, as it is, right after the
    sweep for orphaned children; the output events the parser returns are
    emitted right after the call, in order, and before the exit event; a
    buffer of white space only (or an empty one) is dropped without a parser
    call. *)
Theorem C5_final_fragment_flushed_once
    {World : Type} {tool : CliTool World} {host : Host World}
    (ptyProcess : IPty.t) (panelId sessionId : string) (h : Handler.t)
    (exitCode : Z) (signal : option Z) (s : St.t World) :
  let buffer := Handler.buffer h in
  let outcome := onExit ptyProcess panelId sessionId h exitCode signal s in
  let exit := ExitEvent panelId sessionId (Some exitCode) signal in
  let swept := sweep_orphans ptyProcess panelId sessionId s in
  let parsed := parseCliOutput buffer panelId sessionId (St.world (state_of swept)) in
  (Js.truthy (Js.trim buffer) = true ->
   parser_calls (effects_of outcome) = [buffer] /\
   exists after,
     effects_of outcome =
       (effects_of swept ++ ParserCall buffer
          :: map (fun event => Emitted (OutputEvent event) (St.processes s)) (fst parsed)
          ++ after)%list /\
     parser_calls (effects_of swept) = [] /\ exit_events (effects_of swept) = [] /\
     parser_calls after = [] /\
     (forall done, result_of outcome = Ok done ->
        exit_events after = [(exit, St.processes s)])) /\
  (Js.truthy (Js.trim buffer) = false -> parser_calls (effects_of outcome) = []).
Proof.
  intros buffer outcome exit swept parsed. subst outcome.
  destruct (onExit_run ptyProcess panelId sessionId h exitCode signal s)
    as (sweep & s1 & handled & s3 & Hrun).
  cbv zeta in Hrun. fold buffer in Hrun.
  destruct Hrun as (Hswept & Hsweep_exit & Hsweep & Hhandled_exit & Hhandled & _ & Hrun).
  subst parsed swept. rewrite Hswept. cbn [state_of effects_of fst snd].
  assert (Hevents : forall events : list CliOutputEvent.t,
            parser_calls (map (fun event => Emitted (OutputEvent event) (St.processes s)) events)
            = []).
  { induction events; [reflexivity | assumption]. }
  split; intros Htrim; rewrite Htrim in Hrun; rewrite Hrun.
  - destruct (fst (cleanupCliResources sessionId (St.world s3))) as [[]|e];
      cbn [result_of state_of effects_of fst snd].
    + split.
      * rewrite !parser_calls_app, Hsweep, Hhandled. simpl. rewrite Hevents. reflexivity.
      * exists (handled ++ [CleanupCall sessionId; Emitted exit (St.processes s)])%list.
        split; [rewrite <- !app_assoc; reflexivity|].
        split; [exact Hsweep|]. split; [exact Hsweep_exit|].
        split; [rewrite parser_calls_app, Hhandled; reflexivity|].
        intros _ _. rewrite exit_events_app, Hhandled_exit. reflexivity.
    + split.
      * rewrite !parser_calls_app, Hsweep, Hhandled. simpl. rewrite Hevents. reflexivity.
      * exists (handled ++ [CleanupCall sessionId])%list.
        split; [rewrite <- !app_assoc; reflexivity|].
        split; [exact Hsweep|]. split; [exact Hsweep_exit|].
        split; [rewrite parser_calls_app, Hhandled; reflexivity|].
        intros done Hdone. discriminate.
  - destruct (fst (cleanupCliResources sessionId (St.world s3))) as [[]|e];
      cbn [result_of state_of effects_of fst snd];
      rewrite !parser_calls_app, Hsweep, Hhandled; reflexivity.
Qed.

(** The fragment [tail] left in the buffer when the demo process exits is
    parsed once, and its event comes before the exit event. *)
Lemma C5_final_fragment_flushed_once_witness :
  let h := Handler.mk true ("done" ++ Js.nl ++ "tail") "tail" in
  let outcome := onExit Demo.the_pty "p1" "s1" h 0 None (Demo.started Demo.healthy) in
  Js.truthy (Js.trim (Handler.buffer h)) = true /\
  parser_calls (effects_of outcome) = ["tail"] /\
  map fst (emitted (effects_of outcome)) =
    [OutputEvent (CliOutputEvent.mk "p1" "s1" json (Json "tail") 1040);
     ExitEvent "p1" "s1" (Some 0) None].
Proof.
  intros h outcome.
  assert (Htrim : Js.truthy (Js.trim (Handler.buffer h)) = true) by (vm_compute; reflexivity).
  destruct (C5_final_fragment_flushed_once Demo.the_pty "p1" "s1" h 0 None
              (Demo.started Demo.healthy)) as (Hflush & _).
  destruct (Hflush Htrim) as (Hcalls & _).
  split; [exact Htrim|]. split; [exact Hcalls | vm_compute; reflexivity].
Defined.


(** * Further properties of the manager *)

(** ** States related across an operation *)

Section Within.

Context {W : Type}.
Variable R : St.t W -> St.t W -> Prop.
Hypothesis R_refl : forall s, R s s.
Hypothesis R_trans : forall s1 s2 s3, R s1 s2 -> R s2 s3 -> R s1 s3.
Hypothesis R_world : forall s w, R s (with_world s w).

Lemma stays_within_ret {A} (a : A) : stays_within R (ret a).
Proof. intros s. apply R_refl. Qed.

Lemma stays_within_throw {A} e : stays_within (A := A) R (throw e).
Proof. intros s. apply R_refl. Qed.

Lemma stays_within_get : stays_within R get.
Proof. intros s. apply R_refl. Qed.

Lemma stays_within_tell e : stays_within R (tell e).
Proof. intros s. apply R_refl. Qed.

Lemma stays_within_emit e : stays_within R (emit e).
Proof. intros s. apply R_refl. Qed.

Lemma stays_within_call {A} (f : W -> A * W) : stays_within R (call f).
Proof. intros s. unfold call. destruct (f (St.world s)) as [a w]. apply (R_world s w). Qed.

Lemma stays_within_call_res {A} (f : W -> Res A * W) : stays_within R (call_res f).
Proof. intros s. unfold call_res. destruct (f (St.world s)) as [a w]. apply (R_world s w). Qed.

Lemma stays_within_bind {A B} (m : M W A) (k : A -> M W B) :
  stays_within R m -> (forall a, stays_within R (k a)) -> stays_within R (bind m k).
Proof.
  intros Hm Hk s. specialize (Hm s). unfold bind.
  destruct (m s) as [[[a|e] s1] t1]; [|exact Hm].
  specialize (Hk a s1). destruct (k a s1) as [[r s2] t2].
  unfold state_of in *. simpl in *. eapply R_trans; eassumption.
Qed.

Lemma stays_within_try_catch {A} (m : M W A) (h : string -> M W A) :
  stays_within R m -> (forall e, stays_within R (h e)) -> stays_within R (try_catch m h).
Proof.
  intros Hm Hh s. specialize (Hm s). unfold try_catch.
  destruct (m s) as [[[a|e] s1] t1]; [exact Hm|].
  specialize (Hh e s1). destruct (h e s1) as [[r s2] t2].
  unfold state_of in *. simpl in *. eapply R_trans; eassumption.
Qed.

Lemma stays_within_for_each {A} (l : list A) (f : A -> M W unit) :
  (forall x, stays_within R (f x)) -> stays_within R (for_each l f).
Proof.
  intros Hf. induction l as [|x l IH]; simpl.
  - apply stays_within_ret.
  - apply stays_within_bind; [apply Hf | intros _; exact IH].
Qed.

Lemma stays_within_if {A} (b : bool) (m1 m2 : M W A) :
  stays_within R m1 -> stays_within R m2 -> stays_within R (if b then m1 else m2).
Proof. destruct b; auto. Qed.

(** What only moves the world stays within any such relation. *)
Lemma stays_within_only_moves_world {A} (m : M W A) :
  (forall s s', St.processes s' = St.processes s ->
                St.availabilityCache s' = St.availabilityCache s ->
                St.globals s' = St.globals s -> R s s') ->
  only_moves_world m -> stays_within R m.
Proof. intros HR Hm s. destruct (Hm s) as (Hp & Hc & Hg). apply HR; assumption. Qed.

End Within.

(** One step through the structure of an operation, for a relation whose
    reflexivity, transitivity and indifference to the world are among the
    hypotheses. *)
Ltac within_step :=
  first [ apply stays_within_ret; assumption
        | apply stays_within_throw; assumption
        | apply stays_within_get; assumption
        | apply stays_within_tell; assumption
        | apply stays_within_emit; assumption
        | apply stays_within_call; assumption
        | apply stays_within_call_res; assumption
        | apply stays_within_bind; [assumption | | intros ?]
        | apply stays_within_try_catch; [assumption | | intros ?]
        | apply stays_within_for_each; [assumption | assumption | intros ?]
        | apply stays_within_if ].

(** ** Enumerating descendants *)

Lemma uniq_from_elem (x : Z) (l seen : list Z) :
  x ∈ Js.uniq_from seen l <-> x ∈ l /\ x ∉ seen.
Proof.
  revert seen. induction l as [|y l IH]; intros seen; simpl.
  - split; [intros H; inversion H | intros [H _]; inversion H].
  - destruct (bool_decide (y ∈ seen)) eqn:Hy.
    + apply bool_decide_eq_true in Hy. rewrite IH, elem_of_cons. split.
      * intros [Hin Hnew]. split; [right; exact Hin | exact Hnew].
      * intros [[-> | Hin] Hnew]; [contradiction | split; assumption].
    + apply bool_decide_eq_false in Hy. rewrite !elem_of_cons, IH, elem_of_cons. split.
      * intros [-> | [Hin Hnew]]; [split; [left; reflexivity | exact Hy]|].
        split; [right; exact Hin|]. intros Hseen. apply Hnew. right. exact Hseen.
      * intros [[-> | Hin] Hnew]; [left; reflexivity|].
        destruct (decide (x = y)) as [->|Hne]; [left; reflexivity|].
        right. split; [exact Hin|]. intros [Heq | Hseen]; contradiction.
Qed.

Lemma uniq_from_NoDup (l seen : list Z) : NoDup (Js.uniq_from seen l).
Proof.
  revert seen. induction l as [|y l IH]; intros seen; simpl; [constructor|].
  destruct (bool_decide (y ∈ seen)); [apply IH|].
  constructor; [|apply IH]. rewrite uniq_from_elem. intros [_ Hnew].
  apply Hnew. left.
Qed.

Lemma uniq_elem (x : Z) (l : list Z) : x ∈ Js.uniq l <-> x ∈ l.
Proof.
  unfold Js.uniq. rewrite uniq_from_elem. split; [intros [Hin _]; exact Hin|].
  intros Hin. split; [exact Hin|]. intros Hnil. inversion Hnil.
Qed.

(** The descendants found below a parent, read off the reply to the query
    for its children. *)
Lemma descendants_of_children (parentPid : Z) (kids : list (Z * PsReply)) (pid : Z) :
  pid ∈ descendants_of parentPid (PsChildren kids) <->
  exists kid, kid ∈ kids /\ fst kid <> parentPid /\
              (pid = fst kid \/ pid ∈ descendants_of (fst kid) (snd kid)).
Proof.
  simpl. rewrite uniq_elem, list_elem_of_In, in_flat_map. split.
  - intros ([kidPid reply] & Hin & Hpid). simpl in Hpid.
    destruct (Z.eqb_spec kidPid parentPid) as [->|Hne]; [destruct Hpid|].
    exists (kidPid, reply). rewrite list_elem_of_In. split; [exact Hin|].
    split; [exact Hne|]. simpl. destruct Hpid as [<-|Hbelow]; [left; reflexivity|].
    right. apply list_elem_of_In. exact Hbelow.
  - intros ([kidPid reply] & Hin & Hne & Hpid). simpl in *.
    exists (kidPid, reply). rewrite <- list_elem_of_In. split; [exact Hin|]. simpl.
    destruct (Z.eqb_spec kidPid parentPid) as [Heq|_]; [contradiction|].
    destruct Hpid as [->|Hbelow]; [left; reflexivity|].
    right. apply list_elem_of_In. exact Hbelow.
Qed.

(** X5. [getAllDescendantPids] never throws and returns a list without
    duplicates.  After a failed child query the list is empty; otherwise a
    pid is in it exactly when it is a reported child other than the parent
    itself, or is among the descendants found below such a child. *)
Theorem getAllDescendantPids_deduplicated
    {World : Type} {host : Host World} (parentPid : Z) (s : St.t World) :
  exists descendants s',
    getAllDescendantPids parentPid s
      = (Ok descendants, s', [Enumerated parentPid descendants]) /\
    St.processes s' = St.processes s /\
    NoDup descendants /\
    match fst (ps_children parentPid (St.world s)) with
    | PsFailed => descendants = []
    | PsChildren kids =>
        forall pid,
          pid ∈ descendants <->
          exists kid, kid ∈ kids /\ fst kid <> parentPid /\
                      (pid = fst kid \/ pid ∈ descendants_of (fst kid) (snd kid))
    end.
Proof.
  rewrite getAllDescendantPids_run. eexists _, _. split; [reflexivity|].
  split; [reflexivity|].
  destruct (fst (ps_children parentPid (St.world s))) as [|kids]; simpl.
  - split; [constructor | reflexivity].
  - split; [apply uniq_from_NoDup|]. intros pid.
    rewrite uniq_elem, list_elem_of_In, in_flat_map. split.
    + intros ([kidPid reply] & Hin & Hpid). simpl in Hpid.
      destruct (Z.eqb_spec kidPid parentPid) as [->|Hne]; [destruct Hpid|].
      exists (kidPid, reply). rewrite list_elem_of_In. split; [exact Hin|].
      split; [exact Hne|]. simpl. destruct Hpid as [<-|Hbelow]; [left; reflexivity|].
      right. apply list_elem_of_In. exact Hbelow.
    + intros ([kidPid reply] & Hin & Hne & Hpid). simpl in *.
      exists (kidPid, reply). rewrite <- list_elem_of_In. split; [exact Hin|]. simpl.
      destruct (Z.eqb_spec kidPid parentPid) as [Heq|_]; [contradiction|].
      destruct Hpid as [->|Hbelow]; [left; reflexivity|].
      right. apply list_elem_of_In. exact Hbelow.
Qed.

(** ** Resolving process names *)

(** The worlds the name queries run in, one after the other, and the
    name each reply resolves to. *)
Lemma getProcessInfo_names
    {World : Type} {host : Host World} (pids : list Z) : forall s : St.t World,
  exists infos,
    getProcessInfo pids s
      = (Ok infos,
         with_world s (fold_left (fun w pid => snd (ps_name pid w)) pids (St.world s)), []) /\
    map fst infos = pids /\
    forall (k : nat) pid,
      pids !! k = Some pid ->
      infos !! k
      = Some (pid,
              match fst (ps_name pid (fold_left (fun w pid' => snd (ps_name pid' w))
                                        (take k pids) (St.world s))) with
              | Ok output => or_unknown (name_of_output output)
              | Thrown _ => "unknown"
              end).
Proof.
  induction pids as [|pid pids IH]; intros s.
  - exists []. split; [destruct s; reflexivity|]. split; [reflexivity|].
    intros k pid Hk. destruct k; discriminate.
  - cbn [getProcessInfo].
    assert (Hinfo : try_catch
                      (let! result := call_res (ps_name pid) in
                       ret (pid, or_unknown (name_of_output result)))
                      (fun _ => ret (pid, "unknown")) s
                    = (Ok (pid, match fst (ps_name pid (St.world s)) with
                                | Ok output => or_unknown (name_of_output output)
                                | Thrown _ => "unknown"
                                end),
                       with_world s (snd (ps_name pid (St.world s))), [])).
    { unfold try_catch, bind, call_res, ret, with_world.
      destruct (ps_name pid (St.world s)) as [[output|e] w]; reflexivity. }
    rewrite (bind_ok _ _ _ _ _ _ Hinfo).
    destruct (IH (with_world s (snd (ps_name pid (St.world s))))) as (infos & Hrun & Hpids & Hnames).
    rewrite (bind_ok _ _ _ _ _ _ Hrun).
    eexists. split; [reflexivity|]. split; [cbn; rewrite Hpids; reflexivity|].
    intros [|k] pid' Hk.
    + injection Hk as <-. reflexivity.
    + cbn in Hk |- *. apply Hnames, Hk.
Qed.

(** The name resolution written out: the trimmed output of the query on
    Unix, the trimmed second non-blank line on Windows, and [unknown] for
    an empty name, a missing line or a failed query. *)
Ltac name_resolution :=
  repeat f_equal;
  match goal with
  | |- match ?reply with _ => _ end = _ => destruct reply as [?output|?e]; [|reflexivity]
  end;
  unfold name_of_output, or_unknown;
  destruct os_platform; try reflexivity;
  match goal with
  | |- context [List.filter ?f ?l] => destruct (List.filter f l) as [|? [|? ?]]; reflexivity
  end.

(** X6. [getProcessInfo] never throws, logs nothing and changes nothing in
    the manager: the registry, the availability cache and the flags are
    as before, and only the world has moved, by one name query per pid, in
    order.  It returns one entry per pid, in the order given.  The name of
    every entry is the one resolved from the reply to its own query: the
    trimmed output on Unix, the trimmed second non-blank line on Windows,
    and [unknown] when that is empty or missing or when the query throws;
    so no name is empty. *)
Theorem getProcessInfo_total
    {World : Type} {host : Host World} (pids : list Z) (s : St.t World) :
  let asked := fun (w : World) (pid : Z) => snd (ps_name pid w) in
  let resolve := fun (reply : Res string) =>
    match reply with
    | Ok output =>
        let name :=
          match os_platform with
          | win32 =>
              match List.filter (fun line => Js.truthy (Js.trim line))
                                (Js.split_newline output) with
              | _ :: second :: _ => Js.trim second
              | _ => EmptyString
              end
          | _ => Js.trim output
          end in
        if Js.truthy name then name else "unknown"
    | Thrown _ => "unknown"
    end in
  exists infos,
    getProcessInfo pids s = (Ok infos, with_world s (fold_left asked pids (St.world s)), []) /\
    St.processes (state_of (getProcessInfo pids s)) = St.processes s /\
    St.availabilityCache (state_of (getProcessInfo pids s)) = St.availabilityCache s /\
    St.globals (state_of (getProcessInfo pids s)) = St.globals s /\
    map fst infos = pids /\
    Forall (fun info => Js.truthy (snd info) = true) infos /\
    forall (k : nat) pid,
      pids !! k = Some pid ->
      infos !! k
      = Some (pid, resolve (fst (ps_name pid (fold_left asked (take k pids) (St.world s))))).
Proof.
  intros asked resolve.
  destruct (getProcessInfo_names pids s) as (infos & Hrun & Hpids & Hnames).
  destruct (getProcessInfo_run pids s) as (infos' & s' & Hrun' & _ & Hnonempty & _).
  rewrite Hrun in Hrun'. injection Hrun' as <- _.
  exists infos. rewrite Hrun. split; [reflexivity|].
  do 3 (split; [reflexivity|]). split; [exact Hpids|]. split; [exact Hnonempty|].
  intros k pid Hk. rewrite (Hnames k pid Hk). subst resolve asked. cbv beta zeta.
  name_resolution.
Qed.

(** ** The order of the kill commands *)

Section KillOrder.

Context {World : Type} {tool : CliTool World} {host : Host World}.

Lemma timeline_app (t1 t2 : list Effect) :
  timeline (t1 ++ t2) = (timeline t1 ++ timeline t2)%list.
Proof. apply List.filter_app. Qed.

Lemma ignoring_os_run (c : OsCommand) (s : St.t World) :
  ignoring_errors (os c) s
  = (Ok tt, with_world s (snd (os_run c (St.world s))), [OsCall c]).
Proof.
  unfold ignoring_errors, try_catch, os, bind, tell, call_res, ret, with_world. simpl.
  destruct (os_run c (St.world s)) as [[[]|e] w]; reflexivity.
Qed.

Lemma for_each_ignoring_os (f : Z -> OsCommand) (l : list Z) : forall s : St.t World,
  exists w,
    for_each l (fun x => ignoring_errors (os (f x))) s
    = (Ok tt, with_world s w, map (fun x => OsCall (f x)) l).
Proof.
  induction l as [|x l IH]; intros s.
  - exists (St.world s). destruct s; reflexivity.
  - simpl. rewrite (bind_ok _ _ _ _ _ _ (ignoring_os_run (f x) s)).
    destruct (IH (with_world s (snd (os_run (f x) (St.world s))))) as (w & ->).
    exists w. reflexivity.
Qed.

(** What the platform branch logs: on Windows the tree kill, followed by
    one kill per descendant only when the tree kill failed; elsewhere a
    fixed sequence. *)
Lemma kill_commands_log pid descendantPids (s : St.t World) :
  exists s',
    kill_commands pid descendantPids s =
    (Ok tt, s',
     match os_platform with
     | win32 =>
         OsCall (taskkill_tree pid) ::
         match fst (os_run (taskkill_tree pid) (St.world s)) with
         | Ok _ => []
         | Thrown _ => map (fun childPid => OsCall (taskkill childPid)) descendantPids
         end
     | _ =>
         [OsCall (process_kill_SIGTERM pid); OsCall (kill_TERM_group pid); Slept 200;
          OsCall (process_kill_SIGKILL pid); OsCall (kill_9_group pid)]
         ++ map (fun childPid => OsCall (kill_9 childPid)) descendantPids
         ++ [OsCall (pkill_9_parent pid)]
     end%list) /\
    St.processes s' = St.processes s.
Proof.
  assert (Hunix : exists s',
            (let! _ := ignoring_errors (os (process_kill_SIGTERM pid)) in
             let! _ := ignoring_errors (os (kill_TERM_group pid)) in
             let! _ := sleep 200 in
             let! _ := ignoring_errors (os (process_kill_SIGKILL pid)) in
             let! _ := ignoring_errors (os (kill_9_group pid)) in
             let! _ := for_each descendantPids
                         (fun childPid => ignoring_errors (os (kill_9 childPid))) in
             ignoring_errors (os (pkill_9_parent pid))) s
            = (Ok tt, s',
               ([OsCall (process_kill_SIGTERM pid); OsCall (kill_TERM_group pid); Slept 200;
                 OsCall (process_kill_SIGKILL pid); OsCall (kill_9_group pid)]
                ++ map (fun childPid => OsCall (kill_9 childPid)) descendantPids
                ++ [OsCall (pkill_9_parent pid)])%list) /\
            St.processes s' = St.processes s).
  { rewrite (bind_ok _ _ _ _ _ _ (ignoring_os_run _ s)).
    rewrite (bind_ok _ _ _ _ _ _ (ignoring_os_run _ _)).
    rewrite (bind_ok _ _ _ _ _ _ (sleep_run 200 _)).
    rewrite (bind_ok _ _ _ _ _ _ (ignoring_os_run _ _)).
    rewrite (bind_ok _ _ _ _ _ _ (ignoring_os_run _ _)).
    match goal with |- context [bind (for_each descendantPids ?body) ?k ?s1] =>
      destruct (for_each_ignoring_os kill_9 descendantPids s1) as (w & Hloop);
      rewrite (bind_ok _ k _ _ _ _ Hloop) end.
    rewrite ignoring_os_run. eexists. split; reflexivity. }
  unfold kill_commands. destruct os_platform; try exact Hunix.
  assert (Hos : os (taskkill_tree pid) s
                = (fst (os_run (taskkill_tree pid) (St.world s)),
                   with_world s (snd (os_run (taskkill_tree pid) (St.world s))),
                   [OsCall (taskkill_tree pid)])).
  { unfold os, bind, tell, call_res, with_world. simpl.
    destruct (os_run (taskkill_tree pid) (St.world s)) as [[[]|e] w]; reflexivity. }
  destruct (fst (os_run (taskkill_tree pid) (St.world s))) as [[]|e].
  - rewrite (try_catch_ok _ _ _ _ _ _ Hos). eexists. split; reflexivity.
  - match type of Hos with _ = (_, ?s1, _) =>
      destruct (for_each_ignoring_os taskkill descendantPids s1) as (w' & Hloop) end.
    erewrite try_catch_thrown; [|exact Hos]. rewrite Hloop.
    eexists. split; reflexivity.
Qed.

Lemma final_kill_run panelId (s : St.t World) :
  exists w,
    ignoring_errors
      (let! s0 := get in
       match St.processes s0 !! panelId with
       | Some cliProcess => kill_via_pty (CliProcess.process cliProcess)
       | None => ret tt
       end) s
    = (Ok tt, with_world s w,
       match St.processes s !! panelId with
       | Some cliProcess => [PtyKill (CliProcess.process cliProcess)]
       | None => []
       end).
Proof.
  unfold ignoring_errors, try_catch, bind, get.
  destruct (St.processes s !! panelId) as [cliProcess|].
  - unfold kill_via_pty, bind, tell, call_res, ret.
    destruct (pty_kill (CliProcess.process cliProcess) (St.world s)) as [[[]|e] w];
      exists w; reflexivity.
  - exists (St.world s). destruct s; reflexivity.
Qed.

Lemma timeline_os_calls (f : Z -> OsCommand) (l : list Z) :
  timeline (map (fun x => OsCall (f x)) l) = map (fun x => OsCall (f x)) l.
Proof. induction l as [|x l IH]; [reflexivity|]. simpl. f_equal. exact IH. Qed.

(** X7. The kill commands of [killProcessTree] and their order.  Outside
    Windows the sequence is fixed whatever fails on the way: SIGTERM to the
    process and to its group, 200 ms, SIGKILL to the process and to its
    group, [kill -9] for every descendant found at the start, [pkill -9 -P].
    On Windows the tree kill comes first and the descendants are killed one
    by one only when it failed.  Then come the 500 ms settle delay and,
    last, the kill through the terminal of the panel if it is registered. *)
Theorem killProcessTree_timeline pid panelId sessionId (s : St.t World) :
  let enumerated := ps_children pid (St.world s) in
  let descendantPids := descendants_of pid (fst enumerated) in
  timeline (effects_of (killProcessTree pid panelId sessionId s)) =
  (match os_platform with
   | win32 =>
       OsCall (taskkill_tree pid) ::
       match fst (os_run (taskkill_tree pid) (snd enumerated)) with
       | Ok _ => []
       | Thrown _ => map (fun childPid => OsCall (taskkill childPid)) descendantPids
       end
   | _ =>
       [OsCall (process_kill_SIGTERM pid); OsCall (kill_TERM_group pid); Slept 200;
        OsCall (process_kill_SIGKILL pid); OsCall (kill_9_group pid)]
       ++ map (fun childPid => OsCall (kill_9 childPid)) descendantPids
       ++ [OsCall (pkill_9_parent pid)]
   end
   ++ Slept 500 ::
      match St.processes s !! panelId with
      | Some cliProcess => [PtyKill (CliProcess.process cliProcess)]
      | None => []
      end)%list.
Proof.
  intros enumerated descendantPids. unfold killProcessTree.
  rewrite (bind_ok _ _ _ _ _ _ (getAllDescendantPids_run pid s)).
  fold enumerated. fold descendantPids.
  set (s1 := with_world s (snd enumerated)).
  destruct (kill_commands_log pid descendantPids s1) as (s2 & Hkill & Hreg2).
  destruct (verify_killed_run pid panelId sessionId s2)
    as (remainingPids & s3 & report & Hverify & Hreg3 & Hreport).
  match type of Hkill with _ = (_, _, ?kills) => set (commands := kills) in * end.
  assert (Hbody : try_catch
                    (bind (kill_commands pid descendantPids)
                          (fun _ => verify_killed pid panelId sessionId))
                    (fun _ => ret false) s1
                  = (Ok (negb (0 <? length remainingPids)%nat), s3,
                     (commands ++ Slept 500 :: Enumerated pid remainingPids :: report)%list)).
  { apply try_catch_ok. rewrite (bind_ok _ _ _ _ _ _ Hkill), Hverify. reflexivity. }
  rewrite (bind_ok _ _ _ _ _ _ Hbody).
  destruct (final_kill_run panelId s3) as (w & Hfinal).
  rewrite (bind_ok _ _ _ _ _ _ Hfinal).
  cbn [effects_of result_of state_of fst snd ret].
  rewrite Hreg3, Hreg2. change (St.processes s1) with (St.processes s).
  assert (Hreport' : timeline report = []).
  { destruct remainingPids; [subst report; reflexivity|].
    destruct Hreport as (? & ? & _ & _ & ->). reflexivity. }
  assert (Hcommands : timeline commands = commands).
  { subst commands. destruct os_platform.
    - destruct (fst (os_run (taskkill_tree pid) (St.world s1))); [reflexivity|].
      change (OsCall (taskkill_tree pid) :: ?l)%list
        with ([OsCall (taskkill_tree pid)] ++ l)%list.
      rewrite timeline_app, timeline_os_calls. reflexivity.
    - rewrite !timeline_app, timeline_os_calls. reflexivity.
    - rewrite !timeline_app, timeline_os_calls. reflexivity. }
  change (Enumerated pid descendantPids :: ?l)%list
    with ([Enumerated pid descendantPids] ++ l)%list.
  rewrite !timeline_app, Hcommands.
  change (Slept 500 :: Enumerated pid remainingPids :: report)%list
    with ([Slept 500; Enumerated pid remainingPids] ++ report)%list.
  rewrite !timeline_app, Hreport'.
  destruct (St.processes s !! panelId);
    cbn [timeline List.filter is_timed app]; rewrite ?app_nil_r, <- ?app_assoc; reflexivity.
Qed.

(** The verification step, with what it finds tied to the reply of the
    second enumeration. *)
Lemma verify_killed_layout pid panelId sessionId (s : St.t World) :
  let left := ps_children pid (setTimeout 500 (St.world s)) in
  let remainingPids := descendants_of pid (fst left) in
  let named := getProcessInfo remainingPids (with_world s (snd left)) in
  verify_killed pid panelId sessionId s =
  (Ok (negb (0 <? length remainingPids)%nat),
   state_of named,
   Slept 500 :: Enumerated pid remainingPids ::
     match remainingPids with
     | [] => []
     | _ :: _ =>
         [Emitted (OutputEvent
                     (CliOutputEvent.mk panelId sessionId stderr
                        (Text (zombie_warning remainingPids
                                 (match result_of named with
                                  | Ok remainingProcesses => remainingProcesses
                                  | Thrown _ => []
                                  end)))
                        (Date_now (St.world (state_of named)))))
                  (St.processes s)]
     end).
Proof.
  intros left remainingPids named. unfold verify_killed.
  rewrite (bind_ok _ _ _ _ _ _ (sleep_run 500 s)).
  set (s1 := with_world s (setTimeout 500 (St.world s))).
  rewrite (bind_ok _ _ _ _ _ _ (getAllDescendantPids_run pid s1)).
  change (ps_children pid (St.world s1)) with left. fold remainingPids.
  change (with_world s1 (snd left)) with (with_world s (snd left)).
  destruct remainingPids as [|first others] eqn:Hremaining.
  - subst named. cbn [getProcessInfo]. destruct s; reflexivity.
  - change (0 <? length (first :: others))%nat with true. cbv iota.
    destruct (getProcessInfo_run (first :: others) (with_world s (snd left)))
      as (infos & s3 & Hinfo & _ & _ & Hreg).
    subst named. rewrite (bind_ok _ _ _ _ _ _ Hinfo), Hinfo.
    rewrite (bind_ok _ _ _ _ _ _ (emit_output_run _ _ _ _ s3)).
    cbn [result_of state_of effects_of fst snd ret app negb]. rewrite Hreg. reflexivity.
Qed.

(** [killProcessTree] from start to end, with every list tied to the reply
    it is computed from. *)
Lemma killProcessTree_layout pid panelId sessionId (s : St.t World) :
  let started := ps_children pid (St.world s) in
  let descendantPids := descendants_of pid (fst started) in
  let killed := kill_commands pid descendantPids (with_world s (snd started)) in
  let left := ps_children pid (setTimeout 500 (St.world (state_of killed))) in
  let remainingPids := descendants_of pid (fst left) in
  let named := getProcessInfo remainingPids (with_world s (snd left)) in
  result_of (killProcessTree pid panelId sessionId s)
    = Ok (negb (0 <? length remainingPids)%nat) /\
  St.processes (state_of (killProcessTree pid panelId sessionId s)) = St.processes s /\
  effects_of (killProcessTree pid panelId sessionId s)
  = (Enumerated pid descendantPids :: effects_of killed ++
     Slept 500 :: Enumerated pid remainingPids ::
     (match remainingPids with
      | [] => []
      | _ :: _ =>
          [Emitted (OutputEvent
                      (CliOutputEvent.mk panelId sessionId stderr
                         (Text (zombie_warning remainingPids
                                  (match result_of named with
                                   | Ok remainingProcesses => remainingProcesses
                                   | Thrown _ => []
                                   end)))
                         (Date_now (St.world (state_of named)))))
                   (St.processes s)]
      end ++
      match St.processes s !! panelId with
      | Some cliProcess => [PtyKill (CliProcess.process cliProcess)]
      | None => []
      end))%list.
Proof.
  intros started descendantPids killed left remainingPids named.
  unfold killProcessTree.
  rewrite (bind_ok _ _ _ _ _ _ (getAllDescendantPids_run pid s)).
  fold started. fold descendantPids.
  set (s1 := with_world s (snd started)).
  destruct (kill_commands_log pid descendantPids s1) as (s2 & Hkill & _).
  assert (Hkilled : kill_commands pid descendantPids s1
                    = (Ok tt, state_of killed, effects_of killed)).
  { change (kill_commands pid descendantPids s1
            = (Ok tt, state_of (kill_commands pid descendantPids s1),
               effects_of (kill_commands pid descendantPids s1))).
    rewrite Hkill. reflexivity. }
  clear Hkill s2.
  destruct (only_moves_world_kill_commands pid descendantPids s1) as (Hp & Hc & Hg).
  change (kill_commands pid descendantPids s1) with killed in Hp, Hc, Hg.
  change (St.processes s1) with (St.processes s) in Hp.
  change (St.availabilityCache s1) with (St.availabilityCache s) in Hc.
  change (St.globals s1) with (St.globals s) in Hg.
  assert (Hframe : with_world (state_of killed) (snd left) = with_world s (snd left)).
  { unfold with_world. rewrite Hp, Hc, Hg. reflexivity. }
  pose proof (verify_killed_layout pid panelId sessionId (state_of killed)) as Hverify.
  cbv zeta in Hverify.
  change (ps_children pid (setTimeout 500 (St.world (state_of killed)))) with left in Hverify.
  change (descendants_of pid (fst left)) with remainingPids in Hverify.
  rewrite Hframe, Hp in Hverify. fold named in Hverify.
  match type of Hverify with _ = (_, _, ?t) => set (verified := t) in * end.
  assert (Hbody : try_catch
                    (bind (kill_commands pid descendantPids)
                          (fun _ => verify_killed pid panelId sessionId))
                    (fun _ => ret false) s1
                  = (Ok (negb (0 <? length remainingPids)%nat), state_of named,
                     (effects_of killed ++ verified)%list)).
  { apply try_catch_ok. rewrite (bind_ok _ _ _ _ _ _ Hkilled), Hverify. reflexivity. }
  rewrite (bind_ok _ _ _ _ _ _ Hbody).
  destruct (final_kill_run panelId (state_of named)) as (w & Hfinal).
  rewrite (bind_ok _ _ _ _ _ _ Hfinal).
  assert (Hreg : St.processes (state_of named) = St.processes s).
  { exact (proj1 (only_moves_world_getProcessInfo remainingPids (with_world s (snd left)))). }
  cbn [result_of state_of effects_of fst snd ret with_world St.processes].
  rewrite Hreg. split; [reflexivity|]. split; [reflexivity|].
  subst verified. rewrite app_nil_r. cbn [app]. rewrite <- app_assoc. reflexivity.
Qed.

End KillOrder.

(** C6. [killProcessTree] never throws: from every state and for every
    root pid it returns a boolean.  Its log is the first enumeration, the
    kill commands (which emit nothing), the settle delay of 500ms and the
    second enumeration, then the report; these two are its only
    enumerations.  What the second enumeration finds is read off the reply
    to the query for the children of the root after the delay: every
    reported child other than the root itself and every descendant found
    below it, and nothing when the query fails.  When it finds no
    descendant the result is [true] and nothing is emitted; when it finds
    some the result is [false] and exactly one stderr output event is
    emitted, whose text is the warning for the remaining pids: it names
    every one of them as [name(pid)], the name being the one resolved from
    the reply to the name query for that pid (the trimmed output on Unix,
    the trimmed second non-blank line on Windows) and [unknown] when that
    is empty or missing or when the query throws. *)
Theorem C6_killProcessTree_never_raises
    {World : Type} {tool : CliTool World} {host : Host World}
    (pid : Z) (panelId sessionId : string) (s : St.t World) :
  let outcome := killProcessTree pid panelId sessionId s in
  let started := ps_children pid (St.world s) in
  let descendantPids := descendants_of pid (fst started) in
  let killed := kill_commands pid descendantPids (with_world s (snd started)) in
  let left := ps_children pid (setTimeout 500 (St.world (state_of killed))) in
  let remainingPids := descendants_of pid (fst left) in
  let asked := fun (w : World) (childPid : Z) => snd (ps_name childPid w) in
  let resolve := fun (reply : Res string) =>
    match reply with
    | Ok output =>
        let name :=
          match os_platform with
          | win32 =>
              match List.filter (fun line => Js.truthy (Js.trim line))
                                (Js.split_newline output) with
              | _ :: second :: _ => Js.trim second
              | _ => EmptyString
              end
          | _ => Js.trim output
          end in
        if Js.truthy name then name else "unknown"
    | Thrown _ => "unknown"
    end in
  exists success report,
    result_of outcome = Ok success /\
    effects_of outcome =
      (Enumerated pid descendantPids :: effects_of killed ++
       Slept 500 :: Enumerated pid remainingPids :: report)%list /\
    emitted (effects_of killed) = [] /\
    enumerations (effects_of outcome) = [(pid, descendantPids); (pid, remainingPids)] /\
    St.processes (state_of outcome) = St.processes s /\
    match fst left with
    | PsFailed => remainingPids = []
    | PsChildren kids =>
        forall remaining,
          remaining ∈ remainingPids <->
          exists kid, kid ∈ kids /\ fst kid <> pid /\
                      (remaining = fst kid \/
                       remaining ∈ descendants_of (fst kid) (snd kid))
    end /\
    match remainingPids with
    | [] => success = true /\ emitted report = []
    | _ :: _ =>
        success = false /\
        exists remainingProcesses timestamp,
          map fst remainingProcesses = remainingPids /\
          emitted report =
            [(OutputEvent (CliOutputEvent.mk panelId sessionId stderr
                             (Text (zombie_warning remainingPids remainingProcesses))
                             timestamp),
              St.processes s)] /\
          forall (k : nat) remaining,
            remainingPids !! k = Some remaining ->
            let name :=
              resolve (fst (ps_name remaining
                              (fold_left asked (take k remainingPids) (snd left)))) in
            remainingProcesses !! k = Some (remaining, name) /\
            Js.includes (zombie_warning remainingPids remainingProcesses)
                        (name ++ "(" ++ Js.show_int remaining ++ ")") = true
    end.
Proof.
  intros outcome started descendantPids killed left remainingPids asked resolve.
  subst outcome.
  destruct (killProcessTree_layout pid panelId sessionId s) as (Hresult & Hreg & Hlog).
  fold started descendantPids killed left remainingPids in Hresult, Hlog.
  destruct (kill_commands_quiet pid descendantPids) as (Hquiet & Hnoenum).
  specialize (Hquiet (with_world s (snd started))).
  specialize (Hnoenum (with_world s (snd started))).
  fold killed in Hquiet, Hnoenum.
  set (final := match St.processes s !! panelId with
                | Some cliProcess => [PtyKill (CliProcess.process cliProcess)]
                | None => []
                end) in Hlog.
  assert (Hfinal : emitted final = [] /\ enumerations final = []).
  { subst final. destruct (St.processes s !! panelId); split; reflexivity. }
  destruct Hfinal as (Hfinal_quiet & Hfinal_noenum).
  eexists _, _. split; [exact Hresult|]. split; [exact Hlog|]. split; [exact Hquiet|].
  split.
  { rewrite Hlog.
    change (Enumerated pid descendantPids :: effects_of killed
              ++ Slept 500 :: Enumerated pid remainingPids :: ?report)%list
      with ([Enumerated pid descendantPids] ++ effects_of killed
              ++ [Slept 500; Enumerated pid remainingPids] ++ report)%list.
    rewrite !enumerations_app, Hnoenum, Hfinal_noenum.
    destruct remainingPids; reflexivity. }
  split; [exact Hreg|]. split.
  { subst remainingPids. destruct (fst left) as [|kids]; [reflexivity|].
    intros remaining. apply descendants_of_children. }
  destruct remainingPids as [|first others] eqn:Hremaining.
  { split; [reflexivity|]. rewrite emitted_app, Hfinal_quiet. reflexivity. }
  split; [reflexivity|].
  destruct (getProcessInfo_names (first :: others) (with_world s (snd left)))
    as (infos & Hrun & Hpids & Hnames).
  destruct (getProcessInfo_run (first :: others) (with_world s (snd left)))
    as (infos' & s' & Hrun' & _ & Hnonempty & _).
  rewrite Hrun in Hrun'. injection Hrun' as <- _.
  rewrite Hrun. cbn [result_of state_of fst snd].
  eexists infos, _. split; [exact Hpids|]. split.
  { rewrite emitted_app, Hfinal_quiet. reflexivity. }
  intros k remaining Hk. cbv zeta.
  assert (Hname : infos !! k
                  = Some (remaining,
                          resolve (fst (ps_name remaining
                                          (fold_left asked (take k (first :: others))
                                             (snd left)))))).
  { rewrite (Hnames k remaining Hk). subst resolve asked. cbv beta zeta.
    cbn [with_world St.world]. name_resolution. }
  split; [exact Hname|].
  apply zombie_warning_lists.
  - apply list_elem_of_In. eapply list_elem_of_lookup_2. exact Hname.
  - rewrite Forall_forall in Hnonempty.
    apply (Hnonempty (remaining, _)). eapply list_elem_of_lookup_2. exact Hname.
Qed.

(** ** Killing a panel process *)

Lemma kill_effects_app (t1 t2 : list Effect) :
  kill_effects (t1 ++ t2) = (kill_effects t1 ++ kill_effects t2)%list.
Proof. apply List.filter_app. Qed.

Lemma cleanup_calls_app (t1 t2 : list Effect) :
  cleanup_calls (t1 ++ t2) = (cleanup_calls t1 ++ cleanup_calls t2)%list.
Proof. apply flat_map_app. Qed.

Lemma no_cleanup_call_app (t1 t2 : list Effect) :
  no_cleanup_call t1 -> no_cleanup_call t2 -> no_cleanup_call (t1 ++ t2).
Proof.
  unfold no_cleanup_call. intros H1 H2. rewrite cleanup_calls_app, H1, H2. reflexivity.
Qed.

Lemma no_kill_app (t1 t2 : list Effect) : no_kill t1 -> no_kill t2 -> no_kill (t1 ++ t2).
Proof. unfold no_kill. intros H1 H2. rewrite kill_effects_app, H1, H2. reflexivity. Qed.

Section KillProcess.

Context {World : Type} {tool : CliTool World} {host : Host World}.

Lemma kill_via_pty_run (p : IPty.t) (s : St.t World) :
  kill_via_pty p s
  = (fst (pty_kill p (St.world s)), with_world s (snd (pty_kill p (St.world s))), [PtyKill p]).
Proof.
  unfold kill_via_pty, bind, tell, call_res. simpl.
  destruct (pty_kill p (St.world s)) as [r w]. reflexivity.
Qed.

(** What [killProcess] collects before it calls the cleanup hook. *)
Lemma killed_processes_run (pid : Z) (s : St.t World) :
  exists killedProcesses s1 before,
    (if pid =? 0 then ret []
     else
       let! descendantPids := getAllDescendantPids pid in
       if (0 <? length descendantPids)%nat then getProcessInfo descendantPids else ret []) s
    = (Ok killedProcesses, s1, before) /\
    no_kill before /\ no_cleanup_call before /\ emits_nothing before /\
    St.processes s1 = St.processes s /\
    St.availabilityCache s1 = St.availabilityCache s /\
    St.globals s1 = St.globals s.
Proof.
  destruct (pid =? 0).
  - exists [], s, []. repeat split.
  - rewrite (bind_ok _ _ _ _ _ _ (getAllDescendantPids_run pid s)).
    set (s1 := with_world s (snd (ps_children pid (St.world s)))).
    destruct (0 <? length (descendants_of pid (fst (ps_children pid (St.world s)))))%nat.
    + destruct (getProcessInfo_run (descendants_of pid (fst (ps_children pid (St.world s)))) s1)
        as (infos & s2 & Hrun & _ & _ & _).
      pose proof (only_moves_world_getProcessInfo
                    (descendants_of pid (fst (ps_children pid (St.world s)))) s1) as Hframe.
      rewrite Hrun in *. cbn [state_of fst snd] in Hframe.
      destruct Hframe as (Hp & Hc & Hg).
      eexists _, _, _. split; [reflexivity|]. repeat split; assumption.
    + eexists _, _, _. split; [reflexivity|]. repeat split.
Qed.

(** [killProcess] on a registered panel, from start to end. *)
Lemma killProcess_run (panelId : string) (cliProcess : CliProcess.t) (s : St.t World) :
  St.processes s !! panelId = Some cliProcess ->
  exists before after,
    effects_of (killProcess panelId s)
      = (before ++ CleanupCall (CliProcess.sessionId cliProcess) :: after)%list /\
    no_kill before /\ no_cleanup_call before /\ emits_nothing before /\
    no_cleanup_call after /\
    St.availabilityCache (state_of (killProcess panelId s)) = St.availabilityCache s /\
    St.globals (state_of (killProcess panelId s)) = St.globals s /\
    match result_of (killProcess panelId s) with
    | Ok _ => St.processes (state_of (killProcess panelId s)) = delete panelId (St.processes s)
    | Thrown _ =>
        St.processes (state_of (killProcess panelId s)) = St.processes s /\
        (IPty.pid (CliProcess.process cliProcess) <> 0 -> after = [])
    end.
Proof.
  intros Hlookup.
  set (sessionId := CliProcess.sessionId cliProcess).
  set (pid := IPty.pid (CliProcess.process cliProcess)).
  destruct (killed_processes_run pid s)
    as (killedProcesses & s1 & before & Hbefore & Hnokill & Hnocleanup & Hquiet & Hp1 & Hc1 & Hg1).
  exists before.
  assert (Hstart : killProcess panelId s =
            bind (if pid =? 0 then ret []
                  else
                    let! descendantPids := getAllDescendantPids pid in
                    if (0 <? length descendantPids)%nat
                    then getProcessInfo descendantPids else ret [])
              (fun killedProcesses =>
                 let! _ := cleanup sessionId in
                 let! _ :=
                   if pid =? 0 then kill_via_pty (CliProcess.process cliProcess)
                   else
                     let! success := killProcessTree pid panelId sessionId in
                     if (0 <? length killedProcesses)%nat then
                       emit_output panelId sessionId stdout
                         (Text (Js.nl ++ "[Process Cleanup] Terminated "
                                  ++ show_nat (length killedProcesses)
                                  ++ " child " ++ plural (length killedProcesses)
                                  ++ " started by " ++ getCliToolName ++ ": "
                                  ++ processReport killedProcesses ++ Js.nl))
                     else ret tt in
                 set_processes (delete panelId)) s).
  { unfold killProcess.
    rewrite (bind_ok get _ s s s [] eq_refl). cbv beta. rewrite Hlookup.
    cbn [app]. symmetry. apply outcome_eta. }
  rewrite Hstart, (bind_ok _ _ _ _ _ _ Hbefore). clear Hstart.
  pose proof (cleanup_run sessionId s1) as Hcleanup.
  destruct (cleanupCliResources sessionId (St.world s1)) as [[[]|e] w1]; cbn [fst snd] in Hcleanup.
  2:{ rewrite (bind_thrown _ _ _ _ _ _ Hcleanup). exists [].
      cbn [result_of state_of effects_of fst snd with_world St.processes St.availabilityCache St.globals].
      repeat split; try assumption; reflexivity. }
  rewrite (bind_ok _ _ _ _ _ _ Hcleanup).
  set (s2 := with_world s1 w1).
  destruct (pid =? 0) eqn:Hpid.
  - pose proof (kill_via_pty_run (CliProcess.process cliProcess) s2) as Hkill.
    destruct (pty_kill (CliProcess.process cliProcess) (St.world s2)) as [[[]|e] w2];
      cbn [fst snd] in Hkill.
    + rewrite (bind_ok _ _ _ _ _ _ Hkill). eexists. cbn. rewrite Hp1.
      repeat split; assumption.
    + rewrite (bind_thrown _ _ _ _ _ _ Hkill). eexists. cbn.
      repeat split; try assumption.
      intros Hne. apply Z.eqb_eq in Hpid. contradiction.
  - destruct (never_throws_killProcessTree pid panelId sessionId s2) as (success & s3 & t3 & Htree).
    pose proof (only_moves_world_killProcessTree pid panelId sessionId s2) as Hframe.
    assert (Hlog : no_cleanup_call t3).
    { pose proof (logs_only_killProcessTree no_cleanup_call) as H.
      specialize (H eq_refl no_cleanup_call_app).
      specialize (H (fun _ _ => eq_refl) (fun _ _ => eq_refl) (fun _ => eq_refl)
                    (fun _ => eq_refl) (fun _ => eq_refl) pid panelId sessionId s2).
      rewrite Htree in H. exact H. }
    rewrite Htree in Hframe. cbn [state_of fst snd] in Hframe.
    destruct Hframe as (Hp3 & Hc3 & Hg3).
    match goal with |- context [bind (bind (killProcessTree pid panelId sessionId) ?k) _ s2] =>
      assert (Hreport : exists report,
                bind (killProcessTree pid panelId sessionId) k s2
                  = (Ok tt, s3, (t3 ++ report)%list) /\ no_cleanup_call report)
    end.
    { rewrite (bind_ok _ _ _ _ _ _ Htree).
      destruct (0 <? length killedProcesses)%nat.
      - rewrite emit_output_run. eexists. split; reflexivity.
      - exists []. split; reflexivity. }
    destruct Hreport as (report & Hreport & Hlog').
    rewrite (bind_ok _ _ _ _ _ _ Hreport).
    eexists.
    cbn [result_of state_of effects_of fst snd set_processes app
         St.processes St.availabilityCache St.globals].
    rewrite Hp3, Hc3, Hg3. subst s2.
    cbn [with_world St.processes St.availabilityCache St.globals]. rewrite Hp1.
    split; [reflexivity|]. repeat split; try assumption.
    apply no_cleanup_call_app; [|reflexivity].
    apply no_cleanup_call_app; assumption.
Qed.

End KillProcess.

Section KillOutcomes.

Context {World : Type} {tool : CliTool World} {host : Host World}.

Lemma killProcess_absent (panelId : string) (s : St.t World) :
  St.processes s !! panelId = None -> killProcess panelId s = (Ok tt, s, []).
Proof.
  intros Hlookup. unfold killProcess.
  rewrite (bind_ok get _ s s s [] eq_refl). cbv beta. rewrite Hlookup. reflexivity.
Qed.

Lemma sendInput_absent (panelId input : string) (s : St.t World) :
  St.processes s !! panelId = None ->
  sendInput panelId input s
  = (Thrown ("No " ++ getCliToolName ++ " process found for panel " ++ panelId), s, []).
Proof.
  intros Hlookup. unfold sendInput.
  rewrite (bind_ok get _ s s s [] eq_refl). cbv beta. rewrite Hlookup. reflexivity.
Qed.

(** The registry after [killProcess]: as it was, or without the panel; the
    cache and the flags as they were. *)
Lemma killProcess_registry (panelId : string) (s : St.t World) :
  (St.processes (state_of (killProcess panelId s)) = St.processes s \/
   St.processes (state_of (killProcess panelId s)) = delete panelId (St.processes s)) /\
  (result_of (killProcess panelId s) = Ok tt ->
   St.processes (state_of (killProcess panelId s)) !! panelId = None) /\
  St.availabilityCache (state_of (killProcess panelId s)) = St.availabilityCache s /\
  St.globals (state_of (killProcess panelId s)) = St.globals s.
Proof.
  destruct (St.processes s !! panelId) as [cliProcess|] eqn:Hlookup.
  - destruct (killProcess_run panelId cliProcess s Hlookup)
      as (before & after & _ & _ & _ & _ & _ & Hc & Hg & Hresult).
    destruct (result_of (killProcess panelId s)) as [[]|e].
    + rewrite Hresult. repeat split; auto. intros _. apply lookup_delete_eq.
    + destruct Hresult as (Hp & _). repeat split; auto. discriminate.
  - rewrite (killProcess_absent _ _ Hlookup). cbn. repeat split; auto.
Qed.

(** X2. [killProcess] on a panel that is not registered does nothing at
    all.  On a registered panel it calls the cleanup hook exactly once, for
    the session of the entry, and before any kill command.  If it returns,
    the entry is gone; if it throws, the entry is still registered, and
    unless the process has no pid no kill command was issued at all.  The
    availability cache and the flags are never touched. *)
Theorem killProcess_outcome (panelId : string) (s : St.t World) :
  let outcome := killProcess panelId s in
  match St.processes s !! panelId with
  | None => outcome = (Ok tt, s, [])
  | Some cliProcess =>
      (exists before after,
         effects_of outcome
           = (before ++ CleanupCall (CliProcess.sessionId cliProcess) :: after)%list /\
         no_kill before) /\
      cleanup_calls (effects_of outcome) = [CliProcess.sessionId cliProcess] /\
      St.availabilityCache (state_of outcome) = St.availabilityCache s /\
      St.globals (state_of outcome) = St.globals s /\
      match result_of outcome with
      | Ok _ => St.processes (state_of outcome) = delete panelId (St.processes s)
      | Thrown _ =>
          St.processes (state_of outcome) = St.processes s /\
          (IPty.pid (CliProcess.process cliProcess) <> 0 -> no_kill (effects_of outcome))
      end
  end.
Proof.
  intros outcome. subst outcome.
  destruct (St.processes s !! panelId) as [cliProcess|] eqn:Hlookup;
    [|apply killProcess_absent, Hlookup].
  destruct (killProcess_run panelId cliProcess s Hlookup)
    as (before & after & Hlog & Hnokill & Hnocleanup & _ & Hafter & Hc & Hg & Hresult).
  split; [exists before, after; split; assumption|].
  split.
  { rewrite Hlog, cleanup_calls_app. unfold no_cleanup_call in *. rewrite Hnocleanup.
    change (CleanupCall ?x :: after)%list with ([CleanupCall x] ++ after)%list.
    rewrite cleanup_calls_app, Hafter. reflexivity. }
  split; [exact Hc|]. split; [exact Hg|].
  destruct (result_of (killProcess panelId s)) as [[]|e]; [exact Hresult|].
  destruct Hresult as (Hp & Hempty). split; [exact Hp|].
  intros Hpid. rewrite Hlog, (Hempty Hpid).
  apply no_kill_app; [exact Hnokill | reflexivity].
Qed.

(** X3. After a [killProcess] that returned, the panel is not running, a
    second [killProcess] does nothing, and [sendInput] to the panel throws
    the error that names the tool and the panel, without writing to any
    terminal. *)
Theorem killProcess_then_absent (panelId input : string) (s : St.t World) :
  result_of (killProcess panelId s) = Ok tt ->
  let s' := state_of (killProcess panelId s) in
  isPanelRunning panelId s' = false /\
  killProcess panelId s' = (Ok tt, s', []) /\
  sendInput panelId input s'
  = (Thrown ("No " ++ getCliToolName ++ " process found for panel " ++ panelId), s', []).
Proof.
  intros Hok s'.
  destruct (killProcess_registry panelId s) as (_ & Hgone & _).
  specialize (Hgone Hok). fold s' in Hgone.
  split; [|split].
  - unfold isPanelRunning. rewrite Hgone. apply bool_decide_eq_false.
    intros [x Hx]. discriminate.
  - apply killProcess_absent, Hgone.
  - apply sendInput_absent, Hgone.
Qed.

End KillOutcomes.

Lemma killProcess_then_absent_witness :
  result_of (killProcess "p1" (Demo.started Demo.healthy)) = Ok tt /\
  isPanelRunning "p1" (state_of (killProcess "p1" (Demo.started Demo.healthy))) = false.
Proof.
  assert (H : result_of (killProcess "p1" (Demo.started Demo.healthy)) = Ok tt) by (vm_compute; reflexivity).
  split; [exact H|].
  exact (proj1 (killProcess_then_absent "p1" "hello" (Demo.started Demo.healthy) H)).
Defined.

(** ** Killing every panel process *)

Section KillAll.

Context {World : Type} {tool : CliTool World} {host : Host World}.

(** One element of the [Promise.all]: the rejection is kept for later and
    the state and the log are those of [killProcess]. *)
Lemma kill_attempt_run (panelId : string) (s : St.t World) :
  try_catch (let! _ := killProcess panelId in ret None) (fun e => ret (Some e)) s
  = (Ok (match result_of (killProcess panelId s) with
         | Ok _ => None
         | Thrown e => Some e
         end),
     state_of (killProcess panelId s), effects_of (killProcess panelId s)).
Proof.
  unfold try_catch, bind, ret.
  destruct (killProcess panelId s) as [[[[]|e] s1] t1]; cbn; rewrite app_nil_r; reflexivity.
Qed.

Lemma kill_each_outcome (panelIds : list string) : forall s : St.t World,
  St.processes (state_of (kill_each panelIds s)) ⊆ St.processes s /\
  St.availabilityCache (state_of (kill_each panelIds s)) = St.availabilityCache s /\
  St.globals (state_of (kill_each panelIds s)) = St.globals s /\
  (result_of (kill_each panelIds s) = Ok tt ->
   forall panelId, panelId ∈ panelIds ->
     St.processes (state_of (kill_each panelIds s)) !! panelId = None) /\
  (forall panelId cliProcess,
     panelId ∈ panelIds -> St.processes s !! panelId = Some cliProcess ->
     CliProcess.sessionId cliProcess ∈ cleanup_calls (effects_of (kill_each panelIds s))).
Proof.
  induction panelIds as [|first rest IH]; intros s.
  - cbn. repeat split; auto.
    + intros _ panelId Hin. inversion Hin.
    + intros panelId cliProcess Hin. inversion Hin.
  - cbn [kill_each]. rewrite (bind_ok _ _ _ _ _ _ (kill_attempt_run first s)).
    destruct (killProcess_registry first s) as (Hreg & Hgone & Hc & Hg).
    set (s1 := state_of (killProcess first s)) in *.
    destruct (IH s1) as (Hsub & Hc2 & Hg2 & Hnone & Hcleanup).
    assert (Hsub1 : St.processes s1 ⊆ St.processes s).
    { destruct Hreg as [-> | ->]; [reflexivity | apply delete_subseteq]. }
    assert (Hrun : forall k : unit -> M World unit,
              (forall u s0, state_of (k u s0) = s0 /\ effects_of (k u s0) = []) ->
              state_of (bind (kill_each rest) k s1) = state_of (kill_each rest s1) /\
              effects_of (bind (kill_each rest) k s1) = effects_of (kill_each rest s1) /\
              (result_of (bind (kill_each rest) k s1) = Ok tt ->
               result_of (kill_each rest s1) = Ok tt /\
               result_of (k tt (state_of (kill_each rest s1))) = Ok tt)).
    { intros k Hk. unfold bind.
      destruct (kill_each rest s1) as [[[[]|e] s2] t2]; cbn.
      - destruct (Hk tt s2) as (Hs & Ht). destruct (k tt s2) as [[r s3] t3].
        cbn in *. subst. rewrite app_nil_r. repeat split; auto.
      - repeat split; auto; discriminate. }
    match goal with |- context [bind (kill_each rest) ?k s1] =>
      destruct (Hrun k) as (Hstate & Hlog & Hres) end.
    { intros u s0. destruct (result_of (killProcess first s)); split; reflexivity. }
    cbn [result_of state_of effects_of fst snd]. rewrite Hstate, Hlog.
    split; [etrans; eassumption|]. split; [congruence|]. split; [congruence|]. split.
    + intros Hok panelId Hin. destruct (Hres Hok) as (Hrest & Hfirst).
      destruct (result_of (killProcess first s)) as [[]|e] eqn:Hkill; [|discriminate].
      apply elem_of_cons in Hin as [-> | Hin].
      * eapply lookup_weaken_None; [apply Hgone; reflexivity | exact Hsub].
      * apply Hnone; assumption.
    + intros panelId cliProcess Hin Hlookup. rewrite cleanup_calls_app, elem_of_app.
      destruct (decide (panelId = first)) as [-> | Hne].
      * left. destruct (killProcess_run first cliProcess s Hlookup) as (before & after & -> & _).
        rewrite cleanup_calls_app, elem_of_app. right. cbn. left.
      * right. apply elem_of_cons in Hin as [? | Hin]; [contradiction|].
        apply (Hcleanup panelId); [exact Hin|].
        destruct Hreg as [-> | ->]; [exact Hlookup|].
        rewrite lookup_delete_ne; [exact Hlookup | congruence].
Qed.

(** X4. [killAllProcesses] only ever removes entries, and leaves the cache
    and the flags alone.  The cleanup hook is called for the session of
    every panel that was registered, also when the kill of another panel
    throws; and if the whole operation returns, the registry is empty. *)
Theorem killAllProcesses_outcome (s : St.t World) :
  let outcome := killAllProcesses s in
  St.processes (state_of outcome) ⊆ St.processes s /\
  St.availabilityCache (state_of outcome) = St.availabilityCache s /\
  St.globals (state_of outcome) = St.globals s /\
  (result_of outcome = Ok tt -> St.processes (state_of outcome) = ∅) /\
  (forall panelId cliProcess,
     St.processes s !! panelId = Some cliProcess ->
     CliProcess.sessionId cliProcess ∈ cleanup_calls (effects_of outcome)).
Proof.
  intros outcome.
  assert (Hstart : outcome = kill_each (map fst (map_to_list (St.processes s))) s).
  { subst outcome. unfold killAllProcesses.
    rewrite (bind_ok get _ s s s [] eq_refl). cbn [app]. symmetry. apply outcome_eta. }
  rewrite Hstart.
  destruct (kill_each_outcome (map fst (map_to_list (St.processes s))) s)
    as (Hsub & Hc & Hg & Hnone & Hcleanup).
  assert (Hkeys : forall panelId cliProcess,
            St.processes s !! panelId = Some cliProcess ->
            panelId ∈ map fst (map_to_list (St.processes s))).
  { intros panelId cliProcess Hlookup. apply list_elem_of_fmap.
    exists (panelId, cliProcess). split; [reflexivity|].
    apply elem_of_map_to_list. exact Hlookup. }
  split; [exact Hsub|]. split; [exact Hc|]. split; [exact Hg|]. split.
  - intros Hok. apply map_empty. intros panelId.
    destruct (St.processes s !! panelId) as [cliProcess|] eqn:Hlookup.
    + apply (Hnone Hok). eapply Hkeys, Hlookup.
    + eapply lookup_weaken_None; [exact Hlookup | exact Hsub].
  - intros panelId cliProcess Hlookup. eapply Hcleanup; [|exact Hlookup].
    eapply Hkeys, Hlookup.
Qed.

End KillAll.

(** ** Starting a panel process *)

Lemma lifecycle_events_app (t1 t2 : list Effect) :
  lifecycle_events (t1 ++ t2) = (lifecycle_events t1 ++ lifecycle_events t2)%list.
Proof. unfold lifecycle_events. rewrite emitted_app. apply List.filter_app. Qed.

Lemma calm_nil : calm [].
Proof. split; reflexivity. Qed.

Lemma calm_app (t1 t2 : list Effect) : calm t1 -> calm t2 -> calm (t1 ++ t2).
Proof.
  unfold calm, no_lifecycle_event. intros [H1 K1] [H2 K2].
  rewrite lifecycle_events_app, H1, H2. split; [reflexivity | apply no_kill_app; assumption].
Qed.

(** Logs of the steps of [spawnCliProcess] that come before the entry is
    stored. *)
Section SpawnLogs.

Context {World : Type} {tool : CliTool World} {host : Host World}.
Variable Q : list Effect -> Prop.
Hypothesis Q_nil : Q [].
Hypothesis Q_app : forall t1 t2, Q t1 -> Q t2 -> Q (t1 ++ t2)%list.
Hypothesis Q_probe : forall customPath, Q [ProbeCall customPath].
Hypothesis Q_output : forall e registry, Q [Emitted (OutputEvent e) registry].
Hypothesis Q_noted : forall sessionId title body, Q [SessionErrorAdded sessionId title body].
Hypothesis Q_slept : forall ms, Q [Slept ms].
Hypothesis Q_spawn : forall mode file args cwd, Q [PtySpawnCall mode file args cwd].

Lemma logs_only_now : logs_only Q (now (host := host)).
Proof. intros s. exact Q_nil. Qed.

Lemma logs_only_set_availabilityCache c : logs_only (W := World) Q (set_availabilityCache c).
Proof. intros s. exact Q_nil. Qed.

Lemma logs_only_set_global key v : logs_only (W := World) Q (set_global key v).
Proof. intros s. exact Q_nil. Qed.

Lemma logs_only_getCachedAvailability : logs_only Q (getCachedAvailability (host := host)).
Proof.
  unfold getCachedAvailability. logs_step; [logs_step|].
  destruct (cache_is_fresh a);
    repeat first [apply logs_only_now | apply logs_only_set_availabilityCache | logs_step].
Qed.

Lemma logs_only_handleCliNotAvailable availability panelId sessionId :
  logs_only Q (handleCliNotAvailable availability panelId sessionId).
Proof.
  intros s. rewrite handleCliNotAvailable_run.
  apply (Q_app [_] [_]); [apply Q_output | apply Q_noted].
Qed.

Lemma logs_only_getSystemEnvironment : logs_only Q (getSystemEnvironment (host := host)).
Proof. unfold getSystemEnvironment. repeat logs_step. Qed.

Lemma logs_only_spawn_attempt n command args cwd env :
  logs_only Q (spawn_attempt n command args cwd env).
Proof.
  unfold spawn_attempt, spawn_delay, locate_node_invocation, spawn_via_pty.
  logs_step.
  - logs_step; [logs_step|].
    destruct os_platform; repeat first [apply (logs_only_sleep Q Q_slept) | logs_step].
  - repeat logs_step.
Qed.

Lemma logs_only_spawn_loop fuel : forall n lastError command args cwd env,
  logs_only Q (spawn_loop fuel n lastError command args cwd env).
Proof.
  induction fuel as [|fuel IH]; intros n lastError command args cwd env.
  - simpl. destruct (n <? 2); logs_step.
  - rewrite spawn_loop_unfold. destruct (n <? 2); [|logs_step].
    logs_step.
    + logs_step; [apply logs_only_spawn_attempt | logs_step].
    + repeat first [apply IH | apply logs_only_set_global | logs_step].
Qed.

Lemma logs_only_spawnPtyProcess command args cwd env :
  logs_only Q (spawnPtyProcess command args cwd env).
Proof.
  unfold spawnPtyProcess. logs_step; [apply logs_only_spawn_loop|].
  destruct a; logs_step.
Qed.

End SpawnLogs.

(** The same steps, for a relation between the state before and the state
    after that ignores the world and the availability cache and allows
    the sticky flag to be set. *)
Section SpawnWithin.

Context {World : Type} {tool : CliTool World} {host : Host World}.
Variable R : St.t World -> St.t World -> Prop.
Hypothesis R_trans : forall s1 s2 s3, R s1 s2 -> R s2 s3 -> R s1 s3.
Hypothesis R_frame :
  forall s s', St.processes s' = St.processes s -> St.globals s' = St.globals s -> R s s'.
Hypothesis R_flag : forall s, R s (flagged s).

Lemma within_refl (s : St.t World) : R s s.
Proof. apply R_frame; reflexivity. Qed.

Lemma within_world (s : St.t World) (w : World) : R s (with_world s w).
Proof. apply R_frame; reflexivity. Qed.

Lemma stays_within_moving_world {A} (m : M World A) : only_moves_world m -> stays_within R m.
Proof. intros Hm s. destruct (Hm s) as (Hp & _ & Hg). apply R_frame; assumption. Qed.

Lemma stays_within_getCachedAvailability : stays_within R (getCachedAvailability (host := host)).
Proof.
  intros s. destruct (getCachedAvailability_keeps_registry s) as (Hp & Hg & _).
  apply R_frame; assumption.
Qed.

Lemma stays_within_spawn_loop fuel : forall n lastError command args cwd env,
  stays_within R (spawn_loop fuel n lastError command args cwd env).
Proof.
  pose proof within_refl. pose proof within_world.
  induction fuel as [|fuel IH]; intros n lastError command args cwd env.
  - simpl. destruct (n <? 2); within_step.
  - rewrite spawn_loop_unfold. destruct (n <? 2); [|within_step].
    within_step.
    + within_step; [|within_step].
      apply stays_within_moving_world, only_moves_world_spawn_attempt.
    + within_step; [within_step|].
      repeat apply stays_within_if; try within_step; [|apply IH].
      intros s. apply R_flag.
Qed.

Lemma stays_within_spawnPtyProcess command args cwd env :
  stays_within R (spawnPtyProcess command args cwd env).
Proof.
  pose proof within_refl. pose proof within_world.
  unfold spawnPtyProcess. within_step; [apply stays_within_spawn_loop|].
  destruct a; within_step.
Qed.

End SpawnWithin.

Section SpawnOutcome.

Context {World : Type} {tool : CliTool World} {host : Host World}.

Lemma same_registry_trans (s1 s2 s3 : St.t World) :
  same_registry s1 s2 -> same_registry s2 s3 -> same_registry s1 s3.
Proof. unfold same_registry. congruence. Qed.

Lemma quiet_moving_world {A} (m : M World A) :
  only_moves_world m -> logs_only calm m -> quiet m.
Proof. intros Hm Hlog. split; [|exact Hlog]. intros s. apply (Hm s). Qed.

Lemma quiet_call_res {A} (f : World -> Res A * World) : quiet (call_res f).
Proof.
  apply quiet_moving_world; [auto with frame|].
  apply logs_only_call_res, calm_nil.
Qed.

Lemma starts_panel_bind {A} options (m : M World A) (k : A -> M World unit) :
  quiet m -> (forall a, starts_panel options (k a)) -> starts_panel options (bind m k).
Proof.
  intros [Hreg Hlog] Hk s. specialize (Hreg s). specialize (Hlog s). unfold bind.
  destruct (m s) as [[[a|e] s1] t1];
    cbn [result_of state_of effects_of fst snd] in Hreg, Hlog;
    destruct Hlog as (Hquiet & Hnokill); unfold same_registry in Hreg.
  - specialize (Hk a s1). cbv zeta in Hk. destruct (k a s1) as [[r s2] t2].
    cbn [result_of state_of effects_of fst snd] in Hk |- *.
    destruct Hk as (Hnokill2 & Hk). split; [apply no_kill_app; assumption|].
    rewrite Hreg in Hk. rewrite lifecycle_events_app, Hquiet. exact Hk.
  - cbn [result_of state_of effects_of fst snd]. repeat split; assumption.
Qed.

(** The steps of [spawnCliProcess] inside its [try]. *)
Lemma starts_panel_body options :
  let panelId := CliSpawnOptions.panelId options in
  let sessionId := CliSpawnOptions.sessionId options in
  let worktreePath := CliSpawnOptions.worktreePath options in
  starts_panel options
    (let! availability := getCachedAvailability in
     let! _ :=
       if negb (Availability.available availability) then
         let! _ := handleCliNotAvailable availability panelId sessionId in
         throw (getCliToolName ++ " CLI not available: "
                  ++ Js.show_opt (Availability.error availability))
       else ret tt in
     let args := buildCommandArgs options in
     let! cliEnv := call_res (initializeCliEnvironment options) in
     let! systemEnv := getSystemEnvironment in
     let env : gmap string string := cliEnv ∪ systemEnv in
     let! cliCommand := call_res getCliExecutablePath in
     let! ptyProcess := spawnPtyProcess cliCommand args worktreePath env in
     let cliProcess := CliProcess.mk ptyProcess panelId sessionId worktreePath in
     let! _ := set_processes (insert panelId cliProcess) in
     emit (SpawnedEvent panelId sessionId)).
Proof.
  intros panelId sessionId worktreePath.
  assert (Hlogs : forall A (m : M World A),
            (forall Q : list Effect -> Prop,
               Q [] -> (forall t1 t2, Q t1 -> Q t2 -> Q (t1 ++ t2)%list) ->
               (forall customPath, Q [ProbeCall customPath]) ->
               (forall e registry, Q [Emitted (OutputEvent e) registry]) ->
               (forall sessionId title body, Q [SessionErrorAdded sessionId title body]) ->
               (forall ms, Q [Slept ms]) ->
               (forall mode file args cwd, Q [PtySpawnCall mode file args cwd]) ->
               logs_only Q m) ->
            logs_only calm m).
  { intros A m H. apply H; try (intros; split; reflexivity). apply calm_app. }
  assert (Hwithin : forall A (m : M World A),
            (forall R : St.t World -> St.t World -> Prop,
               (forall s1 s2 s3, R s1 s2 -> R s2 s3 -> R s1 s3) ->
               (forall s s', St.processes s' = St.processes s ->
                             St.globals s' = St.globals s -> R s s') ->
               (forall s, R s (flagged s)) ->
               stays_within R m) ->
            stays_within same_registry m).
  { intros A m H. apply H.
    - apply same_registry_trans.
    - intros s s' Hp _. exact Hp.
    - intros s. reflexivity. }
  apply starts_panel_bind.
  { split.
    - apply Hwithin. intros R ? ? ?. apply stays_within_getCachedAvailability; assumption.
    - apply Hlogs. intros Q ? ? ? ? ? ? ?. apply logs_only_getCachedAvailability; assumption. }
  intros availability. apply starts_panel_bind.
  { destruct (negb (Availability.available availability)).
    - apply quiet_moving_world.
      + apply only_moves_world_bind; [|auto with frame].
        apply only_moves_world_handleCliNotAvailable.
      + apply logs_only_bind; [apply calm_app | |].
        * apply Hlogs. intros Q ? ? ? ? ? ? ?.
          apply logs_only_handleCliNotAvailable; assumption.
        * intros _. apply logs_only_throw, calm_nil.
    - apply quiet_moving_world; [auto with frame | apply logs_only_ret, calm_nil]. }
  intros _. apply starts_panel_bind; [apply quiet_call_res|].
  intros cliEnv. apply starts_panel_bind.
  { apply quiet_moving_world; [apply only_moves_world_getSystemEnvironment|].
    apply Hlogs. intros Q ? ? ? ? ? ? ?. apply logs_only_getSystemEnvironment; assumption. }
  intros systemEnv. apply starts_panel_bind; [apply quiet_call_res|].
  intros cliCommand. apply starts_panel_bind.
  { split.
    - apply Hwithin. intros R ? ? ?. apply stays_within_spawnPtyProcess; assumption.
    - apply Hlogs. intros Q ? ? ? ? ? ? ?. apply logs_only_spawnPtyProcess; assumption. }
  intros ptyProcess s. cbn. split; [reflexivity|].
  exists ptyProcess. split; reflexivity.
Qed.

(** X1. [spawnCliProcess] is all or nothing.  If it returns, the registry
    is the old one with the entry of the panel stored (an entry the panel
    already had is replaced), and the only lifecycle event is one [spawned]
    event, emitted with the entry in place.  If it throws, the registry is
    as it was and the only lifecycle event is one [error] event, which
    carries the message of the failure; the error thrown is that failure
    when somebody listens to ['error'] events, and otherwise the
    unhandled-error of [emit], so that the caller then sees a message other
    than the one of the event.  In neither case is a process killed; in
    particular the process of a replaced entry is not. *)
Theorem spawnCliProcess_all_or_nothing (options : CliSpawnOptions.t) (s : St.t World) :
  let panelId := CliSpawnOptions.panelId options in
  let sessionId := CliSpawnOptions.sessionId options in
  let worktreePath := CliSpawnOptions.worktreePath options in
  let outcome := spawnCliProcess options s in
  no_kill (effects_of outcome) /\
  match result_of outcome with
  | Ok _ =>
      exists ptyProcess,
        let registry :=
          <[panelId := CliProcess.mk ptyProcess panelId sessionId worktreePath]>
            (St.processes s) in
        St.processes (state_of outcome) = registry /\
        lifecycle_events (effects_of outcome) = [(SpawnedEvent panelId sessionId, registry)]
  | Thrown errorMessage =>
      St.processes (state_of outcome) = St.processes s /\
      exists failure,
        lifecycle_events (effects_of outcome)
          = [(ErrorEvent panelId sessionId failure, St.processes s)] /\
        errorMessage
          = if hasErrorListener (St.world (state_of outcome)) then failure
            else "Unhandled error. ("
                   ++ util_inspect (ErrorEvent panelId sessionId failure) ++ ")"
  end.
Proof.
  intros panelId sessionId worktreePath outcome. subst outcome.
  pose proof (starts_panel_body options s) as Hbody. cbv zeta in Hbody.
  fold panelId sessionId worktreePath in Hbody.
  unfold spawnCliProcess. fold panelId sessionId worktreePath.
  match type of Hbody with context [effects_of (?body s)] =>
    destruct (body s) as [[[[]|e] s1] t1] eqn:Hrun end;
    cbn [result_of state_of effects_of fst snd] in Hbody.
  - rewrite (try_catch_ok _ _ _ _ _ _ Hrun). exact Hbody.
  - rewrite (try_catch_thrown _ _ _ _ _ _ Hrun), rethrow_run.
    destruct Hbody as (Hnokill & Hreg & Hquiet).
    cbn [result_of state_of effects_of fst snd app].
    split; [apply no_kill_app; [exact Hnokill | reflexivity]|].
    split; [exact Hreg|]. exists e. split; [|reflexivity].
    rewrite lifecycle_events_app, Hquiet, Hreg. reflexivity.
Qed.

End SpawnOutcome.

(** The demo world without the tool and without a listener for ['error']
    events: the caller gets the unhandled-error of [emit], not the failure
    the event carries. *)
Example spawnCliProcess_unheard_error :
  let outcome := spawnCliProcess Demo.options (Demo.fresh Demo.unheard) in
  result_of outcome
    = Thrown ("Unhandled error. ({ panelId: 'p1', sessionId: 's1', error: "
                ++ "'claude CLI not available: claude not found in PATH' })") /\
  map fst (lifecycle_events (effects_of outcome))
    = [ErrorEvent "p1" "s1" "claude CLI not available: claude not found in PATH"] /\
  St.processes (state_of outcome) = ∅.
Proof. repeat split; vm_compute; reflexivity. Qed.

(** ** The state and the delays of a spawn *)

Lemma sleeps_app (t1 t2 : list Effect) : sleeps (t1 ++ t2) = (sleeps t1 ++ sleeps t2)%list.
Proof. apply flat_map_app. Qed.

Section SpawnState.

Context {World : Type} {tool : CliTool World} {host : Host World}.

Lemma spawn_delay_sleeps (s : St.t World) :
  sleeps (effects_of (spawn_delay s)) = contention_delay s.
Proof.
  unfold spawn_delay, contention_delay, bind, get, sleep, call, tell, ret.
  destruct os_platform; try reflexivity.
  destruct (0 <? Z.of_nat (size (St.processes s))); reflexivity.
Qed.

Lemma locate_sleeps_nothing command args (s : St.t World) :
  sleeps (effects_of (locate_node_invocation command args s)) = [].
Proof.
  unfold locate_node_invocation, bind, try_catch, call_res, ret. simpl.
  destruct (findCliNodeScript command (St.world s)) as [[found|e] w]; simpl;
    destruct (findNodeExecutable w) as [[nodePath|e'] w']; reflexivity.
Qed.

Lemma spawn_attempt_sleeps n command args cwd env (s : St.t World) :
  sleeps (effects_of (spawn_attempt n command args cwd env s)) = contention_delay s.
Proof.
  rewrite spawn_attempt_run. cbv zeta.
  pose proof (spawn_delay_sleeps s) as Hdelay.
  destruct ((n =? 0) && negb (needsNodeFallback s)).
  - rewrite spawn_via_pty_run. cbn [effects_of snd].
    rewrite sleeps_app, Hdelay. apply app_nil_r.
  - pose proof (locate_sleeps_nothing command args (state_of (spawn_delay s))) as Hlocate.
    destruct (result_of (locate_node_invocation command args (state_of (spawn_delay s)))).
    + rewrite spawn_via_pty_run. cbn [effects_of snd].
      rewrite !sleeps_app, Hdelay, Hlocate. apply app_nil_r.
    + cbn [effects_of snd]. rewrite sleeps_app, Hdelay, Hlocate. apply app_nil_r.
Qed.

Lemma spawn_delay_effects (s : St.t World) :
  effects_of (spawn_delay s) = map Slept (contention_delay s).
Proof.
  unfold spawn_delay, contention_delay, bind, get, sleep, call, tell, ret.
  destruct os_platform; try reflexivity.
  destruct (0 <? Z.of_nat (size (St.processes s))); reflexivity.
Qed.

(** An attempt starts with the delay, and waits no more after it. *)
Lemma spawn_attempt_delay_first n command args cwd env (s : St.t World) :
  exists rest,
    effects_of (spawn_attempt n command args cwd env s)
      = (map Slept (contention_delay s) ++ rest)%list /\
    sleeps rest = [].
Proof.
  rewrite spawn_attempt_run. cbv zeta. rewrite spawn_delay_effects.
  destruct ((n =? 0) && negb (needsNodeFallback s)).
  - rewrite spawn_via_pty_run. eexists. split; reflexivity.
  - pose proof (locate_sleeps_nothing command args (state_of (spawn_delay s))) as Hlocate.
    destruct (result_of (locate_node_invocation command args (state_of (spawn_delay s)))).
    + rewrite spawn_via_pty_run. eexists. split; [reflexivity|].
      cbn [effects_of snd]. rewrite sleeps_app, Hlocate. reflexivity.
    + eexists. split; [reflexivity|]. exact Hlocate.
Qed.

(** X11. What [spawnPtyProcess] does, attempt by attempt.  The first
    attempt always runs, and is the direct spawn of the command when the
    flag of the tool is not set.  A second attempt runs exactly when the
    first fails with a shebang-shaped message while the flag is not set:
    then, and only then, the flag is set (no other flag changes), the second
    attempt runs from the state so flagged, and the log, the final state
    and the result are those of the two attempts one after the other;
    otherwise they are those of the first attempt alone.  A failure carries
    the message of the last attempt after [Failed to spawn], the name of the
    tool and a colon.  Every attempt begins with the half-second delay on
    Linux while a panel is registered, and with none otherwise, and waits no
    more after it.  The registry and the availability cache are as
    before. *)
Theorem spawnPtyProcess_state command args cwd env (s : St.t World) :
  let first := spawn_attempt 0 command args cwd env s in
  let retried :=
    match result_of first with
    | Thrown errorMsg => negb (needsNodeFallback s) && shebang_shaped errorMsg
    | Ok _ => false
    end in
  let retry := spawn_attempt 1 command args cwd env (flagged (state_of first)) in
  let last := if retried then retry else first in
  let outcome := spawnPtyProcess command args cwd env s in
  effects_of outcome
    = (if retried then effects_of first ++ effects_of retry else effects_of first)%list /\
  state_of outcome = state_of last /\
  result_of outcome
    = match result_of last with
      | Ok ptyProcess => Ok ptyProcess
      | Thrown errorMsg =>
          Thrown ("Failed to spawn " ++ getCliToolName ++ ": " ++ errorMsg)%string
      end /\
  (needsNodeFallback s = false -> spawn_calls (effects_of first) = [(Direct, command, args)]) /\
  (forall n (s0 : St.t World),
     exists rest,
       effects_of (spawn_attempt n command args cwd env s0)
         = (map Slept (contention_delay s0) ++ rest)%list /\
       sleeps rest = []) /\
  St.processes (state_of outcome) = St.processes s /\
  St.availabilityCache (state_of outcome) = St.availabilityCache s /\
  St.globals (state_of outcome)
    = (if retried then <[needsNodeFallbackKey := true]> (St.globals s) else St.globals s) /\
  sleeps (effects_of outcome)
    = (if retried then contention_delay s ++ contention_delay s else contention_delay s)%list /\
  (forall errorMessage,
     result_of outcome = Thrown errorMessage ->
     exists cause, errorMessage = "Failed to spawn " ++ getCliToolName ++ ": " ++ cause).
Proof.
  intros first retried retry last outcome.
  pose proof (spawnPtyProcess_run command args cwd env s) as Hrun. cbv zeta in Hrun.
  fold first retry outcome in Hrun.
  destruct (only_moves_world_spawn_attempt 0 command args cwd env s) as (Hp & Hc & Hg).
  fold first in Hp, Hc, Hg.
  pose proof (spawn_attempt_sleeps 0 command args cwd env s) as Hsleep.
  fold first in Hsleep.
  destruct (only_moves_world_spawn_attempt 1 command args cwd env (flagged (state_of first)))
    as (Hp' & Hc' & Hg').
  pose proof (spawn_attempt_sleeps 1 command args cwd env (flagged (state_of first))) as Hsleep'.
  fold retry in Hp', Hc', Hg', Hsleep'.
  assert (Hdelay : contention_delay (flagged (state_of first)) = contention_delay s).
  { unfold contention_delay, flagged. cbn [St.processes]. rewrite Hp. reflexivity. }
  assert (Hdirect : needsNodeFallback s = false ->
                    spawn_calls (effects_of first) = [(Direct, command, args)]).
  { intros Hunset. pose proof (spawn_attempt_calls 0 command args cwd env s) as (_ & Hcalls).
    rewrite Hunset in Hcalls. exact Hcalls. }
  assert (Hfirst_delay : forall n (s0 : St.t World),
            exists rest,
              effects_of (spawn_attempt n command args cwd env s0)
                = (map Slept (contention_delay s0) ++ rest)%list /\
              sleeps rest = [])
    by (intros n s0; apply spawn_attempt_delay_first).
  subst last retried. destruct (result_of first) as [ptyProcess|errorMsg] eqn:Hfirst.
  - rewrite Hrun. cbn [result_of state_of effects_of fst snd]. rewrite Hfirst.
    repeat split; try assumption. discriminate.
  - destruct (negb (needsNodeFallback s) && shebang_shaped errorMsg).
    + rewrite Hrun. cbn [result_of state_of effects_of fst snd].
      rewrite Hp', Hc', Hg', sleeps_app, Hsleep, Hsleep', Hdelay.
      cbn [flagged St.processes St.availabilityCache St.globals]. rewrite Hg.
      split; [reflexivity|]. split; [reflexivity|].
      split; [destruct (result_of retry); reflexivity|].
      repeat split; try assumption.
      intros errorMessage. destruct (result_of retry) as [?|cause]; [discriminate|].
      intros [= <-]. exists cause. reflexivity.
    + rewrite Hrun. cbn [result_of state_of effects_of fst snd]. rewrite Hfirst.
      repeat split; try assumption.
      intros errorMessage [= <-]. exists errorMsg. reflexivity.
Qed.

End SpawnState.

(** ** The data listener *)

Lemma includes_nl_cons (c : ascii) (rest : string) :
  Js.includes (String c rest) Js.nl = Ascii.eqb c Js.newline || Js.includes rest Js.nl.
Proof.
  cbn [Js.includes Js.nl String.prefix].
  destruct (ascii_dec Js.newline c) as [<-|Hne].
  - rewrite Ascii.eqb_refl. destruct rest; reflexivity.
  - destruct (Ascii.eqb_spec c Js.newline) as [->|_]; [contradiction | reflexivity].
Qed.

Lemma one_line_cons (c : ascii) (rest : string) :
  Ascii.eqb c Js.newline = false -> one_line rest -> one_line (String c rest).
Proof. unfold one_line. intros Hc Hrest. rewrite includes_nl_cons, Hc, Hrest. reflexivity. Qed.

(** Neither a complete line nor the rest holds a line feed. *)
Lemma cut_one_line (s : string) :
  Forall one_line (fst (Js.cut s)) /\ one_line (snd (Js.cut s)).
Proof.
  induction s as [|c s IH]; [split; [constructor | reflexivity]|].
  cbn [Js.cut]. destruct (Js.cut s) as [lines last]. cbn [fst snd] in IH.
  destruct IH as (Hlines & Hlast).
  destruct (Ascii.eqb c Js.newline) eqn:Hc.
  - split; [constructor; [reflexivity | exact Hlines] | exact Hlast].
  - destruct lines as [|line lines]; cbn [fst snd].
    + split; [constructor|]. apply one_line_cons; assumption.
    + inversion Hlines as [|? ? Hline Hrest]; subst. split; [|exact Hlast].
      constructor; [|exact Hrest]. apply one_line_cons; assumption.
Qed.

(** The lines, each with its line feed put back, followed by the rest, are
    the text. *)
Lemma cut_concat (s : string) :
  fold_right (fun line rest => line ++ Js.nl ++ rest) (snd (Js.cut s)) (fst (Js.cut s)) = s.
Proof.
  induction s as [|c s IH]; [reflexivity|].
  simpl. destruct (Js.cut s) as [lines last]. simpl in IH.
  destruct (Ascii.eqb_spec c Js.newline) as [->|Hc].
  - simpl. rewrite IH. reflexivity.
  - destruct lines as [|line lines]; simpl in *.
    + rewrite IH. reflexivity.
    + rewrite <- IH. reflexivity.
Qed.

Section DataListener.

Context {World : Type} {tool : CliTool World} {host : Host World}.

Lemma only_moves_world_process_lines lines panelId sessionId :
  only_moves_world (process_lines lines panelId sessionId).
Proof.
  unfold process_lines. apply only_moves_world_for_each. intros line.
  apply only_moves_world_if; [apply only_moves_world_parse_and_emit | auto with frame].
Qed.

Lemma logs_only_process_lines (Q : list Effect -> Prop) lines panelId sessionId :
  Q [] -> (forall t1 t2, Q t1 -> Q t2 -> Q (t1 ++ t2)%list) ->
  (forall data, Q [ParserCall data]) ->
  (forall e registry, Q [Emitted (OutputEvent e) registry]) ->
  logs_only Q (process_lines lines panelId sessionId).
Proof.
  intros Hnil Happ Hparser Houtput.
  unfold process_lines, parse_and_emit, parse. repeat logs_step.
Qed.

(** X9. One call of the data listener.  The buffered text followed by the
    chunk is cut at its line feeds: the lines, each with its line feed put
    back, followed by the new buffer, are that text again, so nothing is
    lost and nothing is invented; no line and no buffer holds a line feed.
    The parser is called once for every line that is not blank, in order,
    with the line feed put back.  The listener records that output was
    received and appends the chunk to the accumulated output.  It never
    throws, emits nothing but output events, kills nothing, and leaves the
    registry, the cache and the flags as they are. *)
Theorem onData_delivers_lines panelId sessionId h data (s : St.t World) :
  let text := Handler.buffer h ++ data in
  let lines := snd (Js.pop (Js.split_newline text)) in
  let buffer := Js.or_empty (fst (Js.pop (Js.split_newline text))) in
  let outcome := onData panelId sessionId h data s in
  result_of outcome = Ok (Handler.mk true (Handler.lastOutput h ++ data) buffer) /\
  fold_right (fun line rest => line ++ Js.nl ++ rest) buffer lines = text /\
  Forall one_line lines /\ one_line buffer /\
  parser_calls (effects_of outcome)
    = map (fun line => line ++ Js.nl) (List.filter (fun line => Js.truthy (Js.trim line)) lines) /\
  calm (effects_of outcome) /\
  St.processes (state_of outcome) = St.processes s /\
  St.availabilityCache (state_of outcome) = St.availabilityCache s /\
  St.globals (state_of outcome) = St.globals s.
Proof.
  intros text lines buffer outcome. subst lines buffer outcome.
  rewrite pop_split_newline, onData_run. fold text.
  cbn [fst snd Js.or_empty result_of state_of effects_of].
  destruct (cut_one_line text) as (Hlines & Hlast).
  split; [reflexivity|]. split; [apply cut_concat|].
  split; [exact Hlines|]. split; [exact Hlast|].
  split; [apply parser_calls_process_lines|].
  split.
  { apply logs_only_process_lines; try (intros; split; reflexivity). apply calm_app. }
  apply only_moves_world_process_lines.
Qed.

End DataListener.

(** ** A whole session: data, then exit *)

Section Session.

Context {World : Type} {tool : CliTool World} {host : Host World}.

Lemma feed_received panelId sessionId chunks : forall h (s : St.t World) h',
  result_of (feed panelId sessionId h chunks s) = Ok h' ->
  Handler.hasReceivedOutput h'
  = Handler.hasReceivedOutput h || negb (length chunks =? 0)%nat.
Proof.
  induction chunks as [|data rest IH]; intros h s h' Hfeed.
  - cbn in Hfeed. injection Hfeed as <-. rewrite orb_false_r. reflexivity.
  - cbn [feed] in Hfeed.
    rewrite (bind_ok _ _ _ _ _ _ (onData_run panelId sessionId h data s)) in Hfeed.
    cbn [result_of fst] in Hfeed. apply IH in Hfeed. rewrite Hfeed.
    cbn. rewrite orb_true_r. reflexivity.
Qed.

Lemma onExit_parser_calls ptyProcess panelId sessionId h exitCode signal (s : St.t World) :
  parser_calls (effects_of (onExit ptyProcess panelId sessionId h exitCode signal s))
  = if Js.truthy (Js.trim (Handler.buffer h)) then [Handler.buffer h] else [].
Proof.
  destruct (onExit_run ptyProcess panelId sessionId h exitCode signal s)
    as (sweep & s1 & handled & s3 & Hrun).
  cbv zeta in Hrun. destruct Hrun as (_ & _ & Hsweep & _ & Hhandled & _ & Hrun).
  assert (Hevents : forall (events : list CliOutputEvent.t) registry,
            parser_calls (map (fun event => Emitted (OutputEvent event) registry) events) = []).
  { induction events; intros registry; [reflexivity | apply IHevents]. }
  rewrite Hrun.
  destruct (fst (cleanupCliResources sessionId (St.world s3))) as [[]|e];
    cbn [effects_of snd];
    rewrite !parser_calls_app, Hsweep, Hhandled;
    destruct (Js.truthy (Js.trim (Handler.buffer h)));
    cbn [parser_calls flat_map app]; fold (parser_calls);
    rewrite ?Hevents; reflexivity.
Qed.

(** X10. A whole session.  When the chunks of the output are fed to the
    data listener in order and the exit listener then runs with the handler
    state they leave, the parser is called once for every line of the output
    that is not blank, in order: a terminated line with its line feed, an
    unterminated last line as it is.  The handler has recorded output exactly
    when there was at least one chunk, and its accumulated output is the
    whole output. *)
Theorem session_parses_every_line ptyProcess panelId sessionId chunks exitCode signal
    (s : St.t World) :
  let text := Js.join EmptyString chunks in
  let lines := snd (Js.pop (Js.split_newline text)) in
  let last := Js.or_empty (fst (Js.pop (Js.split_newline text))) in
  let fed := feed panelId sessionId Handler.initial chunks s in
  exists h,
    result_of fed = Ok h /\
    Handler.hasReceivedOutput h = negb (length chunks =? 0)%nat /\
    Handler.lastOutput h = text /\
    let exited := onExit ptyProcess panelId sessionId h exitCode signal (state_of fed) in
    parser_calls (effects_of fed ++ effects_of exited)
    = (map (fun line => (line ++ Js.nl)%string)
           (List.filter (fun line => Js.truthy (Js.trim line)) lines)
       ++ (if Js.truthy (Js.trim last) then [last] else []))%list.
Proof.
  intros text lines last fed. subst lines last.
  rewrite pop_split_newline. cbn [fst snd Js.or_empty].
  destruct (feed_run panelId sessionId chunks Handler.initial s eq_refl)
    as (h & Hfeed & Hbuffer & Hlast).
  change (Handler.buffer Handler.initial ++ Js.join EmptyString chunks) with text in *.
  exists h. subst fed. rewrite Hfeed. cbn [result_of state_of effects_of fst snd].
  split; [reflexivity|]. split.
  { apply (feed_received panelId sessionId chunks Handler.initial s).
    rewrite Hfeed. reflexivity. }
  split; [exact Hlast|].
  rewrite parser_calls_app, parser_calls_process_lines, onExit_parser_calls, Hbuffer.
  reflexivity.
Qed.

End Session.

(** ** The failure report of the exit listener *)

Section ExitReport.

Context {World : Type} {tool : CliTool World} {host : Host World}.



End ExitReport.

(** ** What an operation leaves alone *)

(** [spawnCliProcess], for a relation that also allows the entry of the
    panel to be stored. *)
Section SpawnCliWithin.

Context {World : Type} {tool : CliTool World} {host : Host World}.
Variable options : CliSpawnOptions.t.
Variable R : St.t World -> St.t World -> Prop.
Hypothesis R_trans : forall s1 s2 s3, R s1 s2 -> R s2 s3 -> R s1 s3.
Hypothesis R_frame :
  forall s s', St.processes s' = St.processes s -> St.globals s' = St.globals s -> R s s'.
Hypothesis R_flag : forall s, R s (flagged s).
Hypothesis R_insert :
  forall s cliProcess,
    R s (St.mk (<[CliSpawnOptions.panelId options := cliProcess]> (St.processes s))
               (St.availabilityCache s) (St.globals s) (St.world s)).

Lemma stays_within_spawnCliProcess : stays_within R (spawnCliProcess options).
Proof.
  pose proof (within_refl R R_frame) as Hrefl.
  pose proof (within_world R R_frame) as Hworld.
  unfold spawnCliProcess.
  repeat first
    [ apply stays_within_getCachedAvailability; assumption
    | apply stays_within_spawnPtyProcess; assumption
    | apply (stays_within_moving_world R R_frame), only_moves_world_handleCliNotAvailable
    | apply (stays_within_moving_world R R_frame), only_moves_world_getSystemEnvironment
    | within_step
    | intros s; apply R_insert ].
Qed.

End SpawnCliWithin.

(** The exit listener, for a relation that allows the entry of the panel
    to be deleted. *)
Section ExitWithin.

Context {World : Type} {tool : CliTool World} {host : Host World}.
Variable panelId : string.
Variable R : St.t World -> St.t World -> Prop.
Hypothesis R_trans : forall s1 s2 s3, R s1 s2 -> R s2 s3 -> R s1 s3.
Hypothesis R_frame :
  forall s s', St.processes s' = St.processes s ->
               St.availabilityCache s' = St.availabilityCache s ->
               St.globals s' = St.globals s -> R s s'.
Hypothesis R_delete :
  forall s, R s (St.mk (delete panelId (St.processes s))
                       (St.availabilityCache s) (St.globals s) (St.world s)).

Lemma stays_within_onExit ptyProcess sessionId h exitCode signal :
  stays_within R (onExit ptyProcess panelId sessionId h exitCode signal).
Proof.
  assert (Hrefl : forall s, R s s) by (intros s; apply R_frame; reflexivity).
  assert (Hworld : forall s w, R s (with_world s w)) by (intros s w; apply R_frame; reflexivity).
  destruct (only_moves_world_failure_handlers exitCode signal panelId sessionId
              (Handler.lastOutput h)) as (Hstartup & Hruntime).
  unfold onExit.
  repeat first
    [ apply (stays_within_only_moves_world R _ R_frame), only_moves_world_sweep_orphans
    | apply (stays_within_only_moves_world R _ R_frame), only_moves_world_parse_and_emit
    | apply (stays_within_only_moves_world R _ R_frame), only_moves_world_cleanup
    | apply (stays_within_only_moves_world R _ R_frame); assumption
    | within_step
    | intros s; apply R_delete ].
Qed.

End ExitWithin.

Section Kept.

Context {World : Type} {tool : CliTool World} {host : Host World}.

Lemma others_kept_trans panelId (s1 s2 s3 : St.t World) :
  others_kept panelId s1 s2 -> others_kept panelId s2 s3 -> others_kept panelId s1 s3.
Proof. intros H12 H23 other Hne. rewrite (H23 other Hne). apply H12, Hne. Qed.

Lemma others_kept_same panelId (s s' : St.t World) :
  St.processes s' = St.processes s -> others_kept panelId s s'.
Proof. intros Hp other _. rewrite Hp. reflexivity. Qed.

Lemma others_kept_insert panelId cliProcess (s : St.t World) :
  others_kept panelId s
    (St.mk (<[panelId := cliProcess]> (St.processes s))
           (St.availabilityCache s) (St.globals s) (St.world s)).
Proof. intros other Hne. cbn. apply lookup_insert_ne. congruence. Qed.

Lemma others_kept_delete panelId (s : St.t World) :
  others_kept panelId s
    (St.mk (delete panelId (St.processes s))
           (St.availabilityCache s) (St.globals s) (St.world s)).
Proof. intros other Hne. cbn. apply lookup_delete_ne. congruence. Qed.

Lemma flags_kept_trans (s1 s2 s3 : St.t World) :
  flags_kept s1 s2 -> flags_kept s2 s3 -> flags_kept s1 s3.
Proof. intros H12 H23 key Hset. apply H23, H12, Hset. Qed.

Lemma flags_kept_same (s s' : St.t World) : St.globals s' = St.globals s -> flags_kept s s'.
Proof. intros Hg key Hset. rewrite Hg. exact Hset. Qed.

Lemma flags_kept_flagged (s : St.t World) : flags_kept s (flagged s).
Proof.
  intros key Hset. unfold flagged. cbn.
  destruct (decide (key = needsNodeFallbackKey)) as [->|Hne].
  - apply lookup_insert_eq.
  - rewrite lookup_insert_ne by congruence. exact Hset.
Qed.

Lemma only_moves_world_sendInput panelId input : only_moves_world (sendInput panelId input).
Proof.
  unfold sendInput. apply only_moves_world_bind; [auto with frame|]. intros s.
  destruct (St.processes s !! panelId) as [cliProcess|]; [|auto with frame].
  destruct (negb (String.eqb (CliProcess.panelId cliProcess) panelId)); auto with frame.
Qed.

Lemma only_moves_world_onData panelId sessionId h data :
  only_moves_world (onData panelId sessionId h data).
Proof.
  intros s. rewrite onData_run. apply only_moves_world_process_lines.
Qed.

Lemma killAllProcesses_unfold (s : St.t World) :
  killAllProcesses s = kill_each (map fst (map_to_list (St.processes s))) s.
Proof.
  unfold killAllProcesses. rewrite (bind_ok get _ s s s [] eq_refl).
  cbn [app]. symmetry. apply outcome_eta.
Qed.

(** The entries of the other panels. *)
Lemma perform_others_kept (op : Operation) (s : St.t World) :
  match target op with
  | Some panelId => others_kept panelId s (state_of (perform op s))
  | None => registry_shrinks s (state_of (perform op s))
  end.
Proof.
  destruct op as [options|panelId input|panelId| | |panelId sessionId h data
                 |ptyProcess panelId sessionId h exitCode signal]; cbn [target perform].
  - apply stays_within_spawnCliProcess.
    + apply others_kept_trans.
    + intros s0 s' Hp _. apply others_kept_same, Hp.
    + intros s0. apply others_kept_same. reflexivity.
    + intros s0 cliProcess. apply others_kept_insert.
  - apply others_kept_same, only_moves_world_sendInput.
  - destruct (killProcess_registry panelId s) as ([Hp | Hp] & _).
    + apply others_kept_same, Hp.
    + intros other Hne. rewrite Hp. apply lookup_delete_ne. congruence.
  - rewrite killAllProcesses_unfold. apply kill_each_outcome.
  - unfold registry_shrinks. reflexivity.
  - apply others_kept_same.
    apply (only_moves_world_bind _ _ (only_moves_world_onData panelId sessionId h data)).
    intros h'. auto with frame.
  - apply stays_within_onExit.
    + apply others_kept_trans.
    + intros s0 s' Hp _ _. apply others_kept_same, Hp.
    + intros s0. apply others_kept_delete.
Qed.

(** The flags and the availability cache. *)
Lemma perform_settings (op : Operation) (s : St.t World) :
  flags_kept s (state_of (perform op s)) /\
  ((forall options, op <> DoSpawnCliProcess options) ->
   St.globals (state_of (perform op s)) = St.globals s) /\
  ((forall options, op <> DoSpawnCliProcess options) ->
   op <> DoClearAvailabilityCache ->
   St.availabilityCache (state_of (perform op s)) = St.availabilityCache s).
Proof.
  assert (Hsame : forall s' : St.t World,
            St.availabilityCache s' = St.availabilityCache s ->
            St.globals s' = St.globals s ->
            flags_kept s s' /\
            ((forall options, op <> DoSpawnCliProcess options) ->
             St.globals s' = St.globals s) /\
            ((forall options, op <> DoSpawnCliProcess options) ->
             op <> DoClearAvailabilityCache ->
             St.availabilityCache s' = St.availabilityCache s)).
  { intros s' Hc Hg. split; [apply flags_kept_same, Hg|]. split; intros; assumption. }
  destruct op as [options|panelId input|panelId| | |panelId sessionId h data
                 |ptyProcess panelId sessionId h exitCode signal]; cbn [perform].
  - split; [|split; intros Hne; exfalso; apply (Hne options); reflexivity].
    apply stays_within_spawnCliProcess.
    + apply flags_kept_trans.
    + intros s0 s' _ Hg. apply flags_kept_same, Hg.
    + apply flags_kept_flagged.
    + intros s0 cliProcess. apply flags_kept_same. reflexivity.
  - apply Hsame; apply only_moves_world_sendInput.
  - apply Hsame; apply killProcess_registry.
  - rewrite killAllProcesses_unfold. apply Hsame; apply kill_each_outcome.
  - split; [apply flags_kept_same; reflexivity|].
    split; [reflexivity|]. intros _ Hne. contradiction.
  - assert (Hframe : only_moves_world
                       (let! _ := onData panelId sessionId h data in ret tt)).
    { apply (only_moves_world_bind _ _ (only_moves_world_onData panelId sessionId h data)).
      intros h'. auto with frame. }
    apply Hsame; apply Hframe.
  - assert (Hexit : stays_within
                      (fun s0 s' : St.t World =>
                         St.availabilityCache s' = St.availabilityCache s0 /\
                         St.globals s' = St.globals s0)
                      (onExit ptyProcess panelId sessionId h exitCode signal)).
    { apply stays_within_onExit.
      - intros s1 s2 s3 [Hc1 Hg1] [Hc2 Hg2]. split; congruence.
      - intros s0 s' _ Hc Hg. split; assumption.
      - intros s0. split; reflexivity. }
    destruct (Hexit s) as (Hc & Hg). apply Hsame; assumption.
Qed.

End Kept.

Section Isolation.

Context {World : Type} {tool : CliTool World} {host : Host World}.

(** X15. Panels are isolated from each other.  Whatever operations run on
    other panels, and whether they return or throw, the entry of a panel
    that none of them is about is never replaced: it is as it was, or it is
    gone; and it can only be gone when [killAllProcesses] was among
    them. *)
Theorem other_panels_are_kept (ops : list Operation) (panelId : string) (s : St.t World) :
  Forall (fun op => target op <> Some panelId) ops ->
  (St.processes (run_all ops s) !! panelId = St.processes s !! panelId \/
   St.processes (run_all ops s) !! panelId = None) /\
  (Forall (fun op => op <> DoKillAllProcesses) ops ->
   St.processes (run_all ops s) !! panelId = St.processes s !! panelId).
Proof.
  revert s. induction ops as [|op ops IH]; intros s Hops.
  - cbn. split; [left; reflexivity | reflexivity].
  - inversion Hops as [|? ? Hop Hrest]; subst. cbn [run_all].
    destruct (IH (state_of (perform op s)) Hrest) as (Hweak & Hstrong).
    pose proof (perform_others_kept op s) as Hkept.
    split.
    + destruct (target op) as [targeted|] eqn:Htarget.
      * rewrite <- (Hkept panelId) by congruence. exact Hweak.
      * destruct Hweak as [Hsame | Hgone]; [|right; exact Hgone].
        rewrite Hsame.
        destruct (St.processes s !! panelId) as [cliProcess|] eqn:Hlookup.
        -- destruct (St.processes (state_of (perform op s)) !! panelId) as [kept|] eqn:Hafter;
             [|right; reflexivity].
           left. apply (lookup_weaken _ _ _ _ Hafter) in Hkept. congruence.
        -- left. apply (lookup_weaken_None _ _ _ Hlookup Hkept).
    + intros Hnokill. inversion Hnokill as [|? ? Hnot Hnokill']; subst.
      rewrite (Hstrong Hnokill').
      destruct op; cbn [target] in *;
        first [apply Hkept; congruence | congruence | reflexivity].
Qed.

(** X14. No sequence of operations clears a flag of the [global] object:
    a flag that is set stays set, so the Node.js fallback, once chosen, is
    used for as long as the program runs.  Only [spawnCliProcess] changes
    the flags at all, and only [spawnCliProcess] and
    [clearAvailabilityCache] change the availability cache. *)
Theorem flags_survive_operations (ops : list Operation) (s : St.t World) :
  flags_kept s (run_all ops s) /\
  (Forall (fun op => forall options, op <> DoSpawnCliProcess options) ops ->
   St.globals (run_all ops s) = St.globals s /\
   (Forall (fun op => op <> DoClearAvailabilityCache) ops ->
    St.availabilityCache (run_all ops s) = St.availabilityCache s)).
Proof.
  revert s. induction ops as [|op ops IH]; intros s.
  - cbn. split; [intros key Hset; exact Hset|]. intros _. split; reflexivity.
  - cbn [run_all]. destruct (IH (state_of (perform op s))) as (Hflags & Hrest).
    destruct (perform_settings op s) as (Hkept & Hglobals & Hcache).
    split; [eapply flags_kept_trans; eassumption|].
    intros Hnospawn. inversion Hnospawn as [|? ? Hop Hops]; subst.
    destruct (Hrest Hops) as (Hg & Hc).
    split; [rewrite Hg; apply Hglobals, Hop|].
    intros Hnoclear. inversion Hnoclear as [|? ? Hop' Hops']; subst.
    rewrite (Hc Hops'). apply Hcache; assumption.
Qed.

End Isolation.

Lemma other_panels_are_kept_witness :
  Forall (fun op => target op <> Some "p1")
    [DoSendInput "p2" "y"; DoKillProcess "p2"; DoClearAvailabilityCache] /\
  St.processes
    (run_all [DoSendInput "p2" "y"; DoKillProcess "p2"; DoClearAvailabilityCache]
       (Demo.started Demo.healthy)) !! "p1"
  = St.processes (Demo.started Demo.healthy) !! "p1".
Proof.
  assert (Hops : Forall (fun op => target op <> Some "p1")
                   [DoSendInput "p2" "y"; DoKillProcess "p2"; DoClearAvailabilityCache])
    by (repeat constructor; discriminate).
  split; [exact Hops|].
  apply (other_panels_are_kept _ "p1" (Demo.started Demo.healthy) Hops).
  repeat constructor; discriminate.
Defined.

(** ** The sweep for orphaned children *)

Section Sweep.

Context {World : Type} {tool : CliTool World} {host : Host World}.

Lemma processReport_lists (infos : list (Z * string)) pid name :
  In (pid, name) infos ->
  Js.truthy name = true ->
  Js.includes (processReport infos) (name ++ "(" ++ Js.show_int pid ++ ")") = true.
Proof.
  intros Hin Hname. unfold processReport. apply includes_join.
  apply in_map_iff. exists (pid, name). split; [|exact Hin].
  simpl. destruct name; [discriminate | reflexivity].
Qed.

(** X16. The sweep at the start of the exit listener never throws and
    leaves the registry alone.  For a process without a pid it does
    nothing; for a process that left no descendant behind it only looks:
    no kill command is issued and nothing is emitted.  When descendants
    are found, their names are resolved first, the whole tree is killed
    with [killProcessTree], and one notice on stdout comes last, which
    names every descendant found. *)
Theorem sweep_orphans_outcome ptyProcess panelId sessionId (s : St.t World) :
  let pid := IPty.pid ptyProcess in
  let descendantPids := descendants_of pid (fst (ps_children pid (St.world s))) in
  let outcome := sweep_orphans ptyProcess panelId sessionId s in
  result_of outcome = Ok tt /\
  St.processes (state_of outcome) = St.processes s /\
  if pid =? 0 then effects_of outcome = []
  else
    match descendantPids with
    | [] => effects_of outcome = [Enumerated pid []]
    | _ :: _ =>
        exists killedProcesses s2 timestamp,
          let notice :=
            Js.nl ++ "[Process Cleanup] Terminated " ++ show_nat (length killedProcesses)
              ++ " orphaned child " ++ plural (length killedProcesses) ++ " after "
              ++ getCliToolName ++ " exit: " ++ processReport killedProcesses ++ Js.nl in
          map fst killedProcesses = descendantPids /\
          St.processes s2 = St.processes s /\
          effects_of outcome
          = (Enumerated pid descendantPids
               :: effects_of (killProcessTree pid panelId sessionId s2)
               ++ [Emitted (OutputEvent (CliOutputEvent.mk panelId sessionId stdout
                                           (Text notice) timestamp))
                           (St.processes s)])%list /\
          forall childPid name,
            In (childPid, name) killedProcesses ->
            Js.includes notice (name ++ "(" ++ Js.show_int childPid ++ ")") = true
    end.
Proof.
  intros pid descendantPids outcome. subst outcome. unfold sweep_orphans. fold pid.
  destruct (pid =? 0); [repeat split|].
  rewrite (bind_ok _ _ _ _ _ _ (getAllDescendantPids_run pid s)). fold descendantPids.
  set (s1 := with_world s (snd (ps_children pid (St.world s)))).
  destruct descendantPids as [|first others] eqn:Hfound; [repeat split|].
  change (0 <? length (first :: others))%nat with true. cbv iota.
  destruct (getProcessInfo_run (first :: others) s1)
    as (killedProcesses & s2 & Hinfo & Hpids & Hnames & Hreg2).
  rewrite (bind_ok _ _ _ _ _ _ Hinfo).
  destruct (never_throws_killProcessTree pid panelId sessionId s2)
    as (success & s3 & tree & Htree).
  pose proof (only_moves_world_killProcessTree pid panelId sessionId s2) as (Hreg3 & _).
  rewrite Htree in Hreg3. cbn [state_of fst snd] in Hreg3.
  rewrite (bind_ok _ _ _ _ _ _ Htree), emit_output_run.
  cbn [result_of state_of effects_of fst snd app].
  split; [reflexivity|]. split; [rewrite Hreg3, Hreg2; reflexivity|].
  exists killedProcesses, s2, (Date_now (St.world s3)). cbv zeta.
  split; [exact Hpids|]. split; [exact Hreg2|]. split.
  - rewrite Htree, Hreg3, Hreg2. reflexivity.
  - intros childPid name Hin.
    do 8 apply includes_app_r. apply includes_app_l.
    apply processReport_lists; [exact Hin|].
    rewrite Forall_forall in Hnames. apply (Hnames (childPid, name)).
    apply list_elem_of_In. exact Hin.
Qed.

End Sweep.

(** ** Spawning and the availability cache *)

Section SpawnProbe.

Context {World : Type} {tool : CliTool World} {host : Host World}.

Lemma getCachedAvailability_fresh (s : St.t World) result :
  cache_is_fresh s = Some result -> getCachedAvailability s = (Ok result, s, []).
Proof. intros Hfresh. unfold getCachedAvailability, bind, get. rewrite Hfresh. reflexivity. Qed.

(** After the probe, [spawnCliProcess] logs no further probe. *)
Lemma spawnCliProcess_after_probe (Q : list Effect -> Prop) options (s : St.t World) :
  Q [] -> (forall t1 t2, Q t1 -> Q t2 -> Q (t1 ++ t2)%list) ->
  (forall e registry, Q [Emitted e registry]) ->
  (forall sessionId title body, Q [SessionErrorAdded sessionId title body]) ->
  (forall ms, Q [Slept ms]) ->
  (forall mode file args cwd, Q [PtySpawnCall mode file args cwd]) ->
  exists rest,
    effects_of (spawnCliProcess options s)
      = (effects_of (getCachedAvailability s) ++ rest)%list /\ Q rest.
Proof.
  intros Hnil Happ Hemitted Hnoted Hslept Hspawn.
  destruct (getCachedAvailability_keeps_registry s) as (_ & _ & availability & Hok).
  destruct (getCachedAvailability s) as [[r s1] t1] eqn:Hprobe.
  cbn [result_of effects_of fst snd] in Hok |- *. subst r.
  unfold spawnCliProcess.
  match goal with |- context [try_catch (bind getCachedAvailability ?k) ?h] =>
    assert (Hk : logs_only Q (k availability));
    [|assert (Hh : forall e, logs_only Q (h e));
      [|specialize (Hk s1); pose proof (bind_ok _ k _ _ _ _ Hprobe) as Hbody;
        destruct (k availability s1) as [[[[]|e] s2] t2] eqn:Hrest]]
  end.
  - repeat first
      [ apply logs_only_handleCliNotAvailable; solve [auto]
      | apply logs_only_getSystemEnvironment; assumption
      | apply logs_only_spawnPtyProcess; assumption
      | logs_step ].
  - intros e. repeat logs_step.
  - cbn [result_of state_of effects_of fst snd] in Hbody, Hk.
    rewrite (try_catch_ok _ _ _ _ _ _ Hbody). exists t2. split; [reflexivity | exact Hk].
  - cbn [result_of state_of effects_of fst snd] in Hbody, Hk.
    rewrite (try_catch_thrown _ _ _ _ _ _ Hbody). specialize (Hh e s2).
    eexists. split; [cbn [effects_of snd]; rewrite <- app_assoc; reflexivity|].
    apply Happ; assumption.
Qed.

(** X12. [spawnCliProcess] and the availability cache.  A spawn runs the
    availability check at most once, and only when the cache holds no
    fresh entry; right after [clearAvailabilityCache] it always does.  A
    negative result is cached like a positive one: while it is fresh,
    every spawn fails without running the check again and without any
    attempt to start a process, and leaves the registry and the cache as
    they are. *)
Theorem spawnCliProcess_uses_cache options (s : St.t World) :
  let outcome := spawnCliProcess options s in
  probe_calls (effects_of outcome)
    = match cache_is_fresh s with
      | Some _ => []
      | None => [claudeExecutablePath (St.world s)]
      end /\
  cache_is_fresh (state_of (clearAvailabilityCache s)) = None /\
  match cache_is_fresh s with
  | Some result =>
      Availability.available result = false ->
      (exists message, result_of outcome = Thrown message) /\
      spawn_calls (effects_of outcome) = [] /\
      St.processes (state_of outcome) = St.processes s /\
      St.availabilityCache (state_of outcome) = St.availabilityCache s
  | None => True
  end.
Proof.
  intros outcome. subst outcome. split; [|split; [reflexivity|]].
  - destruct (spawnCliProcess_after_probe (fun t => probe_calls t = []) options s)
      as (rest & -> & Hrest); try (intros; reflexivity).
    { intros t1 t2 H1 H2. unfold probe_calls in *. rewrite flat_map_app, H1, H2. reflexivity. }
    unfold probe_calls in *. rewrite flat_map_app, Hrest, app_nil_r.
    destruct (cache_is_fresh s) as [result|] eqn:Hfresh.
    + rewrite (getCachedAvailability_fresh s result Hfresh). reflexivity.
    + rewrite (getCachedAvailability_miss s Hfresh). reflexivity.
  - destruct (cache_is_fresh s) as [result|] eqn:Hfresh; [|exact I].
    intros Hunavailable.
    pose proof (getCachedAvailability_fresh s result Hfresh) as Hprobe.
    pose proof (spawnCliProcess_unavailable options s result) as Hrun.
    rewrite Hprobe in Hrun. specialize (Hrun eq_refl Hunavailable). cbv zeta in Hrun.
    cbn [state_of effects_of fst snd app] in Hrun. rewrite Hrun.
    cbn [result_of state_of effects_of fst snd with_world
         St.processes St.availabilityCache].
    split; [eexists; reflexivity|]. repeat split.
Qed.

End SpawnProbe.

(** ** The queries on the registry *)

(** X13. The queries agree with each other.  [getAllProcesses] lists
    every running panel once; a panel is running exactly when it is listed,
    and exactly when [getProcess] finds its entry.  A session counts as
    running exactly when the panel id derived from it is listed, and two
    sessions never share a derived panel id. *)
Theorem registry_queries_agree {World : Type} (panelId sessionId other : string)
    (s : St.t World) :
  NoDup (getAllProcesses s) /\
  (panelId ∈ getAllProcesses s <-> isPanelRunning panelId s = true) /\
  (isPanelRunning panelId s = true <-> exists cliProcess, getProcess panelId s = Some cliProcess) /\
  (isSessionRunning sessionId s = true <-> virtualPanelId sessionId ∈ getAllProcesses s) /\
  (virtualPanelId sessionId = virtualPanelId other <-> sessionId = other).
Proof.
  assert (Hlisted : forall key, key ∈ getAllProcesses s <-> isPanelRunning key s = true).
  { intros key. unfold getAllProcesses, isPanelRunning.
    rewrite bool_decide_eq_true, list_elem_of_fmap. split.
    - intros ([key' cliProcess] & -> & Hin). apply elem_of_map_to_list in Hin.
      exists cliProcess. exact Hin.
    - intros [cliProcess Hlookup]. exists (key, cliProcess).
      split; [reflexivity | apply elem_of_map_to_list, Hlookup]. }
  split; [apply NoDup_fst_map_to_list|]. split; [apply Hlisted|]. split.
  - unfold isPanelRunning, getProcess. rewrite bool_decide_eq_true. reflexivity.
  - split; [symmetry; apply Hlisted|]. split; [|intros ->; reflexivity].
    unfold virtualPanelId. intros Heq. cbv [String.app] in Heq.
    repeat
      match type of Heq with
      | String _ _ = String _ _ => injection Heq as Heq
      end.
    exact Heq.
Qed.
